(** * CovenantSQL: storage participant, DB service, worker DBMS and key store

    A shallow embedding of the four Go sources

      - [storage]        (Storage: the two-phase-commit participant over sqlite),
      - [blockproducer]  (DBService: node allocation, peers, batched worker RPC),
      - [worker]         (DBMS: registry of databases and the db.meta file),
      - [kms]            (LoadPrivateKey / SavePrivateKey),

    with the properties of the specification stated over it.

    Conventions.  Go integers are [Z]; strings are [string]; a nil slice and
    an empty slice are both [[]]; a nil pointer is [None].  A Go function that
    returns [(x, err)] returns a pair whose error component is an [option]:
    [None] is the nil error.  Calls into collaborators that live outside these
    sources (the SQL engine, the hash ring, the metric collector, the RPC
    caller, the crypto primitives) are oracles collected in a record; every
    theorem quantifies over them. *)

From Stdlib Require Import ZArith Lia.
From Stdlib.Strings Require Import Byte.
From stdpp Require Import base option list sets gmap strings fin_maps.

Local Open Scope Z_scope.

(** ** Storage: the two-phase-commit participant *)

Module Storage.

(** [type TxID struct { ConnectionID uint64; SeqNo uint64; Timestamp int64 }] *)
Record TxID : Type := mkTxID {
  ConnectionID : Z;
  SeqNo : Z;
  Timestamp : Z
}.

(** The zero value, which [Storage.id] holds until the first successful
    Prepare. *)
Definition zeroTxID : TxID := mkTxID 0 0 0.

(** [func equalTxID(x, y *TxID) bool] *)
Definition equalTxID (x y : TxID) : bool :=
  (ConnectionID x =? ConnectionID y) && (SeqNo x =? SeqNo y)
  && (Timestamp x =? Timestamp y).

(** [type ExecLog struct { ConnectionID; SeqNo; Timestamp; Queries []string }] *)
Record ExecLog : Type := mkExecLog {
  elConnectionID : Z;
  elSeqNo : Z;
  elTimestamp : Z;
  Queries : list string
}.

(** [TxID{el.ConnectionID, el.SeqNo, el.Timestamp}] *)
Definition txidOf (el : ExecLog) : TxID :=
  mkTxID (elConnectionID el) (elSeqNo el) (elTimestamp el).

(** [twopc.WriteBatch] is an interface; the participant downcasts it with
    a type assertion to [ExecLog]. *)
Inductive WriteBatch : Type :=
| ExecLogBatch (el : ExecLog)
| OtherBatch.

Inductive Error : Type :=
| ErrUnexpectedWriteBatch            (* "unexpected WriteBatch type" *)
| ErrInconsistentState (cur : TxID)  (* "twopc: inconsistent state, currently in tx: ..." *)
| ErrNotPrepared                     (* "twopc: tx not prepared" *)
| ErrEOF                             (* io.EOF *)
| ErrScanArity                       (* database/sql: wrong number of Scan destinations *)
| ErrSQL (code : nat).               (* any error raised by the SQL engine *)

(** Values handed over by the sqlite3 driver, kept in their original type. *)
Inductive Value : Type :=
| VNull
| VInt (n : Z)
| VReal (bits : Z)
| VText (s : string)
| VBlob (b : list Z).

(** What a [*sql.Rows] answers: [Columns()], the [DatabaseTypeName()] of
    [ColumnTypes()], the successive rows ([Next] / [Scan]; a row the driver
    cannot deliver is an error) and the final [Err()]. *)
Record Rows : Type := mkRows {
  rColumns : Error + list string;
  rColumnTypes : Error + list string;
  rNext : list (Error + list Value);
  rErr : option Error
}.

(** Calls received by the SQL engine behind [s.db], with their outcome.  A
    transaction handle is the position of its [BeginTx] in this history.
    [opts] is [None] for [BeginTx(ctx, nil)] and [Some ro] for
    [&sql.TxOptions{ReadOnly: ro}]. *)
Inductive Event : Type :=
| EvBeginTx (opts : option bool) (res : option Error)
| EvExec (h : nat) (q : string) (res : option Error)
| EvQuery (h : nat) (q : string) (res : option Error)
| EvCommit (h : nat) (res : option Error)
| EvRollback (h : nat) (res : option Error).

(** The SQL engine: each answer may depend on everything it has been asked
    before. *)
Record Engine : Type := mkEngine {
  eBegin : list Event -> option bool -> option Error;
  eExec : list Event -> nat -> string -> Error + (Z * option Error);
    (* on success: the result's RowsAffected() *)
  eQuery : list Event -> nat -> string -> Error + Rows;
  eCommit : list Event -> nat -> option Error;
  eRollback : list Event -> nat -> option Error
}.

(** [type Storage struct { sync.Mutex; dsn; db; tx *sql.Tx; id TxID; queries }].
    [db] is represented by the calls it has received; the mutex serialises
    Prepare, Commit and Rollback, which therefore are atomic steps here. *)
Record Storage : Type := mkStorage {
  db : list Event;
  tx : option nat;
  id : TxID;
  queries : list string
}.

(** [New]: [&Storage{dsn: dsn, db: db}]. *)
Definition New (hist : list Event) : Storage :=
  mkStorage hist None zeroTxID [].

Definition Idle (s : Storage) : Prop := tx s = None.

Definition resOf {A} (r : Error + A) : option Error :=
  match r with inl e => Some e | inr _ => None end.

(** [func (s *Storage) Prepare(ctx, wb) (err error)] *)
Definition Prepare (E : Engine) (s : Storage) (wb : WriteBatch)
  : Storage * option Error :=
  match wb with
  | OtherBatch => (s, Some ErrUnexpectedWriteBatch)
  | ExecLogBatch el =>
    match tx s with
    | Some _ =>
      if equalTxID (id s) (txidOf el)
      then (mkStorage (db s) (tx s) (id s) (Queries el), None)
      else (s, Some (ErrInconsistentState (id s)))
    | None =>
      let r := eBegin E (db s) None in
      let hist := db s ++ [EvBeginTx None r] in
      match r with
      | Some e => (mkStorage hist None (id s) (queries s), Some e)
      | None =>
        (mkStorage hist (Some (length (db s))) (txidOf el) (Queries el), None)
      end
    end
  end.

(** The loop [for _, q := range s.queries { _, err = s.tx.ExecContext(ctx, q);
    if err != nil { ... return } }]: the history after the loop and the first
    error met. *)
Fixpoint execAll (E : Engine) (h : nat) (hist : list Event) (qs : list string)
  : list Event * option Error :=
  match qs with
  | [] => (hist, None)
  | q :: qs' =>
    let r := eExec E hist h q in
    let hist' := hist ++ [EvExec h q (resOf r)] in
    match r with
    | inl e => (hist', Some e)
    | inr _ => execAll E h hist' qs'
    end
  end.

(** [func (s *Storage) Commit(ctx, wb) (err error)].  The results of
    [s.tx.Rollback()] and [s.tx.Commit()] are not read. *)
Definition Commit (E : Engine) (s : Storage) (wb : WriteBatch)
  : Storage * option Error :=
  match wb with
  | OtherBatch => (s, Some ErrUnexpectedWriteBatch)
  | ExecLogBatch el =>
    match tx s with
    | Some h =>
      if equalTxID (id s) (txidOf el)
      then
        match execAll E h (db s) (queries s) with
        | (hist, Some e) =>
          (mkStorage (hist ++ [EvRollback h (eRollback E hist h)]) None (id s) [],
           Some e)
        | (hist, None) =>
          (mkStorage (hist ++ [EvCommit h (eCommit E hist h)]) None (id s) [],
           None)
        end
      else (s, Some (ErrInconsistentState (id s)))
    | None => (s, Some ErrNotPrepared)
    end
  end.

(** [func (s *Storage) Rollback(ctx, wb) (err error)] *)
Definition Rollback (E : Engine) (s : Storage) (wb : WriteBatch)
  : Storage * option Error :=
  match wb with
  | OtherBatch => (s, Some ErrUnexpectedWriteBatch)
  | ExecLogBatch el =>
    if negb (equalTxID (id s) (txidOf el))
    then (s, Some (ErrInconsistentState (id s)))
    else
      match tx s with
      | Some h =>
        (mkStorage (db s ++ [EvRollback h (eRollback E (db s) h)]) None (id s) [],
         None)
      | None => (s, None)
      end
  end.

(** [type rowScanner struct { fieldCnt; column; fields; scanArgs }].  The
    [scanArgs] are [fieldCnt] references to the scanner itself, so only their
    number is kept. *)
Record rowScanner : Type := mkRowScanner {
  fieldCnt : nat;
  column : nat;
  fields : list Value
}.

Definition newRowScanner (cnt : nat) : rowScanner :=
  mkRowScanner cnt 0 (replicate cnt VNull).

(** [func (s *rowScanner) Scan(src interface{}) error] *)
Definition Scan (rs : rowScanner) (src : Value) : rowScanner * option Error :=
  if (fieldCnt rs <=? column rs)%nat
  then (rs, Some ErrEOF)
  else (mkRowScanner (fieldCnt rs) (S (column rs))
          (<[column rs := src]> (fields rs)), None).

(** [func (s *rowScanner) ScanArgs() []interface{}]: reset, then hand out the
    [fieldCnt] destinations. *)
Definition ScanArgs (rs : rowScanner) : rowScanner :=
  mkRowScanner (fieldCnt rs) 0 (replicate (fieldCnt rs) VNull).

Definition GetRow (rs : rowScanner) : list Value := fields rs.

(** [rows.Scan(rs.ScanArgs()...)] for a row [vals] of the driver: database/sql
    refuses a destination count that differs from the row's width, then calls
    [Scan] on each destination in turn. *)
Fixpoint scanInto (rs : rowScanner) (vals : list Value)
  : rowScanner * option Error :=
  match vals with
  | [] => (rs, None)
  | v :: vs =>
    match Scan rs v with
    | (rs', Some e) => (rs', Some e)
    | (rs', None) => scanInto rs' vs
    end
  end.

Definition rowsScan (rs : rowScanner) (vals : list Value)
  : rowScanner * option Error :=
  let rs0 := ScanArgs rs in
  if (length vals =? fieldCnt rs0)%nat then scanInto rs0 vals
  else (rs0, Some ErrScanArity).

(** The loop [for rows.Next() { err = rows.Scan(...); if err != nil { return };
    data = append(data, rs.GetRow()) }; err = rows.Err()]. *)
Fixpoint scanRows (rs : rowScanner) (pending : list (Error + list Value))
  (final : option Error) (data : list (list Value))
  : list (list Value) * option Error :=
  match pending with
  | [] => (data, final)
  | inl e :: _ => (data, Some e)
  | inr vals :: rest =>
    match rowsScan rs vals with
    | (_, Some e) => (data, Some e)
    | (rs', None) => scanRows rs' rest final (data ++ [GetRow rs'])
    end
  end.

(** The four results of [Query]: columns, types, data, err. *)
Definition QueryResult : Type :=
  (list string * list string * list (list Value) * option Error)%type.

(** [func (s *Storage) Query(ctx, queries) (columns, types, data, err)].  The
    deferred [tx.Rollback()] runs on every exit after the transaction is
    opened. *)
Definition Query (E : Engine) (s : Storage) (qs : list string)
  : Storage * QueryResult :=
  match qs with
  | [] => (s, ([], [], [], None))
  | q0 :: _ =>
    let r := eBegin E (db s) (Some true) in
    let hist := db s ++ [EvBeginTx (Some true) r] in
    match r with
    | Some e => (mkStorage hist (tx s) (id s) (queries s), ([], [], [], Some e))
    | None =>
      let h := length (db s) in
      let rq := eQuery E hist h q0 in
      let hist1 := hist ++ [EvQuery h q0 (resOf rq)] in
      let done (res : QueryResult) :=
        (mkStorage (hist1 ++ [EvRollback h (eRollback E hist1 h)])
           (tx s) (id s) (queries s), res) in
      match rq with
      | inl e => done ([], [], [], Some e)
      | inr rows =>
        match rColumns rows with
        | inl e => done ([], [], [], Some e)
        | inr columns =>
          match rColumnTypes rows with
          | inl e => done (columns, [], [], Some e)
          | inr types =>
            let '(data, err) :=
              scanRows (newRowScanner (length columns)) (rNext rows)
                (rErr rows) [] in
            done (columns, types, data, err)
          end
        end
      end
    end
  end.

(** [func (s *Storage) Exec(ctx, queries) (rowsAffected int64, err error)].
    [tx.Commit()]'s result is not read; the deferred [tx.Rollback()] still runs
    after it. *)
Definition Exec (E : Engine) (s : Storage) (qs : list string)
  : Storage * (Z * option Error) :=
  match qs with
  | [] => (s, (0, None))
  | q0 :: _ =>
    let r := eBegin E (db s) (Some false) in
    let hist := db s ++ [EvBeginTx (Some false) r] in
    match r with
    | Some e => (mkStorage hist (tx s) (id s) (queries s), (0, Some e))
    | None =>
      let h := length (db s) in
      let rx := eExec E hist h q0 in
      let hist1 := hist ++ [EvExec h q0 (resOf rx)] in
      match rx with
      | inl e =>
        (mkStorage (hist1 ++ [EvRollback h (eRollback E hist1 h)])
           (tx s) (id s) (queries s), (0, Some e))
      | inr affected =>
        let hist2 := hist1 ++ [EvCommit h (eCommit E hist1 h)] in
        (mkStorage (hist2 ++ [EvRollback h (eRollback E hist2 h)])
           (tx s) (id s) (queries s), affected)
      end
    end
  end.

(** One request of the consensus driver, and a run of several. *)
Inductive Op : Type :=
| OpPrepare (wb : WriteBatch)
| OpCommit (wb : WriteBatch)
| OpRollback (wb : WriteBatch).

Definition step (E : Engine) (s : Storage) (op : Op) : Storage * option Error :=
  match op with
  | OpPrepare wb => Prepare E s wb
  | OpCommit wb => Commit E s wb
  | OpRollback wb => Rollback E s wb
  end.

Fixpoint run (E : Engine) (s : Storage) (ops : list Op)
  : Storage * list (option Error) :=
  match ops with
  | [] => (s, [])
  | op :: rest =>
    let '(s1, r) := step E s op in
    let '(s2, rs) := run E s1 rest in
    (s2, r :: rs)
  end.

(** A small engine for the scenarios: every statement succeeds and touches
    one row, except ["BadSQL"], which fails; the final COMMIT answers
    [commitRes]. *)
Definition scenarioEngine (commitRes : option Error) : Engine :=
  mkEngine
    (λ _ _, None)
    (λ _ _ q, if decide (q = "BadSQL") then inl (ErrSQL 1) else inr (1, None))
    (λ _ _ _, inr (mkRows (inr ["c"]) (inr ["INTEGER"]) [inr [VInt 1]] None))
    (λ _ _, commitRes)
    (λ _ _, None).

Definition T1 : TxID := mkTxID 1 1 1.

Definition batch (t : TxID) (qs : list string) : WriteBatch :=
  ExecLogBatch (mkExecLog (ConnectionID t) (SeqNo t) (Timestamp t) qs).

(** A participant holding transaction [T1] with [qs] buffered. *)
Definition prepared (qs : list string) : Storage :=
  mkStorage [EvBeginTx None None] (Some 0%nat) T1 qs.

(** *** Requests of every kind, and the transactions a history leaves open *)

(** What reaches a participant: the three calls of the consensus driver, a
    read-only query, a direct write. *)
Inductive Request : Type :=
| Twopc (op : Op)
| ReadQuery (qs : list string)
| DirectExec (qs : list string).

Definition serve (E : Engine) (s : Storage) (r : Request) : Storage :=
  match r with
  | Twopc op => (step E s op).1
  | ReadQuery qs => (Query E s qs).1
  | DirectExec qs => (Exec E s qs).1
  end.

Definition serveAll (E : Engine) (s : Storage) (rs : list Request) : Storage :=
  foldl (serve E) s rs.

(** [Commit] or [Rollback] was called on the handle [h]. *)
Definition closes (h : nat) (ev : Event) : bool :=
  match ev with
  | EvCommit h' _ | EvRollback h' _ => (h' =? h)%nat
  | _ => false
  end.

Definition ended (h : nat) (hist : list Event) : bool := existsb (closes h) hist.

(** The handles of the transactions that [BeginTx] opened, [i] being the
    position of the first event of [hist]. *)
Fixpoint begunFrom (i : nat) (hist : list Event) : list nat :=
  match hist with
  | [] => []
  | EvBeginTx _ None :: rest => i :: begunFrom (S i) rest
  | _ :: rest => begunFrom (S i) rest
  end.

(** The transactions opened and neither committed nor rolled back. *)
Definition openTxs (hist : list Event) : list nat :=
  filter (λ h, ended h hist = false) (begunFrom 0 hist).

(** Histories in which Commit and Rollback are only called on handles that
    exist. *)
Definition closesKnown (hist : list Event) : Prop :=
  forall h, ended h hist = true -> (h < length hist)%nat.

(** Events that open and close nothing. *)
Definition neutral (ev : Event) : Prop :=
  match ev with
  | EvBeginTx _ (Some _) | EvExec _ _ _ | EvQuery _ _ _ => True
  | _ => False
  end.

(** The transaction that the participant holds is the only one left open,
    and Commit and Rollback were only called on handles that exist. *)
Definition holdsItsTransaction (s : Storage) : Prop :=
  closesKnown (db s) /\ openTxs (db s) = option_list (tx s).

(** The statements handed to the engine for execution, in order. *)
Definition executed (hist : list Event) : list string :=
  omap (λ ev, match ev with EvExec _ q _ => Some q | _ => None end) hist.

(** *** [openDB] and the process-wide index of open databases *)

(** [*DSN] is declared outside these sources: the type and its methods are
    taken as they are used.  [sqlOpen] is [sql.Open("sqlite3", fdsn)], which
    may depend on how many handles were opened before; a handle is the number
    of the call that opened it. *)
Record OpenEnv : Type := mkOpenEnv {
  DSN : Type;
  NewDSN : string -> Error + DSN;
  AddParam : DSN -> string -> string -> DSN;
  Format : DSN -> string;
  GetFileName : DSN -> string;
  GetParam : DSN -> string -> string;
  filename : DSN -> string;
  sqlOpen : nat -> string -> option Error
}.

(** [index = struct { sync.Mutex; db map[string]*sql.DB }], with the number
    of calls made to [sql.Open]. *)
Record Index : Type := mkIndex {
  indexDB : gmap string nat;
  opened : nat
}.

(** The DSN that [openDB] rebuilds. *)
Definition rebuilt (O : OpenEnv) (d : DSN O) : DSN O :=
  AddParam O (AddParam O d "_journal_mode" "WAL") "_synchronous" "FULL".

(** [(fn == ":memory:" || mode == "memory") && cache != "shared"] *)
Definition privateMemory (O : OpenEnv) (d : DSN O) : bool :=
  (bool_decide (GetFileName O d = ":memory:")
   || bool_decide (GetParam O d "mode" = "memory"))
  && bool_decide (GetParam O d "cache" ≠ "shared").

(** [func openDB(dsn string) (db *sql.DB, err error)] *)
Definition openDB (O : OpenEnv) (idx : Index) (dsn : string)
  : Index * (option nat * option Error) :=
  match NewDSN O dsn with
  | inl e => (idx, (None, Some e))
  | inr d0 =>
    let d := rebuilt O d0 in
    let fdsn := Format O d in
    if privateMemory O d
    then
      match sqlOpen O (opened idx) fdsn with
      | Some e => (mkIndex (indexDB idx) (S (opened idx)), (None, Some e))
      | None =>
        (mkIndex (indexDB idx) (S (opened idx)), (Some (opened idx), None))
      end
    else
      match indexDB idx !! filename O d with
      | Some db => (idx, (Some db, None))
      | None =>
        match sqlOpen O (opened idx) fdsn with
        | Some e => (mkIndex (indexDB idx) (S (opened idx)), (None, Some e))
        | None =>
          (mkIndex (<[filename O d := opened idx]> (indexDB idx))
             (S (opened idx)), (Some (opened idx), None))
        end
      end
  end.

(** DSNs for the scenarios: a file name with its mode and cache parameters.
    The empty string does not parse; [":memory:"] is an in-memory database;
    any other string names a file.  Every [sql.Open] succeeds. *)
Definition scenarioOpenEnv : OpenEnv :=
  mkOpenEnv (string * string * string)
    (λ dsn, if decide (dsn = "") then inl (ErrSQL 9)
            else if decide (dsn = ":memory:") then inr (dsn, "memory", "")
            else inr (dsn, "", ""))
    (λ d _ _, d)
    (λ d, d.1.1)
    (λ d, d.1.1)
    (λ d key, if decide (key = "mode") then d.1.2
              else if decide (key = "cache") then d.2 else "")
    (λ d, d.1.1)
    (λ _ _, None).

End Storage.

(** ** Types of the packages the DB service and the worker share *)

(** Results of a Go call that may also panic, or block for ever. *)
Inductive outcome (A : Type) : Type :=
| Returns (a : A)
| Panics
| Blocks.
Arguments Returns {A} a.
Arguments Panics {A}.
Arguments Blocks {A}.

(** Keys, signatures and hashes are carried in serialised form. *)
Abbreviation Key := string (only parsing).

Module proto.

(** [proto.Node]: of its fields, the DB service reads [ID] and [PublicKey]. *)
Record Node : Type := mkNode {
  ID : string;
  PublicKey : Key
}.

End proto.

Module conf.

(** [conf.ServerRole] *)
Inductive ServerRole : Type := Leader | Follower.

End conf.

Module kayak.

(** [kayak.Server] *)
Record Server : Type := mkServer {
  Role : conf.ServerRole;
  ID : string;
  PubKey : Key
}.

(** [kayak.Peers].  [Servers] is a [[]*Server]: an entry is [None] while it is
    the nil pointer.  [Leader] points to one of the entries of [Servers]: it is
    kept as the index of that entry. *)
Record Peers : Type := mkPeers {
  Term : Z;
  PeersPubKey : Key;
  Servers : list (option Server);
  Leader : option nat;
  Signature : option string
}.

Definition leaderServer (p : Peers) : option Server :=
  match Leader p with
  | Some i => mjoin (Servers p !! i)
  | None => None
  end.

End kayak.

Module wt.

(** [wt.ResourceMeta]: the requested replica count and the memory floor in
    bytes (uint64).  The struct is declared outside these sources; [Node] is
    read through [int(resourceMeta.Node)]. *)
Record ResourceMeta : Type := mkResourceMeta {
  Node : Z;
  Memory : Z
}.

(** [ct.Block], the genesis block: only what [generateGenesisBlock] sets. *)
Record Block : Type := mkBlock {
  Version : Z;
  Producer : string;
  GenesisHash : string;
  ParentHash : string;
  Timestamp : Z;
  Signee : Key;
  BlockSignature : option string
}.

(** [wt.ServiceInstance] *)
Record ServiceInstance : Type := mkServiceInstance {
  DatabaseID : string;
  Peers : option kayak.Peers;
  InstanceResourceMeta : ResourceMeta;
  GenesisBlock : option Block
}.

(** [wt.UpdateService.Op] *)
Inductive UpdateType : Type := CreateDB | UpdateDB | DropDB.

(** [wt.UpdateService] *)
Record UpdateService : Type := mkUpdateService {
  Op : UpdateType;
  Instance : ServiceInstance
}.

End wt.

(** ** The block producer's DB service *)

Module BlockProducer.

Inductive Error : Type :=
| ErrDatabaseAllocation
| ErrMetricNotCollected
| ErrNoSuchDatabase
| ErrExternal (code : nat).   (* an error of a collaborator: kms, signing, RPC, service map *)

Definition MetricFreeMemoryBytes : string := "node_memory_free_bytes_total".
Definition MetricFreeFSBytes : string := "node_filesystem_free_bytes_total".
Definition DefaultAllocationRounds : nat := 3.

(** [dto.MetricType] *)
Inductive MetricType : Type := COUNTER | GAUGE | SUMMARY | UNTYPED | HISTOGRAM.

(** [dto.Metric]: the gauge and the counter it carries, if any.  A value is
    recorded as the uint64 that [uint64(x.GetValue())] yields; the getters of
    an absent gauge or counter answer 0. *)
Record Metric : Type := mkMetric {
  Gauge : option Z;
  Counter : option Z
}.

(** [dto.MetricFamily] *)
Record MetricFamily : Type := mkMetricFamily {
  Type_ : MetricType;
  Metric_ : list Metric
}.

(** [metric.MetricMap = map[string]*dto.MetricFamily] *)
Abbreviation MetricMap := (gmap string (option MetricFamily)) (only parsing).

(** The collaborators of one [DBService] call.  The ring and the metric
    collector are live services: their answers may differ from one allocation
    round to the next, so they take the round number.  [GetMetrics] answers a
    Go map, given here as its entries in the order in which the [range]
    statement visits them.  [randDraw] is the draw behind [rand.Intn];
    [arrival] is the order in which the replies of a batch of concurrent RPCs
    reach the error channel. *)
Record Env : Type := mkEnv {
  GetNeighbors : nat -> string -> Z -> list proto.Node;
  GetMetrics : nat -> list string -> list (string * MetricMap);
  GetLocalPublicKey : Error + Key;
  GetLocalPrivateKey : Error + Key;
  GetLocalNodeID : Error + string;
  randDraw : nat;
  PeersSign : Key -> kayak.Peers -> Error + string;
  PackAndSignBlock : Key -> wt.Block -> Error + string;
  now : Z;
  minedIDs : string -> list string;
  CallNode : string -> option wt.UpdateService -> option Error;
  arrival : list string -> list string;
  ServiceMapSetErr : wt.ServiceInstance -> option Error
}.

(** [type DBService struct { AllocationRounds int; ServiceMap; Consistent;
    NodeMetrics }]: the ring and the metrics are in [Env].  [AllocationRounds]
    is not negative: the allocation loop counts [i] up from 0 until it equals
    this number. *)
Record DBService : Type := mkDBService {
  AllocationRounds : nat;
  ServiceMap : gmap string wt.ServiceInstance
}.

(** [func (s *DBService) getMetric(metric, key) (value uint64, err error)].
    [rawMetric.GetMetric()[0]] panics on a family without samples. *)
Definition getMetric (metric : MetricMap) (key : string)
  : outcome (Z * option Error) :=
  match metric !! key with
  | None | Some None => Returns (0, Some ErrMetricNotCollected)
  | Some (Some rawMetric) =>
    match Type_ rawMetric with
    | GAUGE =>
      match Metric_ rawMetric with
      | [] => Panics
      | m :: _ => Returns (default 0 (Gauge m), None)
      end
    | COUNTER =>
      match Metric_ rawMetric with
      | [] => Panics
      | m :: _ => Returns (default 0 (Counter m), None)
      end
    | _ => Returns (0, Some ErrMetricNotCollected)
    end
  end.

(** The server written at [peers.Servers[idx]]: a follower, made the leader
    when [idx == leaderIdx]. *)
Definition serverOf (leaderIdx idx : nat) (node : proto.Node) : kayak.Server :=
  kayak.mkServer (if (idx =? leaderIdx)%nat then conf.Leader else conf.Follower)
    (proto.ID node) (proto.PublicKey node).

(** The loop [for idx, node := range allocatedNodes { peers.Servers[idx] =
    &kayak.Server{...}; if idx == leaderIdx { ... } }].  Writing past the end of
    [peers.Servers] panics. *)
Fixpoint fillServers (leaderIdx : nat) (allocatedNodes : list proto.Node)
  (idx : nat) (servers : list (option kayak.Server)) (leader : option nat)
  : outcome (list (option kayak.Server) * option nat) :=
  match allocatedNodes with
  | [] => Returns (servers, leader)
  | node :: rest =>
    if (length servers <=? idx)%nat then Panics
    else
      fillServers leaderIdx rest (S idx)
        (<[idx := Some (serverOf leaderIdx idx node)]> servers)
        (if (idx =? leaderIdx)%nat then Some idx else leader)
  end.

(** [func (s *DBService) buildPeers(term, nodes, allocated) (peers, err)].
    [allocatedMap] is filled from [allocated] and never read: [allocatedNodes]
    receives every element of [nodes].  [rand.Intn(0)] panics. *)
Definition buildPeers (env : Env) (term : Z) (nodes : list proto.Node)
  (allocated : list string) : outcome (option kayak.Peers * option Error) :=
  match GetLocalPublicKey env with
  | inl e => Returns (None, Some e)
  | inr pubKey =>
    match GetLocalPrivateKey env with
    | inl e => Returns (None, Some e)
    | inr privKey =>
      let allocatedNodes := nodes in
      match length allocated with
      | O => Panics
      | S _ =>
        let leaderIdx := (randDraw env mod length allocated)%nat in
        match fillServers leaderIdx allocatedNodes 0
                (replicate (length allocated) None) None with
        | Returns (servers, leader) =>
          let peers := kayak.mkPeers term pubKey servers leader None in
          match PeersSign env privKey peers with
          | inl e => Returns (Some peers, Some e)
          | inr sig =>
            Returns (Some (kayak.mkPeers term pubKey servers leader (Some sig)),
                     None)
          end
        | Panics => Panics
        | Blocks => Blocks
        end
      end
    end
  end.

(** One turn of [for nodeID, nodeMetric := range metrics { ... }]: the node is
    appended to [allocated] or added to [excludeNodes]. *)
Definition checkNode (memory : Z) (st : list string * gset string)
  (entry : string * MetricMap) : outcome (list string * gset string) :=
  let '(allocated, excludeNodes) := st in
  let '(nodeID, nodeMetric) := entry in
  match getMetric nodeMetric MetricFreeMemoryBytes with
  | Returns (_, Some _) => Returns (allocated, {[nodeID]} ∪ excludeNodes)
  | Returns (metricValue, None) =>
    if memory <? metricValue
    then Returns (allocated ++ [nodeID], excludeNodes)
    else Returns (allocated, {[nodeID]} ∪ excludeNodes)
  | Panics => Panics
  | Blocks => Blocks
  end.

Fixpoint checkNodes (memory : Z) (metrics : list (string * MetricMap))
  (st : list string * gset string) : outcome (list string * gset string) :=
  match metrics with
  | [] => Returns st
  | entry :: rest =>
    match checkNode memory st entry with
    | Returns st' => checkNodes memory rest st'
    | Panics => Panics
    | Blocks => Blocks
    end
  end.

(** The node ids of the neighbours that are not excluded. *)
Definition suitable (excludeNodes : gset string) (nodes : list proto.Node)
  : list string :=
  proto.ID <$> filter (λ node, proto.ID node ∉ excludeNodes) nodes.

(** What one round of the allocation loop ends with. *)
Inductive RoundResult : Type :=
| RoundReturn (r : option kayak.Peers * option Error)
| RoundNext (curRange : Z) (excludeNodes : gset string)
| RoundPanic.

(** The body of [for i := 0; i != s.AllocationRounds; i++ { ... }].  The
    error of [GetNeighbors] is overwritten before anything reads it: only the
    nodes it returns count.  [curRange] grows by N once per round at most and
    stays far inside the range of [int]. *)
Definition allocationRound (env : Env) (i : nat) (lastTerm : Z) (dbID : string)
  (resourceMeta : wt.ResourceMeta) (curRange : Z) (excludeNodes : gset string)
  : RoundResult :=
  let nodes := GetNeighbors env i dbID curRange in
  let nodeIDs := suitable excludeNodes nodes in
  if Z.of_nat (length nodeIDs) <? wt.Node resourceMeta
  then RoundNext curRange excludeNodes            (* continue *)
  else
    match checkNodes (wt.Memory resourceMeta) (GetMetrics env i nodeIDs)
            ([], excludeNodes) with
    | Returns (allocated, excludeNodes') =>
      if wt.Node resourceMeta <=? Z.of_nat (length allocated)
      then
        match buildPeers env ((lastTerm + 1) mod 2 ^ 64) nodes
                (take (Z.to_nat (wt.Node resourceMeta)) allocated) with
        | Returns r => RoundReturn r
        | _ => RoundPanic
        end
      else RoundNext (curRange + wt.Node resourceMeta) excludeNodes'
    | _ => RoundPanic
    end.

Fixpoint allocationLoop (env : Env) (rounds i : nat) (lastTerm : Z)
  (dbID : string) (resourceMeta : wt.ResourceMeta) (curRange : Z)
  (excludeNodes : gset string) : outcome (option kayak.Peers * option Error) :=
  match rounds with
  | O => Returns (None, Some ErrDatabaseAllocation)
  | S rounds' =>
    match allocationRound env i lastTerm dbID resourceMeta curRange
            excludeNodes with
    | RoundReturn r => Returns r
    | RoundNext curRange' excludeNodes' =>
      allocationLoop env rounds' (S i) lastTerm dbID resourceMeta curRange'
        excludeNodes'
    | RoundPanic => Panics
    end
  end.

(** [func (s *DBService) allocateNodes(lastTerm, dbID, resourceMeta)
    (peers, err)] *)
Definition allocateNodes (env : Env) (s : DBService) (lastTerm : Z)
  (dbID : string) (resourceMeta : wt.ResourceMeta)
  : outcome (option kayak.Peers * option Error) :=
  if wt.Node resourceMeta <=? 0
  then Returns (None, Some ErrDatabaseAllocation)
  else allocationLoop env (AllocationRounds s) 0 lastTerm dbID resourceMeta
         (wt.Node resourceMeta) ∅.

(** An RPC handed to [rpc.NewCaller().CallNode(node, "DBS.Update", req, &resp)]. *)
Definition Call : Type := (string * option wt.UpdateService)%type.

(** [func (s *DBService) batchSendSingleSvcReq(req, nodes) (err error)].  One
    goroutine per node sends the result of its call into [errCh], a channel
    with room for [len(nodes)] errors; after [wg.Wait()] and [close(errCh)] a
    single receive [err = <-errCh] takes the error that arrived first (the zero
    value nil when the channel is empty).  The second component lists the calls
    made, in the order of [nodes]. *)
Definition batchSendSingleSvcReq (env : Env) (req : option wt.UpdateService)
  (nodes : list string) : option Error * list Call :=
  let errCh := (λ node, CallNode env node req) <$> arrival env nodes in
  (default None (head errCh), (λ node, (node, req)) <$> nodes).

(** [func (s *DBService) batchSendSvcReq(req, rollbackReq, nodes) (err error)] *)
Definition batchSendSvcReq (env : Env) (req rollbackReq : option wt.UpdateService)
  (nodes : list string) : option Error * list Call :=
  let '(err, sent) := batchSendSingleSvcReq env req nodes in
  match err with
  | Some _ => (err, sent ++ snd (batchSendSingleSvcReq env rollbackReq nodes))
  | None => (err, sent)
  end.

(** [func (s *DBService) peersToNodes(peers) (nodes []proto.NodeID)];
    [s.ID] on a nil server panics. *)
Fixpoint serverIDs (servers : list (option kayak.Server)) : outcome (list string) :=
  match servers with
  | [] => Returns []
  | None :: _ => Panics
  | Some srv :: rest =>
    match serverIDs rest with
    | Returns ids => Returns (kayak.ID srv :: ids)
    | o => o
    end
  end.

Definition peersToNodes (peers : option kayak.Peers) : outcome (list string) :=
  match peers with
  | None => Returns []
  | Some p => serverIDs (kayak.Servers p)
  end.

(** Modelled from the spec: [DBServiceMap.Get], declared outside these sources:
    a lookup by database id that answers the distinguished [NoSuchDatabase]
    error on a missing id. *)
Definition ServiceMapGet (s : DBService) (dbID : string)
  : Error + wt.ServiceInstance :=
  match ServiceMap s !! dbID with
  | Some instance => inr instance
  | None => inl ErrNoSuchDatabase
  end.

(** Modelled from the spec: [DBServiceMap.Set], declared outside these sources:
    records the instance under its database id, unless the write fails. *)
Definition ServiceMapSet (env : Env) (s : DBService) (meta : wt.ServiceInstance)
  : Error + DBService :=
  match ServiceMapSetErr env meta with
  | Some e => inl e
  | None =>
    inr (mkDBService (AllocationRounds s)
           (<[wt.DatabaseID meta := meta]> (ServiceMap s)))
  end.

(** Modelled from the spec: [DBServiceMap.Delete], declared outside these
    sources: removes the entry of a database id. *)
Definition ServiceMapDelete (s : DBService) (dbID : string) : DBService :=
  mkDBService (AllocationRounds s) (delete dbID (ServiceMap s)).

(** [func (s *DBService) generateDatabaseID(reqNodeID) (dbID, err)]: the first
    mined id that the service map does not hold.  The loop waits for the next
    nonce when the ids seen so far are all taken. *)
Fixpoint firstFreeID (s : DBService) (candidates : list string)
  : outcome (string * option Error) :=
  match candidates with
  | [] => Blocks
  | dbID :: rest =>
    match ServiceMapGet s dbID with
    | inl ErrNoSuchDatabase => Returns (dbID, None)
    | _ => firstFreeID s rest
    end
  end.

Definition generateDatabaseID (env : Env) (s : DBService) (reqNodeID : string)
  : outcome (string * option Error) :=
  firstFreeID s (minedIDs env reqNodeID).

(** [func (s *DBService) generateGenesisBlock(dbID, resourceMeta)
    (genesisBlock, err)] *)
Definition generateGenesisBlock (env : Env) (dbID : string)
  (resourceMeta : wt.ResourceMeta) : option wt.Block * option Error :=
  match GetLocalPublicKey env with
  | inl e => (None, Some e)
  | inr pubKey =>
    match GetLocalPrivateKey env with
    | inl e => (None, Some e)
    | inr privKey =>
      match GetLocalNodeID env with
      | inl e => (None, Some e)
      | inr nodeID =>
        let block := wt.mkBlock 0x01000000 nodeID "" "" (now env) pubKey None in
        match PackAndSignBlock env privKey block with
        | inl e => (Some block, Some e)
        | inr sig =>
          (Some (wt.mkBlock 0x01000000 nodeID "" "" (now env) pubKey (Some sig)),
           None)
        end
      end
    end
  end.

Record CreateDatabaseRequest : Type := mkCreateDatabaseRequest {
  GetNodeID : string;
  ResourceMeta : wt.ResourceMeta
}.

(** What a service call leaves behind: the service, the worker RPCs it made,
    the [InstanceMeta] of the response when it was set, and the error. *)
Record Reply : Type := mkReply {
  service : DBService;
  calls : list Call;
  InstanceMeta : option wt.ServiceInstance;
  err : option Error
}.

Definition zeroResourceMeta : wt.ResourceMeta := wt.mkResourceMeta 0 0.

(** [func (s *DBService) CreateDatabase(req, resp) (err error)] *)
Definition CreateDatabase (env : Env) (s : DBService)
  (req : CreateDatabaseRequest) : outcome Reply :=
  match generateDatabaseID env s (GetNodeID req) with
  | Returns (_, Some e) => Returns (mkReply s [] None (Some e))
  | Returns (dbID, None) =>
    match allocateNodes env s 0 dbID (ResourceMeta req) with
    | Returns (_, Some e) => Returns (mkReply s [] None (Some e))
    | Returns (peers, None) =>
      match generateGenesisBlock env dbID (ResourceMeta req) with
      | (_, Some e) => Returns (mkReply s [] None (Some e))
      | (genesisBlock, None) =>
        let initSvcReq :=
          wt.mkUpdateService wt.CreateDB
            (wt.mkServiceInstance dbID peers zeroResourceMeta genesisBlock) in
        let rollbackReq :=
          wt.mkUpdateService wt.DropDB
            (wt.mkServiceInstance dbID None zeroResourceMeta None) in
        match peersToNodes peers with
        | Returns nodes =>
          match batchSendSvcReq env (Some initSvcReq) (Some rollbackReq) nodes with
          | (Some e, sent) => Returns (mkReply s sent None (Some e))
          | (None, sent) =>
            let instanceMeta :=
              wt.mkServiceInstance dbID peers (ResourceMeta req) None in
            match ServiceMapSet env s instanceMeta with
            | inl e => Returns (mkReply s sent None (Some e))
            | inr s' => Returns (mkReply s' sent (Some instanceMeta) None)
            end
          end
        | Panics => Panics
        | Blocks => Blocks
        end
      end
    | Panics => Panics
    | Blocks => Blocks
    end
  | Panics => Panics
  | Blocks => Blocks
  end.

(** [func (s *DBService) DropDatabase(req, resp) (err error)] *)
Definition DropDatabase (env : Env) (s : DBService) (databaseID : string)
  : outcome Reply :=
  match ServiceMapGet s databaseID with
  | inl e => Returns (mkReply s [] None (Some e))
  | inr instanceMeta =>
    let dropDBSvcReq :=
      wt.mkUpdateService wt.DropDB
        (wt.mkServiceInstance databaseID None zeroResourceMeta None) in
    match peersToNodes (wt.Peers instanceMeta) with
    | Returns nodes =>
      match batchSendSvcReq env (Some dropDBSvcReq) None nodes with
      | (Some e, sent) => Returns (mkReply s sent None (Some e))
      | (None, sent) =>
        Returns (mkReply (ServiceMapDelete s databaseID) sent None None)
      end
    | Panics => Panics
    | Blocks => Blocks
    end
  end.

(** [func (s *DBService) GetDatabase(req, resp) (err error)] *)
Definition GetDatabase (s : DBService) (databaseID : string) : Reply :=
  match ServiceMapGet s databaseID with
  | inl e => mkReply s [] None (Some e)
  | inr instanceMeta => mkReply s [] (Some instanceMeta) None
  end.

(** The servers of a peer set that are present, and those among them that hold
    the leader role. *)
Definition servers (p : kayak.Peers) : list kayak.Server :=
  omap id (kayak.Servers p).

Definition isLeader (srv : kayak.Server) : bool :=
  match kayak.Role srv with conf.Leader => true | conf.Follower => false end.

Definition leaders (p : kayak.Peers) : list kayak.Server :=
  filter (λ srv, isLeader srv = true) (servers p).


(** The servers that the loop of [buildPeers] writes for [nodes], from
    position [idx] on. *)
Fixpoint serversFrom (leaderIdx idx : nat) (nodes : list proto.Node)
  : list kayak.Server :=
  match nodes with
  | [] => []
  | node :: rest => serverOf leaderIdx idx node :: serversFrom leaderIdx (S idx) rest
  end.

(** A node passed the memory check over the collector's answer [metrics] when
    that answer carries a free-memory metric for it that exceeds the floor. *)
Definition passedMemoryCheck (metrics : list (string * MetricMap)) (memory : Z)
  (nodeID : string) : Prop :=
  ∃ nodeMetric metricValue,
    (nodeID, nodeMetric) ∈ metrics
    ∧ getMetric nodeMetric MetricFreeMemoryBytes = Returns (metricValue, None)
    ∧ memory < metricValue.

(** The candidates of round [i] and the collector's answer for them. *)
Definition roundCandidates (env : Env) (i : nat) (dbID : string) (curRange : Z)
  (excludeNodes : gset string) : list string :=
  suitable excludeNodes (GetNeighbors env i dbID curRange).

Definition roundMetrics (env : Env) (i : nat) (dbID : string) (curRange : Z)
  (excludeNodes : gset string) : list (string * MetricMap) :=
  GetMetrics env i (roundCandidates env i dbID curRange excludeNodes).

(** The contract of the metric collector: the answer of [GetMetrics] is a map
    (no node id occurs twice among its entries) over the requested nodes. *)
Definition MetricsContract (env : Env) : Prop :=
  ∀ i nodeIDs,
    NoDup (GetMetrics env i nodeIDs).*1
    ∧ ∀ nodeID, nodeID ∈ (GetMetrics env i nodeIDs).*1 → nodeID ∈ nodeIDs.

(** The scheduler's contract: every reply of a batch arrives exactly once. *)
Definition ArrivalContract (env : Env) : Prop :=
  ∀ nodes, arrival env nodes ≡ₚ nodes.

(** A small deployment for the scenarios: a ring of five workers answering
    neighbour queries by prefix, a collector reporting [free] bytes of free
    memory as a gauge, replies arriving in the order of the calls. *)
Definition GB : Z := 1073741824.

Definition ring : list proto.Node :=
  [proto.mkNode "n1" "pk1"; proto.mkNode "n2" "pk2"; proto.mkNode "n3" "pk3";
   proto.mkNode "n4" "pk4"; proto.mkNode "n5" "pk5"].

Definition memoryMetric (free : Z) : MetricMap :=
  {[ MetricFreeMemoryBytes := Some (mkMetricFamily GAUGE [mkMetric (Some free) None]) ]}.

Definition scenarioEnv (free : string -> Z)
  (rpc : string -> option wt.UpdateService -> option Error) : Env :=
  mkEnv
    (λ _ _ count, take (Z.to_nat count) ring)
    (λ _ nodeIDs,
       (λ nodeID, (nodeID, memoryMetric (free nodeID))) <$> remove_dups nodeIDs)
    (inr "bp-public") (inr "bp-private") (inr "bp")
    1%nat
    (λ _ _, inr "peers-signature")
    (λ _ _, inr "block-signature")
    0
    (λ _, ["db1"; "db2"])
    rpc
    (λ nodes, nodes)
    (λ _, None).

(** A worker [n2] that rejects CreateDB while every other call succeeds. *)
Definition n2Rejects (node : string) (req : option wt.UpdateService)
  : option Error :=
  match req with
  | Some r =>
    match wt.Op r with
    | wt.CreateDB => if decide (node = "n2") then Some (ErrExternal 7) else None
    | _ => None
    end
  | None => None
  end.

(** Free memory: [n1] reports exactly 1 GB, the others 2 GB. *)
Definition n1AtFloor (node : string) : Z :=
  if decide (node = "n1") then GB else 2 * GB.

Definition noReject (node : string) (req : option wt.UpdateService)
  : option Error := None.

Definition emptyService : DBService := mkDBService DefaultAllocationRounds ∅.

Definition createReq : wt.UpdateService :=
  wt.mkUpdateService wt.CreateDB (wt.mkServiceInstance "db1" None zeroResourceMeta None).

Definition dropReq : wt.UpdateService :=
  wt.mkUpdateService wt.DropDB (wt.mkServiceInstance "db1" None zeroResourceMeta None).

(** A service that hosts [db1] on the workers [n1] (the leader) and [n2]. *)
Definition db1Instance : wt.ServiceInstance :=
  wt.mkServiceInstance "db1"
    (Some (kayak.mkPeers 1 "bp-public"
             [Some (kayak.mkServer conf.Leader "n1" "pk1");
              Some (kayak.mkServer conf.Follower "n2" "pk2")]
             (Some 0%nat) (Some "peers-signature")))
    (wt.mkResourceMeta 2 GB) None.

Definition serviceWithDb1 : DBService :=
  mkDBService DefaultAllocationRounds {["db1" := db1Instance]}.

(** A worker [n1] that rejects DropDB while every other call succeeds. *)
Definition n1RejectsDrop (node : string) (req : option wt.UpdateService)
  : option Error :=
  match req with
  | Some r =>
    match wt.Op r with
    | wt.DropDB => if decide (node = "n1") then Some (ErrExternal 9) else None
    | _ => None
    end
  | None => None
  end.

(** Whether the free-memory metric of an entry of the collector's answer is
    there, is a gauge or a counter, and exceeds the floor. *)
Definition passesMemory (memory : Z) (entry : string * MetricMap) : bool :=
  match getMetric entry.2 MetricFreeMemoryBytes with
  | Returns (metricValue, None) => memory <? metricValue
  | _ => false
  end.

End BlockProducer.

(** ** The worker's database management instance *)

Module Worker.

Inductive Error : Type :=
| ErrAlreadyExists
| ErrNotExists
| ErrExternal (code : nat).   (* an error of the file system, the codec, kayak or the RPC layer *)

Definition DBMetaFileName : string := "db.meta".

(** A [*Database] as [NewDatabase] built it. *)
Record Database : Type := mkDatabase {
  dbID : string;
  dbPeers : option kayak.Peers;
  dbGenesis : option wt.Block
}.

(** What [<RootDir>/db.meta] holds.  [DBMSMeta.DBS] is a
    [map[proto.DatabaseID]bool] of which only the keys are read; a decoded meta
    may carry the nil map. *)
Inductive MetaFile : Type :=
| FileAbsent
| FileUnreadable (e : Error)
| FileUndecodable (e : Error)
| FileMeta (DBS : option (gset string)).

(** The entry points reached on the DBMS and the calls made to its
    collaborators, in order, with their outcome. *)
Inductive Event : Type :=
| CallCreate (id : string)
| CallDrop (id : string)
| EvRemoveAll (id : string) (res : option Error)
| EvNewDatabase (id : string) (res : option Error)
| EvShutdown (id : string)
| EvDestroy (id : string) (res : option Error)
| EvWriteFile (DBS : gset string) (res : option Error).

(** The collaborators.  An answer may depend on the calls made before.
    [WriteFile] answers [None] on success and otherwise the error with what
    the failed write left on disk.  [rangeOrder] is the order in which a
    [range] statement visits the keys of a Go map. *)
Record Env : Type := mkEnv {
  RemoveAll : list Event -> string -> option Error;
  NewDatabase : list Event -> wt.ServiceInstance
                -> (Error * option Database) + Database;
  Destroy : list Event -> Database -> option Error;
  EncodeMsgPack : gset string -> option Error;
  WriteFile : list Event -> gset string -> option (Error * MetaFile);
  rangeOrder : gset string -> list string;
  GetLocalNonce : Error + Z;          (* the word [D] of the nonce *)
  GetBPs : list string;
  GetNodeDatabases : string -> Error + list wt.ServiceInstance
}.

(** [type DBMS struct { cfg; dbMap sync.Map; kayakMux; chainMux; rpc }] with
    the meta file of its root directory and the record of what happened. *)
Record DBMS : Type := mkDBMS {
  dbMap : gmap string Database;
  metaFile : MetaFile;
  log : list Event
}.

(** [NewDBMS]: an empty registry over a root directory. *)
Definition NewDBMS (file : MetaFile) : DBMS := mkDBMS ∅ file [].

Definition record (st : DBMS) (ev : Event) : DBMS :=
  mkDBMS (dbMap st) (metaFile st) (log st ++ [ev]).

(** The ids the registry holds. *)
Definition registry (st : DBMS) : gset string := dom (dbMap st).

(** [func (dbms *DBMS) readMeta() (meta *DBMSMeta, err error)] *)
Definition readMeta (st : DBMS) : gset string * option Error :=
  match metaFile st with
  | FileAbsent => (∅, None)
  | FileUnreadable e => (∅, Some e)
  | FileUndecodable e => (∅, Some e)
  | FileMeta None => (∅, None)
  | FileMeta (Some DBS) => (DBS, None)
  end.

(** [func (dbms *DBMS) writeMeta() (err error)] *)
Definition writeMeta (env : Env) (st : DBMS) : DBMS * option Error :=
  let meta := dom (dbMap st) in
  match EncodeMsgPack env meta with
  | Some e => (st, Some e)
  | None =>
    match WriteFile env (log st) meta with
    | Some (e, onDisk) =>
      (mkDBMS (dbMap st) onDisk (log st ++ [EvWriteFile meta (Some e)]), Some e)
    | None =>
      (mkDBMS (dbMap st) (FileMeta (Some meta))
         (log st ++ [EvWriteFile meta None]), None)
    end
  end.

(** [func (dbms *DBMS) getMeta(dbID) (db *Database, exists bool)] *)
Definition getMeta (st : DBMS) (id : string) : option Database :=
  dbMap st !! id.

(** [func (dbms *DBMS) addMeta(dbID, db) (err error)] *)
Definition addMeta (env : Env) (st : DBMS) (id : string) (db : Database)
  : DBMS * option Error :=
  match dbMap st !! id with
  | Some _ => (st, Some ErrAlreadyExists)
  | None => writeMeta env (mkDBMS (<[id := db]> (dbMap st)) (metaFile st) (log st))
  end.

(** [func (dbms *DBMS) removeMeta(dbID) (err error)] *)
Definition removeMeta (env : Env) (st : DBMS) (id : string)
  : DBMS * option Error :=
  writeMeta env (mkDBMS (delete id (dbMap st)) (metaFile st) (log st)).

(** The deferred function of [Create]: on an error, shut the database down if
    one was built and remove the meta entry. *)
Definition closeOnFailed (env : Env) (st : DBMS) (id : string)
  (db : option Database) (e : Error) : DBMS * option Error :=
  let st1 := match db with Some _ => record st (EvShutdown id) | None => st end in
  ((removeMeta env st1 id).1, Some e).

(** [func (dbms *DBMS) Create(instance, cleanup) (err error)] *)
Definition Create (env : Env) (st0 : DBMS) (instance : wt.ServiceInstance)
  (cleanup : bool) : DBMS * option Error :=
  let id := wt.DatabaseID instance in
  let st := record st0 (CallCreate id) in
  match getMeta st id with
  | Some _ => (st, Some ErrAlreadyExists)
  | None =>
    let cleaned :=
      if cleanup
      then let r := RemoveAll env (log st) id in (record st (EvRemoveAll id r), r)
      else (st, None) in
    match cleaned with
    | (st1, Some e) => (st1, Some e)
    | (st1, None) =>
      match NewDatabase env (log st1) instance with
      | inl (e, db) =>
        closeOnFailed env (record st1 (EvNewDatabase id (Some e))) id db e
      | inr db =>
        match addMeta env (record st1 (EvNewDatabase id None)) id db with
        | (st2, Some e) => closeOnFailed env st2 id (Some db) e
        | (st2, None) => (st2, None)
        end
      end
    end
  end.

(** [func (dbms *DBMS) Drop(dbID) (err error)] *)
Definition Drop (env : Env) (st0 : DBMS) (id : string) : DBMS * option Error :=
  let st := record st0 (CallDrop id) in
  match getMeta st id with
  | None => (st, Some ErrNotExists)
  | Some db =>
    let r := Destroy env (log st) db in
    let st1 := record st (EvDestroy id r) in
    match r with
    | Some e => (st1, Some e)
    | None => removeMeta env st1 id
    end
  end.

(** The loop [for _, instanceConf := range conf { ... dbms.Create(...) }]. *)
Fixpoint createAll (env : Env) (st : DBMS) (conf : list wt.ServiceInstance)
  : DBMS * option Error :=
  match conf with
  | [] => (st, None)
  | instanceConf :: rest =>
    match Create env st instanceConf false with
    | (st', Some e) => (st', Some e)
    | (st', None) => createAll env st' rest
    end
  end.

(** The loop [for dbID := range toDropInstance { ... dbms.Drop(dbID) }]. *)
Fixpoint dropAll (env : Env) (st : DBMS) (ids : list string)
  : DBMS * option Error :=
  match ids with
  | [] => (st, None)
  | id :: rest =>
    match Drop env st id with
    | (st', Some e) => (st', Some e)
    | (st', None) => dropAll env st' rest
    end
  end.

Definition currentInstance (conf : list wt.ServiceInstance) : gset string :=
  list_to_set (wt.DatabaseID <$> conf).

Definition toDropInstance (meta : gset string) (conf : list wt.ServiceInstance)
  : gset string :=
  filter (λ id, id ∉ currentInstance conf) meta.

(** [func (dbms *DBMS) initDatabases(meta, conf) (err error)] *)
Definition initDatabases (env : Env) (st : DBMS) (meta : gset string)
  (conf : list wt.ServiceInstance) : DBMS * option Error :=
  match createAll env st conf with
  | (st1, Some e) => (st1, Some e)
  | (st1, None) => dropAll env st1 (rangeOrder env (toDropInstance meta conf))
  end.

(** [func (dbms *DBMS) getMappedInstances() (instances, err)];
    [nonce.D % uint64(len(bps))] panics when no block producer is known. *)
Definition getMappedInstances (env : Env)
  : outcome (list wt.ServiceInstance * option Error) :=
  match GetLocalNonce env with
  | inl e => Returns ([], Some e)
  | inr D =>
    let bps := GetBPs env in
    match bps !! Z.to_nat (D mod Z.of_nat (length bps)) with
    | None => Panics
    | Some bpID =>
      match GetNodeDatabases env bpID with
      | inl e => Returns ([], Some e)
      | inr instances => Returns (instances, None)
      end
    end
  end.

(** [func (dbms *DBMS) Init() (err error)] *)
Definition Init (env : Env) (st : DBMS) : outcome (DBMS * option Error) :=
  match readMeta st with
  | (_, Some e) => Returns (st, Some e)
  | (localMeta, None) =>
    match getMappedInstances env with
    | Returns (_, Some e) => Returns (st, Some e)
    | Returns (dbMapping, None) => Returns (initDatabases env st localMeta dbMapping)
    | Panics => Panics
    | Blocks => Blocks
    end
  end.

(** The entry points among the events of a log. *)
Definition isCall (ev : Event) : bool :=
  match ev with CallCreate _ | CallDrop _ => true | _ => false end.

Definition entryCalls (l : list Event) : list Event :=
  filter (λ ev, isCall ev = true) l.

(** A worker for the scenarios: every collaborator succeeds, a map is visited
    in the order of [elements], and the only block producer reports the
    instances [conf]. *)
Definition instanceOf (id : string) : wt.ServiceInstance :=
  wt.mkServiceInstance id None (wt.mkResourceMeta 0 0) None.

Definition scenarioEnv (conf : list string) : Env :=
  mkEnv
    (λ _ _, None)
    (λ _ instance, inr (mkDatabase (wt.DatabaseID instance) (wt.Peers instance)
                          (wt.GenesisBlock instance)))
    (λ _ _, None)
    (λ _, None)
    (λ _ _, None)
    elements
    (inr 0)
    ["bp1"]
    (λ _, inr (instanceOf <$> conf)).

(** A worker that already hosts the databases [ids] (and nothing else). *)
Definition hosting (ids : list string) : DBMS :=
  (createAll (scenarioEnv []) (NewDBMS FileAbsent) (instanceOf <$> ids)).1.

(** *** [Shutdown] and the requests forwarded to a database *)

(** [func (dbms *DBMS) Shutdown() (err error)]: [dbMap.Range] visits the
    registered databases in the order of [rangeOrder]; each is shut down, and
    the meta file is written. *)
Definition shutdownAll (st : DBMS) (ids : list string) : DBMS :=
  foldl (λ st' id, record st' (EvShutdown id)) st ids.

Definition Shutdown (env : Env) (st : DBMS) : DBMS * option Error :=
  writeMeta env (shutdownAll st (rangeOrder env (dom (dbMap st)))).

(** The methods of [*Database] that the DBMS forwards requests to, with the
    requests of [wt] they take: [db.UpdatePeers], [db.Query] and [db.Ack].
    [queryDatabaseID] is [req.Header.DatabaseID], [ackDatabaseID] is
    [ack.Header.Response.Request.DatabaseID]. *)
Record Handlers : Type := mkHandlers {
  Request : Type;
  Response : Type;
  Ack_ : Type;
  queryDatabaseID : Request -> string;
  ackDatabaseID : Ack_ -> string;
  dbUpdatePeers : Database -> option kayak.Peers -> option Error;
  dbQuery : Database -> Request -> option Response * option Error;
  dbAck : Database -> Ack_ -> option Error
}.

(** [func (dbms *DBMS) Update(instance) (err error)] *)
Definition Update (H : Handlers) (st : DBMS) (instance : wt.ServiceInstance)
  : option Error :=
  match getMeta st (wt.DatabaseID instance) with
  | None => Some ErrNotExists
  | Some db => dbUpdatePeers H db (wt.Peers instance)
  end.

(** [func (dbms *DBMS) Query(req) (res, err)] *)
Definition Query (H : Handlers) (st : DBMS) (req : Request H)
  : option (Response H) * option Error :=
  match getMeta st (queryDatabaseID H req) with
  | None => (None, Some ErrNotExists)
  | Some db => dbQuery H db req
  end.

(** [func (dbms *DBMS) Ack(ack) (err error)] *)
Definition Ack (H : Handlers) (st : DBMS) (ack : Ack_ H) : option Error :=
  match getMeta st (ackDatabaseID H ack) with
  | None => Some ErrNotExists
  | Some db => dbAck H db ack
  end.

(** Whether an event is a call of [db.Destroy]. *)
Definition isDestroy (ev : Event) : bool :=
  match ev with EvDestroy _ _ => true | _ => false end.

(** Handlers for the scenarios: a request is the id of its database, and a
    database answers a query with its own id. *)
Definition echoHandlers : Handlers :=
  mkHandlers string string string (λ req, req) (λ ack, ack)
    (λ _ _, None) (λ db _, (Some (dbID db), None)) (λ _ _, None).

(** A worker whose disk is full: every write of the meta file fails and
    leaves the file as it was absent. *)
Definition diskFullEnv : Env :=
  mkEnv
    (λ _ _, None)
    (λ _ instance, inr (mkDatabase (wt.DatabaseID instance) (wt.Peers instance)
                          (wt.GenesisBlock instance)))
    (λ _ _, None)
    (λ _, None)
    (λ _ _, Some (ErrExternal 28, FileAbsent))
    elements
    (inr 0)
    ["bp1"]
    (λ _, inr []).

End Worker.

(** ** The private key store *)

Module KMS.

Abbreviation bytes := (list Byte.byte) (only parsing).

#[export] Instance byte_eq_decision : EqDecision Byte.byte := Byte.byte_eq_dec.

Inductive Error : Type :=
| ErrNotKeyFile             (* "private key file empty" *)
| ErrHashNotMatch           (* "private key hash not match" *)
| ErrInvalidBase58Version   (* "invalid base58 version" *)
| ErrChecksum               (* base58.ErrChecksum *)
| ErrPath                   (* the *os.PathError of a file that cannot be read *)
| ErrSymmetric (code : nat) (* an error of the symmetric package *)
| ErrIO (code : nat).       (* an error of ioutil.WriteFile *)

(** [PrivateKeyStoreVersion byte = 0x23] *)
Definition PrivateKeyStoreVersion : Byte.byte := Byte.x23.

(** What [base58.CheckDecode] answers: the payload with its version byte,
    [ErrChecksum], or [ErrInvalidFormat]. *)
Inductive Decoded : Type :=
| DecodeOk (payload : bytes) (version : Byte.byte)
| DecodeErrChecksum
| DecodeErrInvalidFormat.

(** The primitives and constants that the key store takes from the packages
    [asymmetric], [hash], [symmetric] and [base58], none of which is part of
    these sources. *)
Record Primitives : Type := mkPrimitives {
  PrivateKey : Type;
  Serialize : PrivateKey -> bytes;
  PrivKeyFromBytes : bytes -> PrivateKey;
  PrivateKeyBytesLen : nat;
  HashBSize : nat;
  DoubleHashB : bytes -> bytes;
  EncryptWithPassword : bytes -> bytes -> Error + bytes;
  DecryptWithPassword : bytes -> bytes -> Error + bytes;
  CheckEncode : bytes -> Byte.byte -> bytes;
  CheckDecode : bytes -> Decoded;
  WriteFile : string -> bytes -> option (Error * option bytes)
    (* [None]: written; otherwise the error and what is left at the path *)
}.

(** What the key store relies on: decoding inverts encoding, decrypting under
    the same password inverts encrypting, hashes and serialised keys have
    their fixed sizes, and a key is rebuilt from its serialised bytes. *)
Record Contract (P : Primitives) : Prop := mkContract {
  decode_encode : ∀ d v, CheckDecode P (CheckEncode P d v) = DecodeOk d v;
  decrypt_encrypt : ∀ d m c,
    EncryptWithPassword P d m = inr c → DecryptWithPassword P c m = inr d;
  hash_size : ∀ d, length (DoubleHashB P d) = HashBSize P;
  key_size : ∀ k, length (Serialize P k) = PrivateKeyBytesLen P;
  key_bytes : ∀ b, length b = PrivateKeyBytesLen P →
    Serialize P (PrivKeyFromBytes P b) = b
}.

(** The files that can be read, by path.  A path without an entry stands for
    a file that [ioutil.ReadFile] fails on, with a [*os.PathError] either
    way: the file is missing, or it is there and cannot be read. *)
Abbreviation Files := (gmap string bytes) (only parsing).

(** What [LoadPrivateKey] does with the content of the key file. *)
Definition loadContent (P : Primitives) (fileContent masterKey : bytes)
  : Error + PrivateKey P :=
  match CheckDecode P fileContent with
  | DecodeErrChecksum => inl ErrChecksum
  | decoded =>
    let '(encData, version) :=
      match decoded with
      | DecodeOk payload version => (payload, version)
      | _ => (fileContent, Byte.x00)   (* the original binary format *)
      end in
    if bool_decide (version ≠ Byte.x00)
       && bool_decide (version ≠ PrivateKeyStoreVersion)
    then inl ErrInvalidBase58Version
    else
      match DecryptWithPassword P encData masterKey with
      | inl e => inl e
      | inr decData =>
        if bool_decide (length decData ≠ (HashBSize P + PrivateKeyBytesLen P)%nat)
        then inl ErrNotKeyFile
        else
          let computedHash := DoubleHashB P (drop (HashBSize P) decData) in
          if bool_decide (computedHash = take (HashBSize P) decData)
          then inr (PrivKeyFromBytes P (drop (HashBSize P) decData))
          else inl ErrHashNotMatch
      end
  end.

(** [func LoadPrivateKey(keyFilePath, masterKey) (key, err)] *)
Definition LoadPrivateKey (P : Primitives) (fs : Files) (keyFilePath : string)
  (masterKey : bytes) : Error + PrivateKey P :=
  match fs !! keyFilePath with
  | None => inl ErrPath
  | Some fileContent => loadContent P fileContent masterKey
  end.

(** What [SavePrivateKey] writes for a key, when the encryption succeeds. *)
Definition savedContent (P : Primitives) (key : PrivateKey P) (masterKey : bytes)
  : Error + bytes :=
  let serializedKey := Serialize P key in
  let keyHash := DoubleHashB P serializedKey in
  let rawData := keyHash ++ serializedKey in
  match EncryptWithPassword P rawData masterKey with
  | inl e => inl e
  | inr encKey => inr (CheckEncode P encKey PrivateKeyStoreVersion)
  end.

(** [func SavePrivateKey(keyFilePath, key, masterKey) (err error)] *)
Definition SavePrivateKey (P : Primitives) (fs : Files) (keyFilePath : string)
  (key : PrivateKey P) (masterKey : bytes) : Files * option Error :=
  match savedContent P key masterKey with
  | inl e => (fs, Some e)
  | inr base58EncKey =>
    match WriteFile P keyFilePath base58EncKey with
    | Some (e, Some onDisk) => (<[keyFilePath := onDisk]> fs, Some e)
    | Some (e, None) => (delete keyFilePath fs, Some e)
    | None => (<[keyFilePath := base58EncKey]> fs, None)
    end
  end.

(** Whether a load ended with a key. *)
Definition loaded {P : Primitives} (r : Error + PrivateKey P) : bool :=
  match r with inr _ => true | inl _ => false end.

(** The bytes of the key a load ended with. *)
Definition loadedBytes {P : Primitives} (r : Error + PrivateKey P)
  : option bytes :=
  match r with inr k => Some (Serialize P k) | inl _ => None end.

(** Stand-ins for the primitives, for the scenarios: a key is its 32 bytes;
    the hash is the reversed input cut or padded to 32 bytes; encryption puts
    the password in front of the data, and decryption fails unless it finds
    the password there; the base58-check wrapping puts a mark and the version
    byte in front of the payload. *)
Definition pad32 (b : bytes) : bytes := take 32 (b ++ replicate 32 Byte.x00).

Definition toyDecrypt (c m : bytes) : Error + bytes :=
  if bool_decide (take (length m) c = m) then inr (drop (length m) c)
  else inl (ErrSymmetric 1).

Definition toyCheckDecode (c : bytes) : Decoded :=
  match c with
  | mark :: version :: payload =>
    if bool_decide (mark = Byte.x21) then DecodeOk payload version
    else DecodeErrInvalidFormat
  | _ => DecodeErrInvalidFormat
  end.

Definition toy : Primitives :=
  mkPrimitives bytes pad32 (λ b, b) 32 32
    (λ d, pad32 (reverse d))
    (λ d m, inr (m ++ d))
    toyDecrypt
    (λ d version, Byte.x21 :: version :: d)
    toyCheckDecode
    (λ _ _, None).

Definition key1 : bytes := replicate 32 Byte.x11.
Definition key2 : bytes := replicate 32 Byte.x22.
Definition master : bytes := [Byte.x6d; Byte.x6b].
Definition wrongMaster : bytes := [Byte.x6d; Byte.x6c].

(** The key file after [SavePrivateKey] of [key] under [master]. *)
Definition savedAs (key : bytes) : Files :=
  (SavePrivateKey toy ∅ "private.key" key master).1.

(** *** [InitLocalKeyPair] *)

(** Key generation, from the package [asymmetric], outside these sources:
    [GenSecp256k1KeyPair] and [PrivateKey.PubKey]. *)
Record KeyGen (P : Primitives) : Type := mkKeyGen {
  PublicKey : Type;
  PubKey : PrivateKey P -> PublicKey;
  GenSecp256k1KeyPair : Error + (PrivateKey P * PublicKey)
}.
Arguments PublicKey {P} _.
Arguments PubKey {P} _ _.
Arguments GenSecp256k1KeyPair {P} _.

(** What [InitLocalKeyPair] leaves: the files, its error, and the pair it
    handed to [SetLocalKeyPair], if it got that far. *)
Record InitResult (P : Primitives) (G : KeyGen P) : Type := mkInitResult {
  initFiles : Files;
  initErr : option Error;
  localKeyPair : option (PrivateKey P * PublicKey G)
}.
Arguments initFiles {P G} _.
Arguments initErr {P G} _.
Arguments localKeyPair {P G} _.

(** [func InitLocalKeyPair(privateKeyPath, masterKey) (err error)];
    [generateKeyPair] is [conf.GConf.GenerateKeyPair].  The error of a key
    file that cannot be read is the only one that is a [*os.PathError]. *)
Definition InitLocalKeyPair (P : Primitives) (G : KeyGen P)
  (generateKeyPair : bool) (fs : Files) (privateKeyPath : string)
  (masterKey : bytes) : InitResult P G :=
  match LoadPrivateKey P fs privateKeyPath masterKey with
  | inr privateKey =>
    mkInitResult P G fs None (Some (privateKey, PubKey G privateKey))
  | inl ErrNotKeyFile => mkInitResult P G fs (Some ErrNotKeyFile) None
  | inl err =>
    if match err with ErrPath => generateKeyPair | _ => false end
    then
      match GenSecp256k1KeyPair G with
      | inl e => mkInitResult P G fs (Some e) None
      | inr (privateKey, publicKey) =>
        match SavePrivateKey P fs privateKeyPath privateKey masterKey with
        | (fs', Some e) => mkInitResult P G fs' (Some e) None
        | (fs', None) => mkInitResult P G fs' None (Some (privateKey, publicKey))
        end
      end
    else mkInitResult P G fs (Some err) None
  end.

(** A generator for the scenarios: it always yields [key2], and the public
    key of a key is its reversal. *)
Definition toyGen : KeyGen toy :=
  mkKeyGen toy bytes (λ k : bytes, reverse k) (inr (key2, reverse key2)).

End KMS.

(** * Properties *)

(** ** Storage participant *)

Module StorageFacts.
Import Storage.

Lemma equalTxID_eq (x y : TxID) : equalTxID x y = true <-> x = y.
Proof.
  unfold equalTxID. destruct x as [c1 s1 t1], y as [c2 s2 t2]; simpl.
  rewrite !andb_true_iff, !Z.eqb_eq. split.
  - intros [[-> ->] ->]. reflexivity.
  - intros H. injection H as -> -> ->. auto.
Qed.

Lemma equalTxID_refl (x : TxID) : equalTxID x x = true.
Proof. apply equalTxID_eq. reflexivity. Qed.

Lemma equalTxID_neq (x y : TxID) : equalTxID x y = false <-> x <> y.
Proof.
  rewrite <- equalTxID_eq. destruct (equalTxID x y); split; congruence.
Qed.

(** The statement loop over a concatenation runs the first part, and goes on
    with the second only if the first met no error. *)
Lemma execAll_app (E : Engine) (h : nat) (qs1 qs2 : list string) :
  forall hist,
    execAll E h hist (qs1 ++ qs2) =
    match execAll E h hist qs1 with
    | (hist1, None) => execAll E h hist1 qs2
    | r => r
    end.
Proof.
  induction qs1 as [|q qs1 IH]; intros hist; simpl.
  - reflexivity.
  - destruct (eExec E hist h q); [reflexivity | apply IH].
Qed.

(** C3: while a transaction is active, a Prepare carrying the same TxID
    succeeds and replaces the buffered queries by the incoming ones; a Prepare
    carrying another TxID fails with the inconsistent-state error and leaves
    the handle, the TxID and the buffered queries as they were. *)
Theorem Prepare_while_active (E : Engine) (s : Storage) (h : nat) (el : ExecLog) :
  tx s = Some h ->
  (txidOf el = id s ->
     Prepare E s (ExecLogBatch el)
     = (mkStorage (db s) (Some h) (id s) (Queries el), None))
  /\ (txidOf el <> id s ->
     Prepare E s (ExecLogBatch el) = (s, Some (ErrInconsistentState (id s)))).
Proof.
  intros Htx. unfold Prepare. rewrite Htx. split; intros Hid.
  - rewrite Hid, equalTxID_refl. reflexivity.
  - assert (equalTxID (id s) (txidOf el) = false) as ->; [|reflexivity].
    apply equalTxID_neq. congruence.
Qed.

Lemma Prepare_while_active_witness :
  tx (prepared ["Q1"]) = Some 0%nat
  /\ Prepare (scenarioEngine None) (prepared ["Q1"]) (batch T1 ["Q2"])
     = (prepared ["Q2"], None)
  /\ Prepare (scenarioEngine None) (prepared ["Q1"]) (batch (mkTxID 2 1 1) ["Q2"])
     = (prepared ["Q1"], Some (ErrInconsistentState T1)).
Proof.
  split; [reflexivity|]. split.
  - apply (proj1 (Prepare_while_active (scenarioEngine None) (prepared ["Q1"])
             0%nat (mkExecLog 1 1 1 ["Q2"]) eq_refl)).
    reflexivity.
  - apply (proj2 (Prepare_while_active (scenarioEngine None) (prepared ["Q1"])
             0%nat (mkExecLog 2 1 1 ["Q2"]) eq_refl)).
    discriminate.
Defined.

(** Once no handle is held, Prepare goes to the engine: its result is that of
    [BeginTx], and on success the incoming TxID and queries are recorded. *)
Lemma Prepare_idle (E : Engine) (s : Storage) (el : ExecLog) :
  tx s = None ->
  (Prepare E s (ExecLogBatch el)).2 = eBegin E (db s) None
  /\ (eBegin E (db s) None = None ->
      Prepare E s (ExecLogBatch el)
      = (mkStorage (db s ++ [EvBeginTx None None]) (Some (length (db s)))
           (txidOf el) (Queries el), None)).
Proof.
  intros Htx. unfold Prepare. rewrite Htx.
  destruct (eBegin E (db s) None) eqn:Hb; simpl; split; try reflexivity.
  discriminate.
Qed.

(** C4 (amended): a Commit of the active transaction [t] that meets a failing
    statement runs the statements before it in order, rolls the transaction
    back, clears the transaction handle and the query buffer, returns the
    error of the statement and leaves the participant idle.  It does not
    clear the TxID: the field [id] still holds [t].  A following Prepare with
    any TxID is not compared with it and opens a new transaction (it succeeds
    whenever the engine begins one, and then holds the new TxID); a following
    Rollback is accepted exactly when it carries [t], and one that carries
    another TxID is refused as inconsistent with [t], with nothing in
    progress. *)
Theorem Commit_failing_statement (E : Engine) (s : Storage) (h : nat)
    (el : ExecLog) (pre post : list string) (qi : string) (hist : list Event)
    (e : Error) :
  tx s = Some h ->
  txidOf el = id s ->
  queries s = pre ++ qi :: post ->
  execAll E h (db s) pre = (hist, None) ->
  eExec E hist h qi = inl e ->
  (Commit E s (ExecLogBatch el)).2 = Some e
  /\ db (Commit E s (ExecLogBatch el)).1
     = hist ++ [EvExec h qi (Some e)]
       ++ [EvRollback h (eRollback E (hist ++ [EvExec h qi (Some e)]) h)]
  /\ tx (Commit E s (ExecLogBatch el)).1 = None
  /\ queries (Commit E s (ExecLogBatch el)).1 = []
  /\ id (Commit E s (ExecLogBatch el)).1 = txidOf el
  /\ Idle (Commit E s (ExecLogBatch el)).1
  /\ (forall el' : ExecLog,
        (Prepare E (Commit E s (ExecLogBatch el)).1 (ExecLogBatch el')).2
        = eBegin E (db (Commit E s (ExecLogBatch el)).1) None
        /\ (eBegin E (db (Commit E s (ExecLogBatch el)).1) None = None ->
            let s'' := (Prepare E (Commit E s (ExecLogBatch el)).1
                          (ExecLogBatch el')).1 in
            is_Some (tx s'') /\ id s'' = txidOf el'
            /\ queries s'' = Queries el'))
  /\ (forall el' : ExecLog,
        (txidOf el' = txidOf el ->
         Rollback E (Commit E s (ExecLogBatch el)).1 (ExecLogBatch el')
         = ((Commit E s (ExecLogBatch el)).1, None))
        /\ (txidOf el' <> txidOf el ->
            Rollback E (Commit E s (ExecLogBatch el)).1 (ExecLogBatch el')
            = ((Commit E s (ExecLogBatch el)).1,
               Some (ErrInconsistentState (txidOf el))))).
Proof.
  intros Htx Hid Hq Hpre Hqi.
  assert (Commit E s (ExecLogBatch el)
          = (mkStorage
               (hist ++ [EvExec h qi (Some e)]
                ++ [EvRollback h (eRollback E (hist ++ [EvExec h qi (Some e)]) h)])
               None (id s) [], Some e)) as ->.
  { unfold Commit. rewrite Htx, Hid, equalTxID_refl, Hq, execAll_app, Hpre.
    simpl. rewrite Hqi. simpl. rewrite <- app_assoc. reflexivity. }
  unfold Idle. cbn [fst snd db tx queries id].
  repeat (split; [reflexivity|]).
  split; [symmetry; exact Hid|]. split; [reflexivity|]. split.
  - intros el'.
    match goal with |- context [Prepare E ?s0 _] => set (s' := s0) end.
    destruct (Prepare_idle E s' el' eq_refl) as [Hres Hok].
    split; [exact Hres|].
    intros Hb. rewrite (Hok Hb). cbn. eauto.
  - intros el'. unfold Rollback. cbn [id tx]. rewrite <- Hid. split.
    + intros ->. rewrite equalTxID_refl. reflexivity.
    + intros Hne.
      destruct (equalTxID (txidOf el) (txidOf el')) eqn:Heq; [|reflexivity].
      apply equalTxID_eq in Heq. congruence.
Qed.

Lemma Commit_failing_statement_witness :
  (Commit (scenarioEngine None) (prepared ["Q1"; "BadSQL"; "Q3"]) (batch T1 [])).2
  = Some (ErrSQL 1)
  /\ db (Commit (scenarioEngine None) (prepared ["Q1"; "BadSQL"; "Q3"])
           (batch T1 [])).1
     = [EvBeginTx None None; EvExec 0 "Q1" None;
        EvExec 0 "BadSQL" (Some (ErrSQL 1)); EvRollback 0 None]
  /\ tx (Commit (scenarioEngine None) (prepared ["Q1"; "BadSQL"; "Q3"])
           (batch T1 [])).1 = None
  /\ id (Commit (scenarioEngine None) (prepared ["Q1"; "BadSQL"; "Q3"])
           (batch T1 [])).1 = T1
  /\ (Prepare (scenarioEngine None)
        (Commit (scenarioEngine None) (prepared ["Q1"; "BadSQL"; "Q3"])
           (batch T1 [])).1 (batch (mkTxID 9 9 9) ["Q4"])).2 = None.
Proof.
  destruct (Commit_failing_statement (scenarioEngine None)
              (prepared ["Q1"; "BadSQL"; "Q3"]) 0%nat (mkExecLog 1 1 1 [])
              ["Q1"] ["Q3"] "BadSQL"
              [EvBeginTx None None; EvExec 0%nat "Q1" None] (ErrSQL 1)
              eq_refl eq_refl eq_refl eq_refl eq_refl)
    as (Herr & Hdb & Htx & _ & Hid & _ & Hnext & _).
  split; [exact Herr|]. split; [exact Hdb|]. split; [exact Htx|].
  split; [exact Hid|].
  exact (proj1 (Hnext (mkExecLog 9 9 9 ["Q4"]))).
Defined.

(** C4, as stated, fails: the Commit that meets the failing statement does
    not clear the TxID.  After Prepare of [T1] with Q1, BadSQL, Q3 buffered
    and the Commit of [T1], nothing is in progress, yet the field still holds
    [T1], which is not the never-set TxID: a Rollback carrying the never-set
    TxID is refused as inconsistent with [T1], and a Rollback carrying [T1]
    is accepted. *)
Lemma Commit_failure_keeps_TxID :
  (Commit (scenarioEngine None) (prepared ["Q1"; "BadSQL"; "Q3"]) (batch T1 [])).2
  = Some (ErrSQL 1)
  /\ tx (Commit (scenarioEngine None) (prepared ["Q1"; "BadSQL"; "Q3"])
           (batch T1 [])).1 = None
  /\ id (Commit (scenarioEngine None) (prepared ["Q1"; "BadSQL"; "Q3"])
           (batch T1 [])).1 = T1
  /\ equalTxID T1 zeroTxID = false
  /\ (Rollback (scenarioEngine None)
        (Commit (scenarioEngine None) (prepared ["Q1"; "BadSQL"; "Q3"])
           (batch T1 [])).1 (batch zeroTxID [])).2
     = Some (ErrInconsistentState T1)
  /\ (Rollback (scenarioEngine None)
        (Commit (scenarioEngine None) (prepared ["Q1"; "BadSQL"; "Q3"])
           (batch T1 [])).1 (batch T1 [])).2 = None.
Proof. repeat split. Qed.

(** C9: when every buffered statement executes without error, Commit returns
    nil and leaves the participant idle whatever the engine's COMMIT answers:
    that answer is recorded by the engine only.  Two engines that answer the
    statements alike but differ on the COMMIT give the caller the same result
    and the same participant. *)
Theorem Commit_discards_commit_error (E E' : Engine) (s : Storage) (h : nat)
    (el : ExecLog) (hist : list Event) :
  tx s = Some h ->
  txidOf el = id s ->
  execAll E h (db s) (queries s) = (hist, None) ->
  (forall past q, eExec E' past h q = eExec E past h q) ->
  Commit E s (ExecLogBatch el)
  = (mkStorage (hist ++ [EvCommit h (eCommit E hist h)]) None (id s) [], None)
  /\ Commit E' s (ExecLogBatch el)
     = (mkStorage (hist ++ [EvCommit h (eCommit E' hist h)]) None (id s) [], None)
  /\ Idle (Commit E s (ExecLogBatch el)).1
  /\ Idle (Commit E' s (ExecLogBatch el)).1.
Proof.
  intros Htx Hid Hrun Hsame.
  assert (forall qs past, execAll E' h past qs = execAll E h past qs) as Hall.
  { induction qs as [|q qs IH]; intros past; simpl; [reflexivity|].
    rewrite Hsame. destruct (eExec E past h q); [reflexivity | apply IH]. }
  assert (Commit E s (ExecLogBatch el)
          = (mkStorage (hist ++ [EvCommit h (eCommit E hist h)]) None (id s) [],
             None)) as H1.
  { unfold Commit. rewrite Htx, Hid, equalTxID_refl, Hrun. reflexivity. }
  assert (Commit E' s (ExecLogBatch el)
          = (mkStorage (hist ++ [EvCommit h (eCommit E' hist h)]) None (id s) [],
             None)) as H2.
  { unfold Commit. rewrite Htx, Hid, equalTxID_refl, Hall, Hrun. reflexivity. }
  rewrite H1, H2. repeat split.
Qed.

Lemma Commit_discards_commit_error_witness :
  Commit (scenarioEngine None) (prepared ["Q1"; "Q2"]) (batch T1 [])
  = (mkStorage [EvBeginTx None None; EvExec 0 "Q1" None; EvExec 0 "Q2" None;
                EvCommit 0 None] None T1 [], None)
  /\ Commit (scenarioEngine (Some (ErrSQL 5))) (prepared ["Q1"; "Q2"]) (batch T1 [])
     = (mkStorage [EvBeginTx None None; EvExec 0 "Q1" None; EvExec 0 "Q2" None;
                   EvCommit 0 (Some (ErrSQL 5))] None T1 [], None).
Proof.
  destruct (Commit_discards_commit_error (scenarioEngine None)
              (scenarioEngine (Some (ErrSQL 5))) (prepared ["Q1"; "Q2"]) 0%nat
              (mkExecLog 1 1 1 [])
              [EvBeginTx None None; EvExec 0%nat "Q1" None; EvExec 0%nat "Q2" None]
              eq_refl eq_refl eq_refl (fun _ _ => eq_refl))
    as (H1 & H2 & _).
  split; [exact H1 | exact H2].
Defined.

(** C10: on an empty statement list Query returns no column names, no type
    names, no rows and a nil error, and Exec returns 0 affected rows and a nil
    error; neither reaches the SQL engine, whose history is unchanged. *)
Theorem Query_Exec_empty (E : Engine) (s : Storage) :
  Query E s [] = (s, ([], [], [], None))
  /\ Exec E s [] = (s, (0, None))
  /\ db (Query E s []).1 = db s
  /\ db (Exec E s []).1 = db s.
Proof. repeat split. Qed.

(** On a non-empty list both begin a transaction: the engine's history grows. *)
Lemma Query_Exec_nonempty_reach_engine (E : Engine) (s : Storage)
    (q : string) (qs : list string) :
  db (Query E s (q :: qs)).1 <> db s /\ db (Exec E s (q :: qs)).1 <> db s.
Proof.
  assert (forall (l k : list Event), k <> [] -> l ++ k <> l) as Hgrow.
  { intros l k Hk Heq. apply Hk.
    apply (app_inv_head l). rewrite app_nil_r. exact Heq. }
  split.
  - unfold Query.
    destruct (eBegin E (db s) (Some true)); cbn [fst db].
    + apply Hgrow. discriminate.
    + repeat match goal with
             | |- context [match ?x with _ => _ end] => destruct x
             end; cbn [fst db]; rewrite <- !app_assoc; apply Hgrow; discriminate.
  - unfold Exec.
    destruct (eBegin E (db s) (Some false)); cbn [fst db].
    + apply Hgrow. discriminate.
    + destruct (eExec E _ _ q); cbn [fst db]; rewrite <- !app_assoc;
        apply Hgrow; discriminate.
Qed.





(** *** Rejected requests *)

(** X1: a request that the participant rejects has no effect.  A batch that is
    not an ExecLog is refused by Prepare, Commit and Rollback alike; a TxID
    other than the one held is refused by Rollback always, and by Prepare and
    Commit while a transaction is in progress; a Commit without a transaction
    in progress is refused as not prepared.  In each case the participant, the
    transaction in progress and the engine are left exactly as they were. *)
Theorem rejected_requests_change_nothing (E : Engine) (s : Storage) :
  (Prepare E s OtherBatch = (s, Some ErrUnexpectedWriteBatch)
   /\ Commit E s OtherBatch = (s, Some ErrUnexpectedWriteBatch)
   /\ Rollback E s OtherBatch = (s, Some ErrUnexpectedWriteBatch))
  /\ (forall el, txidOf el <> id s ->
        Rollback E s (ExecLogBatch el) = (s, Some (ErrInconsistentState (id s)))
        /\ (is_Some (tx s) ->
            Prepare E s (ExecLogBatch el)
            = (s, Some (ErrInconsistentState (id s)))
            /\ Commit E s (ExecLogBatch el)
               = (s, Some (ErrInconsistentState (id s)))))
  /\ (forall el, tx s = None ->
        Commit E s (ExecLogBatch el) = (s, Some ErrNotPrepared)).
Proof.
  split; [repeat split|]. split.
  - intros el Hne.
    assert (equalTxID (id s) (txidOf el) = false) as Hneq
      by (apply equalTxID_neq; congruence).
    split.
    + unfold Rollback. rewrite Hneq. reflexivity.
    + intros [h Htx]. unfold Prepare, Commit. rewrite Htx, Hneq. split; reflexivity.
  - intros el Htx. unfold Commit. rewrite Htx. reflexivity.
Qed.

(** *** One transaction at a time *)

Lemma begunFrom_app (l k : list Event) :
  forall i, begunFrom i (l ++ k) = begunFrom i l ++ begunFrom (i + length l) k.
Proof.
  induction l as [|ev l IH]; intros i; simpl.
  - rewrite Nat.add_0_r. reflexivity.
  - replace (i + S (length l))%nat with (S i + length l)%nat by lia.
    destruct ev as [opts [e|]| ? ? ? | ? ? ? | ? ? | ? ?]; simpl; rewrite IH; reflexivity.
Qed.

Lemma begunFrom_bounds (l : list Event) :
  forall i h, h ∈ begunFrom i l -> (i <= h < i + length l)%nat.
Proof.
  induction l as [|ev l IH]; intros i h Hin; simpl in *.
  - inversion Hin.
  - destruct ev as [opts [e|]| ? ? ? | ? ? ? | ? ? | ? ?];
      try (apply IH in Hin; lia).
    apply elem_of_cons in Hin as [->|Hin]; [lia | apply IH in Hin; lia].
Qed.

Lemma ended_app (h : nat) (l k : list Event) :
  ended h (l ++ k) = ended h l || ended h k.
Proof. unfold ended. apply existsb_app. Qed.

Lemma neutral_spec (ev : Event) :
  neutral ev -> (forall h, closes h ev = false) /\ (forall i, begunFrom i [ev] = []).
Proof.
  destruct ev as [opts [e|]| ? ? ? | ? ? ? | ? ? | ? ?]; simpl; intros H; try contradiction;
    split; reflexivity.
Qed.

Lemma openTxs_neutral (hist evs : list Event) :
  Forall neutral evs ->
  closesKnown hist ->
  openTxs (hist ++ evs) = openTxs hist /\ closesKnown (hist ++ evs).
Proof.
  intros Hn. revert hist. induction Hn as [|ev evs Hev _ IH]; intros hist Hk.
  - rewrite app_nil_r. auto.
  - apply neutral_spec in Hev as [Hcl Hbg].
    assert (openTxs (hist ++ [ev]) = openTxs hist /\ closesKnown (hist ++ [ev]))
      as [Hopen Hk'].
    { split.
      - unfold openTxs. rewrite begunFrom_app, Hbg, app_nil_r.
        apply list_filter_iff. intros h. rewrite ended_app. simpl.
        rewrite Hcl. simpl. rewrite orb_false_r. reflexivity.
      - intros h Hh. rewrite ended_app in Hh. simpl in Hh.
        rewrite Hcl, orb_false_r in Hh. apply Hk in Hh.
        rewrite length_app. simpl. lia. }
    replace (hist ++ ev :: evs) with ((hist ++ [ev]) ++ evs)
      by (rewrite <- app_assoc; reflexivity).
    destruct (IH _ Hk') as [Hopen' Hk'']. split; [congruence | exact Hk''].
Qed.

Lemma openTxs_begin (hist : list Event) (opts : option bool) :
  closesKnown hist ->
  openTxs (hist ++ [EvBeginTx opts None]) = openTxs hist ++ [length hist]
  /\ closesKnown (hist ++ [EvBeginTx opts None]).
Proof.
  intros Hk. split.
  - unfold openTxs. rewrite begunFrom_app. simpl. rewrite filter_app. f_equal.
    + apply list_filter_iff. intros h. rewrite ended_app. simpl.
      rewrite orb_false_r. reflexivity.
    + rewrite filter_cons, filter_nil. rewrite decide_True; [reflexivity|].
      rewrite ended_app. simpl. rewrite orb_false_r.
      destruct (ended (length hist) hist) eqn:Hend; [|reflexivity].
      apply Hk in Hend. lia.
  - intros h Hh. rewrite ended_app in Hh. simpl in Hh.
    rewrite orb_false_r in Hh. apply Hk in Hh. rewrite length_app. simpl. lia.
Qed.

Lemma openTxs_close (hist : list Event) (ev : Event) (h : nat) :
  closes h ev = true ->
  (h < length hist)%nat ->
  closesKnown hist ->
  openTxs (hist ++ [ev]) = filter (λ x, x ≠ h) (openTxs hist)
  /\ closesKnown (hist ++ [ev]).
Proof.
  intros Hev Hh Hk.
  assert (forall x, closes x ev = (h =? x)%nat) as Hcl.
  { intros x. destruct ev as [opts res| ? ? ? | ? ? ? | h' ? | h' ?];
      simpl in *; try discriminate; apply Nat.eqb_eq in Hev as ->; reflexivity. }
  assert (forall i, begunFrom i [ev] = []) as Hbg.
  { intros i. destruct ev as [opts res| ? ? ? | ? ? ? | h' ? | h' ?];
      simpl in *; try discriminate; reflexivity. }
  split.
  - unfold openTxs. rewrite begunFrom_app, Hbg, app_nil_r.
    rewrite list_filter_filter. apply list_filter_iff. intros x.
    rewrite ended_app. simpl. rewrite Hcl, orb_false_r.
    rewrite orb_false_iff, Nat.eqb_neq.
    split; intros [? ?]; split; auto.
  - intros x Hx. rewrite ended_app in Hx. simpl in Hx.
    rewrite Hcl, orb_false_r in Hx. rewrite length_app. simpl.
    apply orb_true_iff in Hx as [Hx|Hx]; [apply Hk in Hx; lia|].
    apply Nat.eqb_eq in Hx. lia.
Qed.

Lemma executed_app (l k : list Event) :
  executed (l ++ k) = executed l ++ executed k.
Proof. unfold executed. apply omap_app. Qed.

(** The statement loop hands to the engine the first [k] buffered statements,
    all of them if none fails, and neither opens nor closes a transaction. *)
Lemma execAll_events (E : Engine) (h : nat) (qs : list string) :
  forall hist hist' r,
    execAll E h hist qs = (hist', r) ->
    exists evs k,
      hist' = hist ++ evs
      /\ Forall neutral evs
      /\ executed evs = take k qs
      /\ (k <= length qs)%nat
      /\ (r = None -> k = length qs).
Proof.
  induction qs as [|q qs IH]; intros hist hist' r H; simpl in H.
  - injection H as <- <-. exists [], 0%nat. rewrite app_nil_r.
    repeat split; auto.
  - destruct (eExec E hist h q) as [e|res] eqn:Hq.
    + injection H as <- <-. exists [EvExec h q (Some e)], 1%nat. simpl.
      rewrite take_0. repeat split; [repeat constructor | lia | discriminate].
    + apply IH in H as (evs & k & -> & Hn & Hex & Hk & Hall).
      exists (EvExec h q None :: evs), (S k). rewrite <- app_assoc. simpl.
      repeat split; [constructor; [exact I | exact Hn] | f_equal; exact Hex
                    | lia | intros Hr; f_equal; auto].
Qed.

Lemma held_handle_exists (s : Storage) (h : nat) :
  holdsItsTransaction s -> tx s = Some h -> (h < length (db s))%nat.
Proof.
  intros [_ Hopen] Htx. rewrite Htx in Hopen. simpl in Hopen.
  assert (h ∈ openTxs (db s)) as Hin by (rewrite Hopen; left).
  unfold openTxs in Hin. apply list_elem_of_filter in Hin as [_ Hin].
  apply begunFrom_bounds in Hin. lia.
Qed.

Lemma filter_ne_held (s : Storage) (h : nat) :
  holdsItsTransaction s ->
  filter (λ x, x ≠ length (db s)) (option_list (tx s) ++ [length (db s)])
  = option_list (tx s).
Proof.
  intros Hs. rewrite filter_app, filter_cons, filter_nil.
  rewrite decide_False by tauto. rewrite app_nil_r.
  destruct (tx s) as [h'|] eqn:Htx; simpl; [|reflexivity].
  pose proof (held_handle_exists s h' Hs Htx).
  rewrite filter_cons, filter_nil, decide_True by lia. reflexivity.
Qed.

Lemma Prepare_holds (E : Engine) (s : Storage) (wb : WriteBatch) :
  holdsItsTransaction s -> holdsItsTransaction (Prepare E s wb).1.
Proof.
  intros Hs. pose proof Hs as [Hk Hopen]. unfold Prepare.
  destruct wb as [el|]; [|exact Hs].
  destruct (tx s) as [h|] eqn:Htx.
  - destruct (equalTxID _ _); [|exact Hs].
    split; simpl; [exact Hk | rewrite Hopen; reflexivity].
  - destruct (eBegin E (db s) None) as [e|]; simpl.
    + destruct (openTxs_neutral (db s) [EvBeginTx None (Some e)]) as [Ho Hk'];
        [repeat constructor | exact Hk |].
      split; simpl; [exact Hk' | rewrite Ho, Hopen; reflexivity].
    + destruct (openTxs_begin (db s) None Hk) as [Ho Hk'].
      split; simpl; [exact Hk' | rewrite Ho, Hopen; reflexivity].
Qed.

Lemma close_held (hist evs : list Event) (h : nat) (ev : Event) :
  closesKnown hist -> openTxs hist = [h] -> (h < length hist)%nat ->
  Forall neutral evs -> closes h ev = true ->
  closesKnown ((hist ++ evs) ++ [ev]) /\ openTxs ((hist ++ evs) ++ [ev]) = [].
Proof.
  intros Hk Hopen Hh Hn Hev.
  destruct (openTxs_neutral hist evs Hn Hk) as [Ho Hk'].
  destruct (openTxs_close (hist ++ evs) ev h Hev) as [Ho' Hk''];
    [rewrite length_app; lia | exact Hk' |].
  split; [exact Hk''|]. rewrite Ho', Ho, Hopen.
  rewrite filter_cons, filter_nil, decide_False by tauto. reflexivity.
Qed.

Lemma Commit_holds (E : Engine) (s : Storage) (wb : WriteBatch) :
  holdsItsTransaction s -> holdsItsTransaction (Commit E s wb).1.
Proof.
  intros Hs. pose proof Hs as [Hk Hopen]. unfold Commit.
  destruct wb as [el|]; [|exact Hs].
  destruct (tx s) as [h|] eqn:Htx; [|exact Hs].
  destruct (equalTxID _ _); [|exact Hs].
  pose proof (held_handle_exists s h Hs Htx) as Hh.
  try rewrite Htx in Hopen. simpl in Hopen.
  destruct (execAll E h (db s) (queries s)) as [hist r] eqn:Hrun.
  apply execAll_events in Hrun as (evs & k & -> & Hn & _).
  destruct r as [e|]; simpl;
    (eapply close_held; [exact Hk | exact Hopen | exact Hh | exact Hn |]);
    simpl; apply Nat.eqb_refl.
Qed.

Lemma Rollback_holds (E : Engine) (s : Storage) (wb : WriteBatch) :
  holdsItsTransaction s -> holdsItsTransaction (Rollback E s wb).1.
Proof.
  intros Hs. pose proof Hs as [Hk Hopen]. unfold Rollback.
  destruct wb as [el|]; [|exact Hs].
  destruct (negb _); [exact Hs|].
  destruct (tx s) as [h|] eqn:Htx; [|exact Hs].
  pose proof (held_handle_exists s h Hs Htx) as Hh.
  try rewrite Htx in Hopen. simpl in Hopen. simpl.
  unfold holdsItsTransaction. cbn [db tx].
  apply (close_held (db s) [] h (EvRollback h (eRollback E (db s) h)))
    in Hopen as Hclosed; auto; [|simpl; apply Nat.eqb_refl].
  rewrite app_nil_r in Hclosed. exact Hclosed.
Qed.

(** A transaction opened for a read or a direct write is closed before the
    call returns. *)
Lemma own_transaction_closed (s : Storage) (opts : option bool)
    (evs closing : list Event) :
  holdsItsTransaction s ->
  Forall neutral evs ->
  closing <> [] ->
  Forall (λ ev, closes (length (db s)) ev = true) closing ->
  closesKnown (((db s ++ [EvBeginTx opts None]) ++ evs) ++ closing)
  /\ openTxs (((db s ++ [EvBeginTx opts None]) ++ evs) ++ closing)
     = option_list (tx s).
Proof.
  intros Hs Hn Hne Hcl. pose proof Hs as [Hk Hopen].
  destruct (openTxs_begin (db s) opts Hk) as [Ho Hk1].
  destruct (openTxs_neutral _ evs Hn Hk1) as [Ho2 Hk2].
  set (hist := (db s ++ [EvBeginTx opts None]) ++ evs) in *.
  assert (length (db s) < length hist)%nat as Hlen.
  { unfold hist. rewrite !length_app. simpl. lia. }
  assert (openTxs hist = option_list (tx s) ++ [length (db s)]) as Hstart
    by (rewrite Ho2, Ho, Hopen; reflexivity).
  clearbody hist. clear Ho Ho2 Hk1.
  assert (forall closing' hist',
            Forall (λ ev, closes (length (db s)) ev = true) closing' ->
            closesKnown hist' -> (length (db s) < length hist')%nat ->
            (openTxs hist' = option_list (tx s) ++ [length (db s)]
             /\ closing' <> []
             \/ openTxs hist' = option_list (tx s)) ->
            closesKnown (hist' ++ closing')
            /\ openTxs (hist' ++ closing') = option_list (tx s)) as Hgen.
  { induction closing' as [|ev rest IH]; intros hist' Hall Hk' Hl Hcase.
    - rewrite app_nil_r. destruct Hcase as [[_ Hc]|Hc]; [contradiction|auto].
    - inversion Hall as [|? ? Hev Hrest]; subst.
      destruct (openTxs_close hist' ev (length (db s)) Hev Hl Hk') as [Hoc Hkc].
      replace (hist' ++ ev :: rest) with ((hist' ++ [ev]) ++ rest)
        by (rewrite <- app_assoc; reflexivity).
      apply IH; [exact Hrest | exact Hkc | rewrite length_app; lia|].
      right. rewrite Hoc. destruct Hcase as [[Hc _]|Hc]; rewrite Hc.
      + apply (filter_ne_held s 0%nat Hs).
      + destruct (tx s) as [h'|] eqn:Htx; simpl; [|reflexivity].
        pose proof (held_handle_exists s h' Hs Htx).
        rewrite filter_cons, filter_nil, decide_True by lia. reflexivity. }
  apply Hgen; auto.
Qed.

(** What a query leaves behind, whatever it returns. *)
Lemma Query_state (E : Engine) (s : Storage) (q : string) (qs : list string) :
  (Query E s (q :: qs)).1
  = match eBegin E (db s) (Some true) with
    | Some e =>
      mkStorage (db s ++ [EvBeginTx (Some true) (Some e)])
        (tx s) (id s) (queries s)
    | None =>
      let hist := db s ++ [EvBeginTx (Some true) None] in
      let hist1 :=
        hist ++ [EvQuery (length (db s)) q
                   (resOf (eQuery E hist (length (db s)) q))] in
      mkStorage (hist1 ++ [EvRollback (length (db s))
                             (eRollback E hist1 (length (db s)))])
        (tx s) (id s) (queries s)
    end.
Proof.
  unfold Query. destruct (eBegin E (db s) (Some true)); [reflexivity|].
  cbv zeta.
  destruct (eQuery E _ _ q) as [e|rows]; [reflexivity|].
  destruct (rColumns rows); [reflexivity|].
  destruct (rColumnTypes rows); [reflexivity|].
  destruct (scanRows _ _ _ _). reflexivity.
Qed.

(** What a direct write leaves behind. *)
Lemma Exec_state (E : Engine) (s : Storage) (q : string) (qs : list string) :
  (Exec E s (q :: qs)).1
  = match eBegin E (db s) (Some false) with
    | Some e =>
      mkStorage (db s ++ [EvBeginTx (Some false) (Some e)])
        (tx s) (id s) (queries s)
    | None =>
      let h := length (db s) in
      let hist := db s ++ [EvBeginTx (Some false) None] in
      let hist1 := hist ++ [EvExec h q (resOf (eExec E hist h q))] in
      match eExec E hist h q with
      | inl _ =>
        mkStorage (hist1 ++ [EvRollback h (eRollback E hist1 h)])
          (tx s) (id s) (queries s)
      | inr _ =>
        mkStorage (hist1 ++ [EvCommit h (eCommit E hist1 h);
                             EvRollback h
                               (eRollback E (hist1 ++ [EvCommit h (eCommit E hist1 h)]) h)])
          (tx s) (id s) (queries s)
      end
    end.
Proof.
  unfold Exec. destruct (eBegin E (db s) (Some false)); [reflexivity|].
  cbv zeta. destruct (eExec E _ _ q) as [e|res]; [reflexivity|].
  simpl. rewrite <- app_assoc. reflexivity.
Qed.

Lemma Query_holds (E : Engine) (s : Storage) (qs : list string) :
  holdsItsTransaction s -> holdsItsTransaction (Query E s qs).1.
Proof.
  intros Hs. destruct qs as [|q qs]; [exact Hs|]. rewrite Query_state.
  destruct (eBegin E (db s) (Some true)) as [e|].
  - destruct Hs as [Hk Hopen].
    destruct (openTxs_neutral (db s) [EvBeginTx (Some true) (Some e)])
      as [Ho Hk']; [repeat constructor | exact Hk |].
    split; simpl; [exact Hk' | rewrite Ho; exact Hopen].
  - cbv zeta. unfold holdsItsTransaction. cbn [db tx].
    apply own_transaction_closed;
      [exact Hs | repeat constructor | discriminate |].
    repeat constructor; simpl; apply Nat.eqb_refl.
Qed.

Lemma Exec_holds (E : Engine) (s : Storage) (qs : list string) :
  holdsItsTransaction s -> holdsItsTransaction (Exec E s qs).1.
Proof.
  intros Hs. destruct qs as [|q qs]; [exact Hs|]. rewrite Exec_state.
  destruct (eBegin E (db s) (Some false)) as [e|].
  - destruct Hs as [Hk Hopen].
    destruct (openTxs_neutral (db s) [EvBeginTx (Some false) (Some e)])
      as [Ho Hk']; [repeat constructor | exact Hk |].
    split; simpl; [exact Hk' | rewrite Ho; exact Hopen].
  - cbv zeta. destruct (eExec E _ _ q) as [e|res];
      unfold holdsItsTransaction; cbn [db tx];
      (apply own_transaction_closed;
       [exact Hs | repeat constructor | discriminate |]);
      repeat constructor; simpl; apply Nat.eqb_refl.
Qed.

(** X2: whatever requests a new participant serves (Prepare, Commit, Rollback,
    read-only queries, direct writes), the transactions it has begun on the
    engine and not yet committed or rolled back are exactly the one it holds
    in [s.tx]: at most one, and none when it is idle. *)
Theorem one_open_transaction (E : Engine) (rs : list Request) :
  openTxs (db (serveAll E (New []) rs)) = option_list (tx (serveAll E (New []) rs)).
Proof.
  assert (forall s, holdsItsTransaction s ->
                    holdsItsTransaction (serveAll E s rs)) as Hall.
  { unfold serveAll. induction rs as [|r rs IH]; intros s Hs; simpl; [exact Hs|].
    apply IH. destruct r as [[wb|wb|wb]|qs|qs]; simpl.
    - apply Prepare_holds, Hs.
    - apply Commit_holds, Hs.
    - apply Rollback_holds, Hs.
    - apply Query_holds, Hs.
    - apply Exec_holds, Hs. }
  apply (Hall (New [])). split; [|reflexivity].
  intros h Hh. discriminate.
Qed.

(** X3: a read-only query uses the first statement only, never changes the
    transaction in progress, its TxID or its buffer, never executes a write
    and never commits: on the engine it leaves a failed BeginTx, or a
    read-only BeginTx, the query and a Rollback of that transaction. *)
Theorem Query_is_read_only (E : Engine) (s : Storage) (q : string)
    (qs : list string) :
  Query E s (q :: qs) = Query E s [q]
  /\ tx (Query E s (q :: qs)).1 = tx s
  /\ id (Query E s (q :: qs)).1 = id s
  /\ queries (Query E s (q :: qs)).1 = queries s
  /\ executed (db (Query E s (q :: qs)).1) = executed (db s)
  /\ ((exists e, db (Query E s (q :: qs)).1
                 = db s ++ [EvBeginTx (Some true) (Some e)])
      \/ exists r r',
           db (Query E s (q :: qs)).1
           = db s ++ [EvBeginTx (Some true) None; EvQuery (length (db s)) q r;
                      EvRollback (length (db s)) r']).
Proof.
  split; [reflexivity|]. rewrite Query_state.
  destruct (eBegin E (db s) (Some true)) as [e|]; cbv zeta; cbn [db tx id queries].
  - repeat split.
    + rewrite executed_app. simpl. apply app_nil_r.
    + left. eauto.
  - repeat split.
    + rewrite !executed_app. simpl. rewrite !app_nil_r. reflexivity.
    + right. rewrite <- !app_assoc. simpl. eauto.
Qed.

(** *** Rows as the driver delivers them *)

(** Scanning the values of a row into a scanner with room for them stores
    them, in order, from the current column on. *)
Lemma scanInto_fills (vals : list Value) :
  forall rs,
    length (fields rs) = fieldCnt rs ->
    (column rs + length vals <= fieldCnt rs)%nat ->
    scanInto rs vals
    = (mkRowScanner (fieldCnt rs) (column rs + length vals)
         (take (column rs) (fields rs) ++ vals
          ++ drop (column rs + length vals) (fields rs)), None).
Proof.
  induction vals as [|v vals IH]; intros rs Hlen Hroom; simpl.
  - rewrite Nat.add_0_r, take_drop. destruct rs; reflexivity.
  - simpl in Hroom. unfold Scan.
    destruct (Nat.leb_spec (fieldCnt rs) (column rs)) as [|Hlt]; [lia|].
    rewrite IH; cbn [fieldCnt column fields];
      [|rewrite length_insert; exact Hlen | lia].
    f_equal. f_equal; [lia|].
    rewrite (take_S_r _ _ v) by (apply list_lookup_insert_eq; lia).
    rewrite take_insert_ge by lia. rewrite drop_insert_lt by lia.
    rewrite <- app_assoc. simpl.
    replace (column rs + S (length vals))%nat
      with (S (column rs + length vals)) by lia.
    reflexivity.
Qed.

(** [rows.Scan] of a row as wide as the scanner leaves that very row in the
    scanner. *)
Lemma rowsScan_row (rs : rowScanner) (vals : list Value) :
  length vals = fieldCnt rs ->
  rowsScan rs vals = (mkRowScanner (fieldCnt rs) (fieldCnt rs) vals, None).
Proof.
  intros Hw. unfold rowsScan, ScanArgs. cbn [fieldCnt].
  rewrite (proj2 (Nat.eqb_eq _ _) Hw).
  rewrite scanInto_fills; cbn [fieldCnt column fields];
    [|apply length_replicate | lia].
  rewrite Nat.add_0_l, Hw, take_0.
  rewrite drop_ge by (rewrite length_replicate; lia).
  rewrite app_nil_l, app_nil_r. reflexivity.
Qed.

Lemma rowsScan_width (rs rs' : rowScanner) (vals : list Value) :
  rowsScan rs vals = (rs', None) ->
  fieldCnt rs' = fieldCnt rs /\ GetRow rs' = vals /\ length vals = fieldCnt rs.
Proof.
  unfold rowsScan. cbn [ScanArgs fieldCnt].
  destruct (Nat.eqb_spec (length vals) (fieldCnt rs)) as [Hw|]; [|discriminate].
  unfold rowsScan in *. intros H.
  pose proof (rowsScan_row rs vals Hw) as Hrow. unfold rowsScan in Hrow.
  cbn [ScanArgs fieldCnt] in Hrow.
  rewrite (proj2 (Nat.eqb_eq _ _) Hw) in Hrow. rewrite Hrow in H.
  injection H as <-. auto.
Qed.

Lemma scanRows_delivered (n : nat) (rows : list (list Value))
    (final : option Error) :
  Forall (λ vals, length vals = n) rows ->
  forall rs data,
    fieldCnt rs = n ->
    scanRows rs (inr <$> rows) final data = (data ++ rows, final).
Proof.
  induction 1 as [|vals rows Hw _ IH]; intros rs data Hn; simpl.
  - rewrite app_nil_r. reflexivity.
  - rewrite rowsScan_row by congruence. rewrite IH by exact Hn.
    cbn [GetRow fields]. rewrite <- app_assoc. reflexivity.
Qed.

Lemma scanRows_widths (pending : list (Error + list Value))
    (final : option Error) :
  forall rs data data' err,
    scanRows rs pending final data = (data', err) ->
    Forall (λ row, length row = fieldCnt rs) data ->
    Forall (λ row, length row = fieldCnt rs) data'.
Proof.
  induction pending as [|[e|vals] rest IH]; intros rs data data' err H Hdata;
    simpl in H.
  - injection H as <- _. exact Hdata.
  - injection H as <- _. exact Hdata.
  - destruct (rowsScan rs vals) as [rs' [e|]] eqn:Hscan.
    + injection H as <- _. exact Hdata.
    + apply rowsScan_width in Hscan as (Hcnt & Hrow & Hw).
      apply IH in H; rewrite Hcnt in *; [exact H|].
      apply Forall_app. split; [exact Hdata|].
      constructor; [congruence | constructor].
Qed.

(** X4: the rows a query returns are the rows of the driver, value for value
    and in order, with no conversion: when the result set delivers rows as
    wide as its columns, Query returns the column names, the type names, these
    rows and the final error of the result set.  Whatever the result set
    delivers, every row that Query returns has one value per column. *)
Theorem Query_returns_driver_rows (E : Engine) (s : Storage) (q : string)
    (qs : list string) (result : Rows) (columns types : list string)
    (rows : list (list Value)) :
  eBegin E (db s) (Some true) = None ->
  eQuery E (db s ++ [EvBeginTx (Some true) None]) (length (db s)) q
  = inr result ->
  rColumns result = inr columns ->
  rColumnTypes result = inr types ->
  (rNext result = inr <$> rows ->
   Forall (λ vals, length vals = length columns) rows ->
   (Query E s (q :: qs)).2 = (columns, types, rows, rErr result))
  /\ Forall (λ row, length row = length columns)
       (Query E s (q :: qs)).2.1.2.
Proof.
  intros Hb Hq Hc Ht. unfold Query. rewrite Hb. cbv zeta. rewrite Hq, Hc, Ht.
  split.
  - intros Hrows Hw. rewrite Hrows.
    rewrite (scanRows_delivered (length columns) rows (rErr result) Hw)
      by reflexivity.
    reflexivity.
  - destruct (scanRows _ _ _ _) as [data err] eqn:Hscan. cbn [fst snd].
    apply scanRows_widths in Hscan; [exact Hscan | constructor].
Qed.

Lemma Query_returns_driver_rows_witness :
  (Query (scenarioEngine None) (New []) ["SELECT c FROM t"; "ignored"]).2
  = (["c"], ["INTEGER"], [[VInt 1]], None).
Proof.
  exact (proj1 (Query_returns_driver_rows (scenarioEngine None) (New [])
                  "SELECT c FROM t" ["ignored"]
                  (mkRows (inr ["c"]) (inr ["INTEGER"]) [inr [VInt 1]] None)
                  ["c"] ["INTEGER"] [[VInt 1]]
                  eq_refl eq_refl eq_refl eq_refl)
           eq_refl ltac:(repeat constructor)).
Defined.

(** *** Direct writes *)



(** *** Prepare, Commit and Rollback together *)

(** X6: preparing does not execute anything, and a Commit replays the buffer
    of the last Prepare only.  From an idle participant, a Prepare followed by
    a second Prepare with the same TxID both succeed and open one
    transaction; the Commit that follows hands to the engine a prefix of the
    queries of the second Prepare, in order (all of them when it returns nil),
    and none of the first Prepare's or of the Commit's own batch. *)
Theorem Commit_replays_last_prepared (E : Engine) (s : Storage)
    (el1 el2 el3 : ExecLog) :
  tx s = None ->
  eBegin E (db s) None = None ->
  txidOf el2 = txidOf el1 ->
  txidOf el3 = txidOf el1 ->
  (Prepare E s (ExecLogBatch el1)).2 = None
  /\ (Prepare E (Prepare E s (ExecLogBatch el1)).1 (ExecLogBatch el2)).2 = None
  /\ db (Prepare E (Prepare E s (ExecLogBatch el1)).1 (ExecLogBatch el2)).1
     = db s ++ [EvBeginTx None None]
  /\ exists k,
       executed
         (db (Commit E
                (Prepare E (Prepare E s (ExecLogBatch el1)).1 (ExecLogBatch el2)).1
                (ExecLogBatch el3)).1)
       = executed (db s) ++ take k (Queries el2)
       /\ (k <= length (Queries el2))%nat
       /\ ((Commit E
              (Prepare E (Prepare E s (ExecLogBatch el1)).1 (ExecLogBatch el2)).1
              (ExecLogBatch el3)).2 = None ->
           k = length (Queries el2)).
Proof.
  intros Htx Hb H2 H3.
  destruct (Prepare_idle E s el1 Htx) as [_ Hp1]. rewrite (Hp1 Hb).
  cbn [fst snd].
  assert (Prepare E
            (mkStorage (db s ++ [EvBeginTx None None]) (Some (length (db s)))
               (txidOf el1) (Queries el1)) (ExecLogBatch el2)
          = (mkStorage (db s ++ [EvBeginTx None None]) (Some (length (db s)))
               (txidOf el1) (Queries el2), None)) as ->.
  { unfold Prepare. cbn [tx id db]. rewrite H2, equalTxID_refl. reflexivity. }
  cbn [fst snd db]. repeat (split; [reflexivity|]).
  unfold Commit. cbn [tx id db queries]. rewrite H3, equalTxID_refl.
  destruct (execAll E (length (db s)) (db s ++ [EvBeginTx None None])
              (Queries el2)) as [hist r] eqn:Hrun.
  apply execAll_events in Hrun as (evs & k & -> & _ & Hex & Hk & Hall).
  exists k.
  destruct r as [e|]; cbn [fst snd db]; rewrite !executed_app, Hex; simpl;
    rewrite !app_nil_r; (split; [reflexivity|]); (split; [exact Hk|]).
  - discriminate.
  - intros _. apply Hall. reflexivity.
Qed.

Lemma Commit_replays_last_prepared_witness :
  executed
    (db (run (scenarioEngine None) (New [])
           [OpPrepare (batch T1 ["Q1"]); OpPrepare (batch T1 ["Q2"; "Q3"]);
            OpCommit (batch T1 ["Q9"])]).1)
  = ["Q2"; "Q3"]
  /\ exists k,
       executed
         (db (Commit (scenarioEngine None)
                (Prepare (scenarioEngine None)
                   (Prepare (scenarioEngine None) (New []) (batch T1 ["Q1"])).1
                   (batch T1 ["Q2"; "Q3"])).1 (batch T1 ["Q9"])).1)
       = [] ++ take k ["Q2"; "Q3"]
       /\ (k <= 2)%nat.
Proof.
  split; [reflexivity|].
  destruct (Commit_replays_last_prepared (scenarioEngine None) (New [])
              (mkExecLog 1 1 1 ["Q1"]) (mkExecLog 1 1 1 ["Q2"; "Q3"])
              (mkExecLog 1 1 1 ["Q9"]) eq_refl eq_refl eq_refl eq_refl)
    as (_ & _ & _ & k & Hex & Hk & _).
  exists k. split; [exact Hex | exact Hk].
Defined.

(** X7: a Rollback of the transaction in progress executes none of the
    buffered statements, calls Rollback on the engine once, empties the buffer
    and returns nil whatever the engine's Rollback answers.  Afterwards a
    Commit with the same TxID is refused as not prepared, and a second
    Rollback with the same TxID is accepted and does nothing. *)
Theorem Rollback_discards_prepared (E : Engine) (s : Storage) (h : nat)
    (el : ExecLog) :
  tx s = Some h ->
  txidOf el = id s ->
  Rollback E s (ExecLogBatch el)
  = (mkStorage (db s ++ [EvRollback h (eRollback E (db s) h)]) None (id s) [],
     None)
  /\ executed (db (Rollback E s (ExecLogBatch el)).1) = executed (db s)
  /\ Commit E (Rollback E s (ExecLogBatch el)).1 (ExecLogBatch el)
     = ((Rollback E s (ExecLogBatch el)).1, Some ErrNotPrepared)
  /\ Rollback E (Rollback E s (ExecLogBatch el)).1 (ExecLogBatch el)
     = ((Rollback E s (ExecLogBatch el)).1, None).
Proof.
  intros Htx Hid.
  assert (Rollback E s (ExecLogBatch el)
          = (mkStorage (db s ++ [EvRollback h (eRollback E (db s) h)]) None
               (id s) [], None)) as ->.
  { unfold Rollback. rewrite Hid, equalTxID_refl, Htx. reflexivity. }
  cbn [fst snd db]. split; [reflexivity|].
  split; [rewrite executed_app; simpl; apply app_nil_r|].
  split; [reflexivity|].
  unfold Rollback. cbn [id tx]. rewrite Hid, equalTxID_refl. reflexivity.
Qed.

Lemma Rollback_discards_prepared_witness :
  Rollback (scenarioEngine None) (prepared ["Q1"; "Q2"]) (batch T1 [])
  = (mkStorage [EvBeginTx None None; EvRollback 0 None] None T1 [], None)
  /\ Commit (scenarioEngine None)
       (Rollback (scenarioEngine None) (prepared ["Q1"; "Q2"]) (batch T1 [])).1
       (batch T1 [])
     = ((Rollback (scenarioEngine None) (prepared ["Q1"; "Q2"]) (batch T1 [])).1,
        Some ErrNotPrepared).
Proof.
  destruct (Rollback_discards_prepared (scenarioEngine None)
              (prepared ["Q1"; "Q2"]) 0%nat (mkExecLog 1 1 1 [])
              eq_refl eq_refl) as (H1 & _ & H3 & _).
  split; [exact H1 | exact H3].
Defined.

(** *** Opening databases *)

(** X8: the index of open databases is keyed by the file name of the rebuilt
    DSN.  Once a DSN that is not a private in-memory database has been opened,
    opening any DSN with the same file name (whatever its other parameters)
    returns the handle of the first one without calling [sql.Open] and leaves
    the index as it is.  A private in-memory DSN is opened anew on every call
    (the two handles differ) and never enters the index. *)
Theorem openDB_caches_by_filename (O : OpenEnv) (idx : Index)
    (dsn dsn' : string) (d d' : DSN O) :
  NewDSN O dsn = inr d ->
  NewDSN O dsn' = inr d' ->
  sqlOpen O (opened idx) (Format O (rebuilt O d)) = None ->
  (privateMemory O (rebuilt O d) = false ->
   privateMemory O (rebuilt O d') = false ->
   filename O (rebuilt O d') = filename O (rebuilt O d) ->
   exists db,
     (openDB O idx dsn).2 = (Some db, None)
     /\ indexDB (openDB O idx dsn).1 !! filename O (rebuilt O d) = Some db
     /\ openDB O (openDB O idx dsn).1 dsn'
        = ((openDB O idx dsn).1, (Some db, None)))
  /\ (privateMemory O (rebuilt O d) = true ->
      sqlOpen O (S (opened idx)) (Format O (rebuilt O d)) = None ->
      indexDB (openDB O idx dsn).1 = indexDB idx
      /\ (openDB O idx dsn).2 = (Some (opened idx), None)
      /\ (openDB O (openDB O idx dsn).1 dsn).2 = (Some (S (opened idx)), None)
      /\ indexDB (openDB O (openDB O idx dsn).1 dsn).1 = indexDB idx).
Proof.
  intros Hd Hd' Hopen. split.
  - intros Hpub Hpub' Hsame.
    destruct (indexDB idx !! filename O (rebuilt O d)) as [db|] eqn:Hidx.
    + assert (openDB O idx dsn = (idx, (Some db, None))) as ->.
      { unfold openDB. rewrite Hd. cbv zeta. rewrite Hpub, Hidx. reflexivity. }
      exists db. cbn [fst snd]. split; [reflexivity|]. split; [exact Hidx|].
      unfold openDB. rewrite Hd'. cbv zeta. rewrite Hpub', Hsame, Hidx.
      reflexivity.
    + assert (openDB O idx dsn
              = (mkIndex (<[filename O (rebuilt O d) := opened idx]> (indexDB idx))
                   (S (opened idx)), (Some (opened idx), None))) as ->.
      { unfold openDB. rewrite Hd. cbv zeta. rewrite Hpub, Hidx, Hopen.
        reflexivity. }
      exists (opened idx). cbn [fst snd indexDB].
      split; [reflexivity|]. split; [apply lookup_insert_eq|].
      unfold openDB. rewrite Hd'. cbv zeta. rewrite Hpub', Hsame.
      cbn [indexDB]. rewrite lookup_insert_eq. reflexivity.
  - intros Hpriv Hopen2.
    assert (openDB O idx dsn
            = (mkIndex (indexDB idx) (S (opened idx)), (Some (opened idx), None)))
      as ->.
    { unfold openDB. rewrite Hd. cbv zeta. rewrite Hpriv, Hopen. reflexivity. }
    cbn [fst snd indexDB].
    split; [reflexivity|]. split; [reflexivity|].
    unfold openDB. rewrite Hd. cbv zeta. rewrite Hpriv. cbn [opened indexDB].
    rewrite Hopen2. cbn [fst snd indexDB]. split; reflexivity.
Qed.

Lemma openDB_caches_by_filename_witness :
  (openDB scenarioOpenEnv (mkIndex ∅ 0) "a.db").2 = (Some 0%nat, None)
  /\ (openDB scenarioOpenEnv (openDB scenarioOpenEnv (mkIndex ∅ 0) "a.db").1
        "a.db").2 = (Some 0%nat, None)
  /\ (openDB scenarioOpenEnv (openDB scenarioOpenEnv (mkIndex ∅ 0) ":memory:").1
        ":memory:").2 = (Some 1%nat, None).
Proof.
  destruct (openDB_caches_by_filename scenarioOpenEnv (mkIndex ∅ 0)
              "a.db" "a.db" ("a.db", "", "") ("a.db", "", "")
              eq_refl eq_refl eq_refl) as [Hshared _].
  destruct (Hshared eq_refl eq_refl eq_refl) as (db & H1 & _ & H3).
  destruct (openDB_caches_by_filename scenarioOpenEnv (mkIndex ∅ 0)
              ":memory:" ":memory:" (":memory:", "memory", "")
              (":memory:", "memory", "") eq_refl eq_refl eq_refl)
    as [_ Hprivate].
  destruct (Hprivate eq_refl eq_refl) as (_ & _ & H5 & _).
  split; [reflexivity|]. split; [reflexivity | exact H5].
Defined.

End StorageFacts.

(** ** DB service *)

Module BlockProducerFacts.
Import BlockProducer.

(** The error of a batch is the error of the reply that arrived first, none
    when there is no reply; the replies that arrive later are not read. *)
Lemma batchSendSingleSvcReq_first_arrival (env : Env)
    (req : option wt.UpdateService) (nodes : list string) :
  (batchSendSingleSvcReq env req nodes).1
  = match arrival env nodes with
    | [] => None
    | first :: _ => CallNode env first req
    end
  /\ (batchSendSingleSvcReq env req nodes).2 = (λ node, (node, req)) <$> nodes.
Proof.
  unfold batchSendSingleSvcReq. simpl. split; [|reflexivity].
  destruct (arrival env nodes); reflexivity.
Qed.

(** An error that a batch reports is the error of one of its calls. *)
Lemma batchSendSingleSvcReq_sound (env : Env) (req : option wt.UpdateService)
    (nodes : list string) (e : Error) :
  ArrivalContract env ->
  (batchSendSingleSvcReq env req nodes).1 = Some e ->
  exists node, node ∈ nodes /\ CallNode env node req = Some e.
Proof.
  intros Harrival H.
  rewrite (proj1 (batchSendSingleSvcReq_first_arrival env req nodes)) in H.
  destruct (arrival env nodes) as [|first rest] eqn:Horder; [discriminate|].
  exists first. split; [|exact H].
  rewrite <- (Harrival nodes), Horder. left.
Qed.

(** A nil reply that arrives first hides every error that arrives after it:
    the batch reports nil and no compensating request is sent. *)
Lemma batchSendSvcReq_first_reply_nil (env : Env)
    (req rollbackReq : option wt.UpdateService) (first : string)
    (rest nodes : list string) :
  arrival env nodes = first :: rest ->
  CallNode env first req = None ->
  batchSendSvcReq env req rollbackReq nodes
  = (None, (λ node, (node, req)) <$> nodes).
Proof.
  intros Horder Hnil. unfold batchSendSvcReq, batchSendSingleSvcReq.
  rewrite Horder. simpl. rewrite Hnil. reflexivity.
Qed.

(** C1 (the code at the failing input): with workers [n1], [n2], the reply of
    [n1] arriving first and [n2] rejecting CreateDB, the batch reports no error
    and makes the two CreateDB calls only: no compensating DropDB is sent, and
    CreateDatabase reports success and answers with the instance. *)
Theorem batchSendSvcReq_misses_later_error :
  CallNode (scenarioEnv (λ _, 2 * GB) n2Rejects) "n2" (Some createReq)
  = Some (ErrExternal 7)
  /\ batchSendSvcReq (scenarioEnv (λ _, 2 * GB) n2Rejects)
       (Some createReq) (Some dropReq) ["n1"; "n2"]
     = (None, [("n1", Some createReq); ("n2", Some createReq)])
  /\ match CreateDatabase (scenarioEnv (λ _, 2 * GB) n2Rejects) emptyService
             (mkCreateDatabaseRequest "client" (wt.mkResourceMeta 2 GB)) with
     | Returns r =>
       err r = None
       /\ (λ call : Call, (call.1, wt.Op <$> call.2)) <$> calls r
          = [("n1", Some wt.CreateDB); ("n2", Some wt.CreateDB)]
       /\ wt.DatabaseID <$> InstanceMeta r = Some "db1"
     | _ => False
     end.
Proof. vm_compute. repeat split. Qed.

(** What the loop of [buildPeers] leaves in [peers.Servers] when it does not
    panic: the entries from [idx] on are the servers of [nodes], which fit. *)
Lemma fillServers_spec (leaderIdx : nat) (nodes : list proto.Node) :
  forall idx servers leader servers' leader',
    (idx <= length servers)%nat ->
    fillServers leaderIdx nodes idx servers leader = Returns (servers', leader') ->
    (idx + length nodes <= length servers)%nat
    /\ servers' = take idx servers ++ (Some <$> serversFrom leaderIdx idx nodes)
                  ++ drop (idx + length nodes) servers
    /\ leader' = if decide (idx <= leaderIdx < idx + length nodes)%nat
                 then Some leaderIdx else leader.
Proof.
  induction nodes as [|node rest IH];
    intros idx servers leader servers' leader' Hidx H; simpl in H.
  - injection H as <- <-. simpl. rewrite Nat.add_0_r.
    split; [exact Hidx|]. split; [symmetry; apply take_drop|].
    rewrite decide_False by lia. reflexivity.
  - destruct (Nat.leb_spec (length servers) idx) as [|Hlt]; [discriminate|].
    apply IH in H; [|rewrite length_insert; lia].
    rewrite length_insert in H. destruct H as (Hlen & -> & ->).
    simpl. split; [lia|]. split.
    + rewrite (take_S_r _ _ (Some (serverOf leaderIdx idx node)))
        by (apply list_lookup_insert_eq; exact Hlt).
      rewrite take_insert_ge by lia.
      rewrite drop_insert_lt by lia.
      rewrite <- app_assoc. simpl.
      replace (idx + S (length rest))%nat with (S idx + length rest)%nat by lia.
      reflexivity.
    + destruct (Nat.eqb_spec idx leaderIdx) as [->|Hne];
        repeat case_decide; try reflexivity; lia.
Qed.

Lemma serversFrom_ids (leaderIdx : nat) (nodes : list proto.Node) :
  forall idx, kayak.ID <$> serversFrom leaderIdx idx nodes = proto.ID <$> nodes.
Proof.
  induction nodes as [|node rest IH]; intros idx; simpl; [reflexivity|].
  f_equal. apply IH.
Qed.

Lemma serversFrom_length (leaderIdx : nat) (nodes : list proto.Node) :
  forall idx, length (serversFrom leaderIdx idx nodes) = length nodes.
Proof.
  induction nodes as [|node rest IH]; intros idx; simpl; [reflexivity|].
  f_equal. apply IH.
Qed.

Lemma serversFrom_lookup (leaderIdx : nat) (nodes : list proto.Node) :
  forall idx j,
    serversFrom leaderIdx idx nodes !! j
    = serverOf leaderIdx (idx + j) <$> nodes !! j.
Proof.
  induction nodes as [|node rest IH]; intros idx [|j]; simpl; try reflexivity.
  - rewrite Nat.add_0_r. reflexivity.
  - rewrite IH. replace (S idx + j)%nat with (idx + S j)%nat by lia. reflexivity.
Qed.

Lemma isLeader_serverOf (leaderIdx idx : nat) (node : proto.Node) :
  isLeader (serverOf leaderIdx idx node) = (idx =? leaderIdx)%nat.
Proof.
  unfold isLeader, serverOf. simpl. destruct (idx =? leaderIdx)%nat; reflexivity.
Qed.

(** Among the servers written from [idx] on, the leaders are: the one at
    [leaderIdx] when that position is written, and none otherwise. *)
Lemma serversFrom_leaders (leaderIdx : nat) (nodes : list proto.Node) :
  forall idx,
    filter (λ srv, isLeader srv = true) (serversFrom leaderIdx idx nodes)
    = match nodes !! (leaderIdx - idx)%nat with
      | Some node =>
        if decide (idx <= leaderIdx)%nat then [serverOf leaderIdx leaderIdx node]
        else []
      | None => []
      end.
Proof.
  induction nodes as [|node rest IH]; intros idx; simpl.
  - destruct (leaderIdx - idx)%nat; reflexivity.
  - rewrite filter_cons, IH, isLeader_serverOf.
    destruct (Nat.eqb_spec idx leaderIdx) as [->|Hne].
    + rewrite Nat.sub_diag. simpl.
      destruct (rest !! (leaderIdx - S leaderIdx)%nat);
        repeat case_decide; try lia; try congruence; reflexivity.
    + destruct (decide (idx <= leaderIdx)%nat) as [Hle|Hgt].
      * replace (leaderIdx - idx)%nat with (S (leaderIdx - S idx)) by lia. simpl.
        destruct (rest !! (leaderIdx - S idx)%nat);
          repeat case_decide; try lia; try congruence; reflexivity.
      * destruct (rest !! (leaderIdx - S idx)%nat);
          destruct ((node :: rest) !! (leaderIdx - idx)%nat);
          repeat case_decide; try lia; try congruence; reflexivity.
Qed.

(** The metric loop only appends to [allocated], in the order of the map's
    entries, nodes whose free-memory metric was read and exceeds the floor; it
    only adds to the exclusion set. *)
Lemma checkNodes_spec (memory : Z) (metrics : list (string * MetricMap)) :
  forall allocated0 exclude0 allocated exclude,
    checkNodes memory metrics (allocated0, exclude0) = Returns (allocated, exclude) ->
    exists added,
      allocated = allocated0 ++ added
      /\ added `sublist_of` metrics.*1
      /\ (forall nodeID, nodeID ∈ added ->
            exists nodeMetric metricValue,
              (nodeID, nodeMetric) ∈ metrics
              /\ getMetric nodeMetric MetricFreeMemoryBytes
                 = Returns (metricValue, None)
              /\ memory < metricValue)
      /\ exclude0 ⊆ exclude.
Proof.
  induction metrics as [|[nodeID nodeMetric] rest IH];
    intros allocated0 exclude0 allocated exclude H; simpl in H.
  - injection H as <- <-. exists []. rewrite app_nil_r.
    split; [reflexivity|]. split; [constructor|].
    split; [intros ? Hin; inversion Hin | reflexivity].
  - destruct (getMetric nodeMetric MetricFreeMemoryBytes)
      as [[metricValue [e|]]| |] eqn:Hget; try discriminate.
    + apply IH in H as (added & -> & Hsub & Hwhy & Hex).
      exists added. split; [reflexivity|].
      split; [simpl; apply sublist_cons; exact Hsub|].
      split; [|set_solver].
      intros n Hn. destruct (Hwhy n Hn) as (m & v & Hin & Hm & Hv).
      exists m, v. split; [right; exact Hin | auto].
    + destruct (Z.ltb_spec memory metricValue) as [Hlt|Hge].
      * apply IH in H as (added & -> & Hsub & Hwhy & Hex).
        exists (nodeID :: added). rewrite <- app_assoc.
        split; [reflexivity|].
        split; [simpl; apply sublist_skip; exact Hsub|].
        split; [|exact Hex].
        intros n Hn. apply elem_of_cons in Hn as [->|Hn].
        -- exists nodeMetric, metricValue. split; [left | auto].
        -- destruct (Hwhy n Hn) as (m & v & Hin & Hm & Hv).
           exists m, v. split; [right; exact Hin | auto].
      * apply IH in H as (added & -> & Hsub & Hwhy & Hex).
        exists added. split; [reflexivity|].
        split; [simpl; apply sublist_cons; exact Hsub|].
        split; [|set_solver].
        intros n Hn. destruct (Hwhy n Hn) as (m & v & Hin & Hm & Hv).
        exists m, v. split; [right; exact Hin | auto].
Qed.

(** The loop of [buildPeers] panics when the nodes do not fit in
    [peers.Servers]. *)
Lemma fillServers_overflow (leaderIdx : nat) (nodes : list proto.Node) :
  forall idx servers leader,
    (idx <= length servers)%nat ->
    (length servers < idx + length nodes)%nat ->
    fillServers leaderIdx nodes idx servers leader = Panics.
Proof.
  induction nodes as [|node rest IH]; intros idx servers leader Hidx Hover;
    simpl in *.
  - lia.
  - destruct (Nat.leb_spec (length servers) idx) as [|Hlt]; [reflexivity|].
    apply IH; rewrite length_insert; lia.
Qed.

(** With the local keys at hand, [buildPeers] panics whenever it is given more
    nodes than allocated ids: every node is copied, whether allocated or not. *)
Lemma buildPeers_surplus_panics (env : Env) (term : Z)
    (nodes : list proto.Node) (allocated : list string) (pubKey privKey : string) :
  GetLocalPublicKey env = inr pubKey ->
  GetLocalPrivateKey env = inr privKey ->
  (length allocated < length nodes)%nat ->
  buildPeers env term nodes allocated = Panics.
Proof.
  intros Hpub Hpriv Hsurplus. unfold buildPeers. rewrite Hpub, Hpriv.
  destruct (length allocated) as [|n] eqn:Hlen; [reflexivity|].
  rewrite fillServers_overflow; [reflexivity | lia |].
  rewrite length_replicate. lia.
Qed.

(** Two replicas with a floor of 1 GB, [n1] reporting exactly 1 GB: the first
    round excludes [n1]; the second asks for four neighbours, allocates [n2]
    and [n3], and panics in [buildPeers] over the four nodes. *)
Lemma unhealthy_node_allocation_panics :
  allocateNodes (scenarioEnv n1AtFloor noReject) emptyService 0 "db1"
    (wt.mkResourceMeta 2 GB) = Panics.
Proof. vm_compute. reflexivity. Qed.

Lemma omap_id_Some {A} (l : list A) : omap id (Some <$> l) = l.
Proof. induction l as [|x l IH]; simpl; [reflexivity | f_equal; exact IH]. Qed.

(** A peer set that [buildPeers] returns without error holds the servers of
    [nodes], in their order, followed by the entries of [peers.Servers] that
    were never written. *)
Lemma buildPeers_success (env : Env) (term : Z) (nodes : list proto.Node)
    (allocated : list string) (peers : option kayak.Peers) :
  buildPeers env term nodes allocated = Returns (peers, None) ->
  exists p,
    peers = Some p
    /\ (0 < length allocated)%nat
    /\ (length nodes <= length allocated)%nat
    /\ kayak.Term p = term
    /\ kayak.Servers p
       = (Some <$> serversFrom (randDraw env mod length allocated) 0 nodes)
         ++ replicate (length allocated - length nodes) None
    /\ kayak.Leader p
       = if decide (randDraw env mod length allocated < length nodes)%nat
         then Some (randDraw env mod length allocated)%nat else None.
Proof.
  unfold buildPeers. intros H.
  destruct (GetLocalPublicKey env) as [?|pubKey]; [discriminate|].
  destruct (GetLocalPrivateKey env) as [?|privKey]; [discriminate|].
  destruct (length allocated) as [|n] eqn:Hlen; [discriminate|].
  set (leaderIdx := (randDraw env mod S n)%nat) in *.
  destruct (fillServers leaderIdx nodes 0 _ None) as [[servers leader]| |]
    eqn:Hfill; try discriminate.
  apply fillServers_spec in Hfill; [|lia].
  rewrite length_replicate, Nat.add_0_l, take_0, app_nil_l in Hfill.
  destruct Hfill as (Hfit & -> & ->).
  destruct (PeersSign env privKey _) as [?|sig]; [discriminate|].
  injection H as <-. eexists. split; [reflexivity|].
  cbn [kayak.Term kayak.Servers kayak.Leader].
  split; [lia|]. split; [exact Hfit|]. split; [reflexivity|].
  split.
  - f_equal.
    change (None :: replicate n None)
      with (replicate (S n) (@None kayak.Server)).
    apply drop_replicate.
  - repeat case_decide; try reflexivity; lia.
Qed.

(** The candidates of a round are neighbours the ring returned. *)
Lemma suitable_subseteq (exclude : gset string) (nodes : list proto.Node)
    (nodeID : string) :
  nodeID ∈ suitable exclude nodes -> nodeID ∈ proto.ID <$> nodes.
Proof.
  unfold suitable. rewrite !list_elem_of_fmap.
  intros (node & -> & Hin). apply list_elem_of_filter in Hin as [_ Hin]. eauto.
Qed.

(** A round that returns a peer set without error: the ring returned exactly
    N neighbours, whose ids are, up to order, the N nodes the round allocated;
    every one of them passed the memory check, and the peer set holds their
    servers, in the order of the ring, with the leader among them. *)
Lemma allocationRound_success (env : Env) (i : nat) (lastTerm : Z)
    (dbID : string) (rm : wt.ResourceMeta) (curRange : Z)
    (exclude : gset string) (peers : option kayak.Peers) :
  MetricsContract env ->
  1 <= wt.Node rm ->
  allocationRound env i lastTerm dbID rm curRange exclude
  = RoundReturn (peers, None) ->
  exists p leaderIdx allocated exclude',
    peers = Some p
    /\ Z.of_nat (length (GetNeighbors env i dbID curRange)) = wt.Node rm
    /\ (leaderIdx < length (GetNeighbors env i dbID curRange))%nat
    /\ kayak.Servers p
       = Some <$> serversFrom leaderIdx 0 (GetNeighbors env i dbID curRange)
    /\ kayak.Leader p = Some leaderIdx
    /\ kayak.Term p = (lastTerm + 1) mod 2 ^ 64
    /\ checkNodes (wt.Memory rm) (roundMetrics env i dbID curRange exclude)
         ([], exclude) = Returns (allocated, exclude')
    /\ proto.ID <$> GetNeighbors env i dbID curRange
       ≡ₚ take (Z.to_nat (wt.Node rm)) allocated
    /\ NoDup (proto.ID <$> GetNeighbors env i dbID curRange)
    /\ forall nodeID, nodeID ∈ proto.ID <$> GetNeighbors env i dbID curRange ->
         passedMemoryCheck (roundMetrics env i dbID curRange exclude)
           (wt.Memory rm) nodeID.
Proof.
  intros Hcontract HN. unfold allocationRound, roundMetrics, roundCandidates.
  set (nodes := GetNeighbors env i dbID curRange).
  set (nodeIDs := suitable exclude nodes).
  destruct (Z.ltb_spec (Z.of_nat (length nodeIDs)) (wt.Node rm)); [discriminate|].
  destruct (checkNodes _ _ _) as [[allocated exclude']| |] eqn:Hcheck;
    try discriminate.
  destruct (Z.leb_spec (wt.Node rm) (Z.of_nat (length allocated))) as [Hgot|];
    [|discriminate].
  destruct (buildPeers _ _ _ _) as [r| |] eqn:Hbuild; try discriminate.
  intros Hr. injection Hr as ->.
  pose proof Hcheck as Hspec.
  apply checkNodes_spec in Hspec as (added & Halloc & Hsub & Hwhy & _).
  simpl in Halloc. subst added.
  destruct (Hcontract i nodeIDs) as [Hnodup Hrequested].
  apply buildPeers_success in Hbuild
    as (p & -> & Hpos & Hfit & Hterm & Hservers & Hleader).
  set (allocN := take (Z.to_nat (wt.Node rm)) allocated) in *.
  assert (length allocN = Z.to_nat (wt.Node rm)) as HlenN.
  { unfold allocN. rewrite length_take. lia. }
  assert (NoDup allocN) as HnodupN.
  { apply (sublist_NoDup allocN allocated); [|apply sublist_take].
    apply (sublist_NoDup allocated _ Hnodup Hsub). }
  assert (forall x, x ∈ allocN -> x ∈ proto.ID <$> nodes) as Hin.
  { intros x Hx. apply (suitable_subseteq exclude). apply Hrequested.
    apply (elem_of_sublist allocated); [|exact Hsub].
    apply (subseteq_take _ _ _ Hx). }
  assert (allocN ≡ₚ proto.ID <$> nodes) as Hperm.
  { apply submseteq_length_Permutation.
    - apply NoDup_submseteq; assumption.
    - rewrite length_fmap. exact Hfit. }
  assert (length nodes = length allocN) as Hsame.
  { rewrite Hperm, length_fmap. reflexivity. }
  exists p, (randDraw env mod length allocN)%nat, allocated, exclude'.
  split; [reflexivity|]. split; [lia|].
  assert (randDraw env mod length allocN < length nodes)%nat as Hli.
  { rewrite Hsame. apply Nat.mod_upper_bound. lia. }
  split; [exact Hli|]. split.
  - rewrite Hservers, Hsame, Nat.sub_diag. simpl. apply app_nil_r.
  - split; [rewrite Hleader, decide_True by exact Hli; reflexivity|].
    split; [exact Hterm|].
    split; [reflexivity|].
    split; [symmetry; exact Hperm|].
    split; [rewrite <- Hperm; exact HnodupN|].
    intros nodeID HnodeID. rewrite <- Hperm in HnodeID.
    apply subseteq_take in HnodeID.
    destruct (Hwhy nodeID HnodeID) as (m & v & Hm & Hget & Hv).
    exists m, v. auto.
Qed.

(** An allocation that returns without error returns what one of its rounds
    returned. *)
Lemma allocationLoop_success (env : Env) (lastTerm : Z) (dbID : string)
    (rm : wt.ResourceMeta) (peers : option kayak.Peers) (rounds : nat) :
  forall i curRange exclude,
    allocationLoop env rounds i lastTerm dbID rm curRange exclude
    = Returns (peers, None) ->
    exists j curRange' exclude',
      allocationRound env j lastTerm dbID rm curRange' exclude'
      = RoundReturn (peers, None).
Proof.
  induction rounds as [|rounds IH]; intros i curRange exclude H; simpl in H.
  - discriminate.
  - destruct (allocationRound env i lastTerm dbID rm curRange exclude)
      as [r|curRange' exclude'|] eqn:Hround.
    + injection H as ->. eauto.
    + apply IH in H. exact H.
    + discriminate.
Qed.

Lemma scenarioEnv_contract (free : string -> Z)
    (rpc : string -> option wt.UpdateService -> option Error) :
  MetricsContract (scenarioEnv free rpc).
Proof.
  intros i nodeIDs. simpl. rewrite <- list_fmap_compose.
  replace (fst ∘ (λ nodeID : string, (nodeID, memoryMetric (free nodeID))))
    with (@id string) by reflexivity.
  rewrite list_fmap_id. split.
  - apply NoDup_remove_dups.
  - intros nodeID. apply elem_of_remove_dups.
Qed.

(** C2: when CreateDatabase succeeds for a request of N replicas, the peer set
    of the returned instance has exactly N servers, none of them missing;
    exactly one of them has the leader role, and [peers.Leader] refers to it;
    the servers have different node ids; and they are, up to order, the N nodes
    that a round of the allocation allocated, each of which passed the memory
    check of that round. *)
Theorem CreateDatabase_peers (env : Env) (s : DBService)
    (req : CreateDatabaseRequest) (r : Reply) :
  MetricsContract env ->
  CreateDatabase env s req = Returns r ->
  err r = None ->
  exists instance peers leader,
    InstanceMeta r = Some instance
    /\ wt.Peers instance = Some peers
    /\ Z.of_nat (length (kayak.Servers peers)) = wt.Node (ResourceMeta req)
    /\ kayak.Servers peers = Some <$> servers peers
    /\ leaders peers = [leader]
    /\ kayak.leaderServer peers = Some leader
    /\ NoDup (kayak.ID <$> servers peers)
    /\ exists round curRange exclude allocated exclude',
         checkNodes (wt.Memory (ResourceMeta req))
           (roundMetrics env round (wt.DatabaseID instance) curRange exclude)
           ([], exclude) = Returns (allocated, exclude')
         /\ kayak.ID <$> servers peers
            ≡ₚ take (Z.to_nat (wt.Node (ResourceMeta req))) allocated
         /\ forall srv, srv ∈ servers peers ->
              passedMemoryCheck
                (roundMetrics env round (wt.DatabaseID instance) curRange exclude)
                (wt.Memory (ResourceMeta req)) (kayak.ID srv).
Proof.
  intros Hcontract Hcall Herr. unfold CreateDatabase in Hcall.
  destruct (generateDatabaseID env s (GetNodeID req)) as [[dbID [?|]]| |];
    try discriminate; [injection Hcall as <-; discriminate|].
  destruct (allocateNodes env s 0 dbID (ResourceMeta req))
    as [[peers [?|]]| |] eqn:Halloc;
    try discriminate; [injection Hcall as <-; discriminate|].
  destruct (generateGenesisBlock env dbID (ResourceMeta req)) as [genesis [?|]];
    [injection Hcall as <-; discriminate|].
  destruct (peersToNodes peers) as [nodes| |]; try discriminate.
  destruct (batchSendSvcReq env _ _ nodes) as [[?|] sent];
    [injection Hcall as <-; discriminate|].
  destruct (ServiceMapSet env s _) as [?|s'];
    [injection Hcall as <-; discriminate|].
  injection Hcall as <-. clear Herr.
  unfold allocateNodes in Halloc.
  destruct (Z.leb_spec (wt.Node (ResourceMeta req)) 0) as [|HN]; [discriminate|].
  apply allocationLoop_success in Halloc as (j & curRange & exclude & Hround).
  apply allocationRound_success in Hround
    as (p & leaderIdx & allocated & exclude' & -> & Hlen & Hli & Hservers
        & Hleader & _ & Hcheck & Hperm & Hnodup & Hpassed);
    [|exact Hcontract|lia].
  set (nodes' := GetNeighbors env j dbID curRange) in *.
  destruct (nodes' !! leaderIdx) as [leaderNode|] eqn:Hnode;
    [|apply lookup_ge_None in Hnode; lia].
  assert (servers p = serversFrom leaderIdx 0 nodes') as Hsrv.
  { unfold servers. rewrite Hservers. apply omap_id_Some. }
  exists (wt.mkServiceInstance dbID (Some p) (ResourceMeta req) None), p,
    (serverOf leaderIdx leaderIdx leaderNode).
  cbn [InstanceMeta wt.Peers wt.DatabaseID].
  split; [reflexivity|]. split; [reflexivity|].
  split; [rewrite Hservers, length_fmap, serversFrom_length; exact Hlen|].
  split; [rewrite Hsrv; exact Hservers|].
  split.
  { unfold leaders. rewrite Hsrv, serversFrom_leaders, Nat.sub_0_r, Hnode.
    rewrite decide_True by lia. reflexivity. }
  split.
  { unfold kayak.leaderServer. rewrite Hleader, Hservers, list_lookup_fmap.
    rewrite serversFrom_lookup, Hnode. reflexivity. }
  split; [rewrite Hsrv, serversFrom_ids; exact Hnodup|].
  exists j, curRange, exclude, allocated, exclude'.
  split; [exact Hcheck|].
  split; [rewrite Hsrv, serversFrom_ids; exact Hperm|].
  intros srv Hin. apply Hpassed. rewrite <- (serversFrom_ids leaderIdx nodes' 0).
  rewrite <- Hsrv. apply list_elem_of_fmap_2. exact Hin.
Qed.

Lemma CreateDatabase_peers_witness :
  match CreateDatabase (scenarioEnv (λ _, 2 * GB) noReject) emptyService
          (mkCreateDatabaseRequest "client" (wt.mkResourceMeta 2 GB)) with
  | Returns r =>
    err r = None
    /\ exists instance peers leader,
         InstanceMeta r = Some instance
         /\ wt.Peers instance = Some peers
         /\ Z.of_nat (length (kayak.Servers peers)) = 2
         /\ kayak.Servers peers = Some <$> servers peers
         /\ leaders peers = [leader]
         /\ kayak.leaderServer peers = Some leader
         /\ NoDup (kayak.ID <$> servers peers)
  | _ => False
  end.
Proof.
  destruct (CreateDatabase (scenarioEnv (λ _, 2 * GB) noReject) emptyService
              (mkCreateDatabaseRequest "client" (wt.mkResourceMeta 2 GB)))
    as [r| |] eqn:Hcall; [|vm_compute in Hcall; discriminate..].
  assert (err r = None) as Herr.
  { vm_compute in Hcall. injection Hcall as <-. reflexivity. }
  split; [exact Herr|].
  destruct (CreateDatabase_peers _ _ _ r (scenarioEnv_contract _ _) Hcall Herr)
    as (instance & peers & leader & H1 & H2 & H3 & H4 & H5 & H6 & H7 & _).
  exists instance, peers, leader. auto 10.
Defined.

(** A round with fewer than N candidates goes on to the next one with the
    range and the exclusion set it started from. *)
Lemma short_round_keeps_range (env : Env) (i : nat) (lastTerm : Z)
    (dbID : string) (rm : wt.ResourceMeta) (curRange : Z)
    (exclude : gset string) :
  Z.of_nat (length (suitable exclude (GetNeighbors env i dbID curRange)))
  < wt.Node rm ->
  allocationRound env i lastTerm dbID rm curRange exclude
  = RoundNext curRange exclude.
Proof.
  intros Hshort. unfold allocationRound.
  destruct (Z.ltb_spec
              (Z.of_nat (length (suitable exclude (GetNeighbors env i dbID curRange))))
              (wt.Node rm)); [reflexivity | lia].
Qed.






(** *** Database ids *)

Lemma firstFreeID_spec (s : DBService) (candidates : list string) :
  match firstFreeID s candidates with
  | Returns (dbID, e) =>
    e = None
    /\ exists taken rest,
         candidates = taken ++ dbID :: rest
         /\ ServiceMap s !! dbID = None
         /\ forall id, id ∈ taken -> is_Some (ServiceMap s !! id)
  | Blocks => forall id, id ∈ candidates -> is_Some (ServiceMap s !! id)
  | Panics => False
  end.
Proof.
  induction candidates as [|dbID rest IH]; simpl.
  - intros id Hid. apply elem_of_nil in Hid. contradiction.
  - unfold ServiceMapGet.
    destruct (ServiceMap s !! dbID) as [instance|] eqn:Hget.
    + destruct (firstFreeID s rest) as [[found e]| |].
      * destruct IH as (-> & taken & rest' & -> & Hfree & Htaken).
        split; [reflexivity|].
        exists (dbID :: taken), rest'. split; [reflexivity|]. split; [exact Hfree|].
        intros id Hid. apply elem_of_cons in Hid as [->|Hid]; [eauto|auto].
      * exact IH.
      * intros id Hid. apply elem_of_cons in Hid as [->|Hid]; [eauto|auto].
    + split; [reflexivity|].
      exists [], rest. split; [reflexivity|]. split; [exact Hget|].
      intros id Hid. apply elem_of_nil in Hid. contradiction.
Qed.

(** X12: the id of a new database is the first mined id that is free.
    generateDatabaseID never panics and never returns an error.  When one of
    the ids mined for the requesting node is not in the service map, it
    returns the first such id: the id is not in the service map and every id
    mined before it is.  When all of them are taken it does not return: it
    waits for a further nonce. *)
Theorem generateDatabaseID_first_free (env : Env) (s : DBService)
    (reqNodeID : string) :
  ((exists id, id ∈ minedIDs env reqNodeID /\ ServiceMap s !! id = None) ->
   exists dbID taken rest,
     generateDatabaseID env s reqNodeID = Returns (dbID, None)
     /\ minedIDs env reqNodeID = taken ++ dbID :: rest
     /\ ServiceMap s !! dbID = None
     /\ forall id, id ∈ taken -> is_Some (ServiceMap s !! id))
  /\ ((forall id, id ∈ minedIDs env reqNodeID -> is_Some (ServiceMap s !! id)) ->
      generateDatabaseID env s reqNodeID = Blocks).
Proof.
  unfold generateDatabaseID.
  pose proof (firstFreeID_spec s (minedIDs env reqNodeID)) as Hspec.
  split.
  - intros (id & Hid & Hfree).
    destruct (firstFreeID s (minedIDs env reqNodeID)) as [[dbID e]| |].
    + destruct Hspec as (-> & taken & rest & Heq & Hget & Htaken).
      exists dbID, taken, rest. auto.
    + contradiction.
    + destruct (Hspec id Hid) as [instance Hinst]. congruence.
  - intros Hall.
    destruct (firstFreeID s (minedIDs env reqNodeID)) as [[dbID e]| |].
    + destruct Hspec as (_ & taken & rest & Heq & Hget & _).
      destruct (Hall dbID) as [instance Hinst]; [|congruence].
      rewrite Heq. apply elem_of_app. right. apply elem_of_cons. left. reflexivity.
    + contradiction.
    + reflexivity.
Qed.

(** A service that already hosts the database [db1]. *)
Lemma generateDatabaseID_first_free_witness :
  generateDatabaseID (scenarioEnv (λ _, 2 * GB) noReject)
    (mkDBService DefaultAllocationRounds
       {["db1" := wt.mkServiceInstance "db1" None zeroResourceMeta None]})
    "client"
  = Returns ("db2", None)
  /\ generateDatabaseID (scenarioEnv (λ _, 2 * GB) noReject)
       (mkDBService DefaultAllocationRounds
          (<["db2" := wt.mkServiceInstance "db2" None zeroResourceMeta None]>
             {["db1" := wt.mkServiceInstance "db1" None zeroResourceMeta None]}))
       "client"
     = Blocks.
Proof.
  split.
  - destruct (proj1 (generateDatabaseID_first_free
                       (scenarioEnv (λ _, 2 * GB) noReject)
                       (mkDBService DefaultAllocationRounds
                          {["db1" := wt.mkServiceInstance "db1" None zeroResourceMeta None]})
                       "client"))
      as (dbID & taken & rest & Hret & Hmined & Hfree & Htaken).
    + exists "db2". split; [|reflexivity].
      simpl. apply elem_of_cons. right. apply elem_of_cons. left. reflexivity.
    + rewrite Hret. f_equal. f_equal.
      simpl in Hmined.
      destruct taken as [|t1 [|t2 taken]].
      * injection Hmined as <- _. simpl in Hfree. discriminate.
      * injection Hmined as _ <- _. reflexivity.
      * injection Hmined as _ _ Habs. destruct taken; discriminate.
  - apply (proj2 (generateDatabaseID_first_free _ _ _)).
    intros id Hid. simpl in Hid.
    apply elem_of_cons in Hid as [->|Hid]; [eexists; reflexivity|].
    apply elem_of_cons in Hid as [->|Hid]; [eexists; reflexivity|].
    apply elem_of_nil in Hid. contradiction.
Defined.

(** *** Batches of worker requests *)

(** X13: what a batch sends and reports.  batchSendSvcReq sends the request
    to every node once; it reports the error of the first batch and never one
    of the rollback.  When it reports no error nothing else is sent; when it
    reports one, the rollback request follows to every node of the batch, the
    ones whose request succeeded and the ones whose request failed alike.
    When every reply arrives exactly once, a reported error is the answer of
    one of the nodes to the request, and a batch whose nodes all accept the
    request, or that has no node, reports none. *)
Theorem batchSendSvcReq_compensates (env : Env)
    (req rollbackReq : option wt.UpdateService) (nodes : list string) :
  (batchSendSvcReq env req rollbackReq nodes).1
  = (batchSendSingleSvcReq env req nodes).1
  /\ (batchSendSvcReq env req rollbackReq nodes).2
     = ((λ node, (node, req)) <$> nodes)
       ++ match (batchSendSvcReq env req rollbackReq nodes).1 with
          | Some _ => (λ node, (node, rollbackReq)) <$> nodes
          | None => []
          end
  /\ (ArrivalContract env ->
      (forall e, (batchSendSvcReq env req rollbackReq nodes).1 = Some e ->
         exists node, node ∈ nodes /\ CallNode env node req = Some e)
      /\ ((forall node, node ∈ nodes -> CallNode env node req = None) ->
          batchSendSvcReq env req rollbackReq nodes
          = (None, (λ node, (node, req)) <$> nodes))).
Proof.
  assert ((batchSendSvcReq env req rollbackReq nodes).1
          = (batchSendSingleSvcReq env req nodes).1
          /\ (batchSendSvcReq env req rollbackReq nodes).2
             = ((λ node, (node, req)) <$> nodes)
               ++ match (batchSendSingleSvcReq env req nodes).1 with
                  | Some _ => (λ node, (node, rollbackReq)) <$> nodes
                  | None => []
                  end) as [Herr Hsent].
  { unfold batchSendSvcReq, batchSendSingleSvcReq. cbv beta iota zeta.
    destruct (default None (head _)); simpl; [auto|].
    rewrite app_nil_r. auto. }
  split; [exact Herr|]. split; [rewrite Herr; exact Hsent|].
  intros Harrival. split.
  - intros e He. rewrite Herr in He.
    apply (batchSendSingleSvcReq_sound env req nodes e Harrival He).
  - intros Hall.
    destruct (batchSendSingleSvcReq env req nodes).1 as [e|] eqn:Hfirst.
    + destruct (batchSendSingleSvcReq_sound env req nodes e Harrival Hfirst)
        as (node & Hnode & Hcall).
      rewrite (Hall node Hnode) in Hcall. discriminate.
    + destruct (batchSendSvcReq env req rollbackReq nodes) as [err sent].
      simpl in Herr, Hsent. rewrite Herr, Hsent, app_nil_r. reflexivity.
Qed.

Lemma noReject_arrival : ArrivalContract (scenarioEnv (λ _, 2 * GB) noReject).
Proof. intros nodes. reflexivity. Qed.

Lemma batchSendSvcReq_compensates_witness :
  batchSendSvcReq (scenarioEnv (λ _, 2 * GB) noReject) (Some createReq)
    (Some dropReq) ["n1"; "n2"]
  = (None, [("n1", Some createReq); ("n2", Some createReq)]).
Proof.
  apply (proj2 (proj2 (proj2 (batchSendSvcReq_compensates
                                (scenarioEnv (λ _, 2 * GB) noReject)
                                (Some createReq) (Some dropReq) ["n1"; "n2"]))
                  noReject_arrival)).
  intros node Hnode. reflexivity.
Defined.

(** *** Bookkeeping of CreateDatabase, DropDatabase and GetDatabase *)

Lemma serverIDs_spec (l : list (option kayak.Server)) (ids : list string) :
  serverIDs l = Returns ids ->
  l = Some <$> omap id l /\ ids = kayak.ID <$> omap id l.
Proof.
  revert ids. induction l as [|[srv|] rest IH]; intros ids H; simpl in H.
  - injection H as <-. split; reflexivity.
  - destruct (serverIDs rest) as [ids'| |]; try discriminate.
    injection H as <-. destruct (IH ids' eq_refl) as [Hrest Hids].
    simpl. split; [f_equal; exact Hrest | f_equal; exact Hids].
  - discriminate.
Qed.

Lemma peersToNodes_spec (peers : option kayak.Peers) (nodes : list string) :
  peersToNodes peers = Returns nodes ->
  nodes = kayak.ID <$> match peers with Some p => servers p | None => [] end.
Proof.
  destruct peers as [p|]; simpl; intros H.
  - apply serverIDs_spec in H as [_ H]. exact H.
  - injection H as <-. reflexivity.
Qed.

(** X14: a failed CreateDatabase records nothing.  When CreateDatabase
    returns an error, the service map is as it was and the response carries
    no instance.  Either no worker was called; or the batch reported the
    error, and then every node of the peer set was sent the CreateDB request
    and after it the DropDB request for the same database; or the service map
    refused the instance, and then every node was sent the CreateDB request
    and none a DropDB request. *)
Theorem CreateDatabase_failure (env : Env) (s : DBService)
    (req : CreateDatabaseRequest) (r : Reply) (e : Error) :
  CreateDatabase env s req = Returns r ->
  err r = Some e ->
  service r = s
  /\ InstanceMeta r = None
  /\ (calls r = []
      \/ exists nodes init rollback,
           wt.Op init = wt.CreateDB /\ wt.Op rollback = wt.DropDB
           /\ wt.DatabaseID (wt.Instance rollback)
              = wt.DatabaseID (wt.Instance init)
           /\ nodes = kayak.ID <$> match wt.Peers (wt.Instance init) with
                                   | Some p => servers p
                                   | None => []
                                   end
           /\ ((batchSendSingleSvcReq env (Some init) nodes).1 = Some e
               /\ calls r = ((λ node, (node, Some init)) <$> nodes)
                            ++ ((λ node, (node, Some rollback)) <$> nodes)
               \/ (batchSendSingleSvcReq env (Some init) nodes).1 = None
                  /\ calls r = (λ node, (node, Some init)) <$> nodes
                  /\ ServiceMapSetErr env
                       (wt.mkServiceInstance (wt.DatabaseID (wt.Instance init))
                          (wt.Peers (wt.Instance init)) (ResourceMeta req) None)
                     = Some e)).
Proof.
  intros Hcall Herr. unfold CreateDatabase in Hcall.
  destruct (generateDatabaseID env s (GetNodeID req)) as [[dbID [e1|]]| |];
    try discriminate.
  { injection Hcall as <-. simpl. auto. }
  destruct (allocateNodes env s 0 dbID (ResourceMeta req)) as [[peers [e1|]]| |];
    try discriminate.
  { injection Hcall as <-. simpl. auto. }
  destruct (generateGenesisBlock env dbID (ResourceMeta req))
    as [genesisBlock [e1|]].
  { injection Hcall as <-. simpl. auto. }
  destruct (peersToNodes peers) as [nodes| |] eqn:Hnodes; try discriminate.
  apply peersToNodes_spec in Hnodes.
  set (init := wt.mkUpdateService wt.CreateDB
                 (wt.mkServiceInstance dbID peers zeroResourceMeta genesisBlock))
    in *.
  set (rollback := wt.mkUpdateService wt.DropDB
                     (wt.mkServiceInstance dbID None zeroResourceMeta None)) in *.
  unfold batchSendSvcReq in Hcall.
  destruct (batchSendSingleSvcReq env (Some init) nodes) as [err1 sent]
    eqn:Hbatch.
  assert (sent = (λ node, (node, Some init)) <$> nodes) as ->.
  { unfold batchSendSingleSvcReq in Hbatch. injection Hbatch as _ <-.
    reflexivity. }
  destruct err1 as [e1|].
  - injection Hcall as <-. simpl in Herr |- *. injection Herr as ->.
    split; [reflexivity|]. split; [reflexivity|]. right.
    exists nodes, init, rollback.
    split; [reflexivity|]. split; [reflexivity|]. split; [reflexivity|].
    split; [exact Hnodes|]. left.
    split; [exact (f_equal fst Hbatch)|reflexivity].
  - unfold ServiceMapSet in Hcall.
    destruct (ServiceMapSetErr env _) as [e1|] eqn:Hset.
    + injection Hcall as <-. simpl in Herr |- *. injection Herr as ->.
      split; [reflexivity|]. split; [reflexivity|]. right.
      exists nodes, init, rollback.
      split; [reflexivity|]. split; [reflexivity|]. split; [reflexivity|].
      split; [exact Hnodes|]. right.
      split; [exact (f_equal fst Hbatch)|]. split; [reflexivity|exact Hset].
    + injection Hcall as <-. simpl in Herr. discriminate.
Qed.

Lemma CreateDatabase_failure_witness :
  match CreateDatabase (scenarioEnv (λ _, GB) noReject) emptyService
          (mkCreateDatabaseRequest "client" (wt.mkResourceMeta 2 GB)) with
  | Returns r =>
    err r = Some ErrDatabaseAllocation
    /\ service r = emptyService /\ InstanceMeta r = None
  | _ => False
  end.
Proof.
  destruct (CreateDatabase (scenarioEnv (λ _, GB) noReject) emptyService
              (mkCreateDatabaseRequest "client" (wt.mkResourceMeta 2 GB)))
    as [r| |] eqn:Hcall; try (vm_compute in Hcall; discriminate).
  assert (err r = Some ErrDatabaseAllocation) as Herr.
  { vm_compute in Hcall. injection Hcall as <-. reflexivity. }
  split; [exact Herr|].
  destruct (CreateDatabase_failure _ _ _ r _ Hcall Herr) as (Hs & Hmeta & _).
  split; assumption.
Defined.

(** X15: a successful CreateDatabase registers the database.  The id of the
    new instance is one of the ids mined for the requesting node and was not
    in the service map; afterwards the service map holds the instance under
    that id and every other entry as before, so that GetDatabase answers the
    instance.  The instance recorded and answered carries the requested
    resources and no genesis block; the instance sent to the workers carries
    the same peers with a signed genesis block and no resources.  Exactly one
    CreateDB request went to each server of the peer set, in the order of the
    peer set, and nothing else was sent. *)
Theorem CreateDatabase_registers (env : Env) (s : DBService)
    (req : CreateDatabaseRequest) (r : Reply) :
  CreateDatabase env s req = Returns r ->
  err r = None ->
  exists instance genesis signature,
    InstanceMeta r = Some instance
    /\ wt.DatabaseID instance ∈ minedIDs env (GetNodeID req)
    /\ ServiceMap s !! wt.DatabaseID instance = None
    /\ service r
       = mkDBService (AllocationRounds s)
           (<[wt.DatabaseID instance := instance]> (ServiceMap s))
    /\ GetDatabase (service r) (wt.DatabaseID instance)
       = mkReply (service r) [] (Some instance) None
    /\ (forall other, other <> wt.DatabaseID instance ->
          GetDatabase (service r) other
          = mkReply (service r) [] (InstanceMeta (GetDatabase s other))
              (err (GetDatabase s other)))
    /\ wt.InstanceResourceMeta instance = ResourceMeta req
    /\ wt.GenesisBlock instance = None
    /\ wt.BlockSignature genesis = Some signature
    /\ calls r
       = (λ srv,
            (kayak.ID srv,
             Some (wt.mkUpdateService wt.CreateDB
                     (wt.mkServiceInstance (wt.DatabaseID instance)
                        (wt.Peers instance) zeroResourceMeta (Some genesis)))))
         <$> match wt.Peers instance with Some p => servers p | None => [] end.
Proof.
  intros Hcall Herr. unfold CreateDatabase in Hcall.
  pose proof (firstFreeID_spec s (minedIDs env (GetNodeID req))) as Hid.
  unfold generateDatabaseID in Hcall.
  destruct (firstFreeID s (minedIDs env (GetNodeID req))) as [[dbID [e1|]]| |];
    try discriminate.
  { injection Hcall as <-. discriminate. }
  destruct Hid as (_ & taken & rest & Hmined & Hfree & _).
  destruct (allocateNodes env s 0 dbID (ResourceMeta req)) as [[peers [e1|]]| |];
    try discriminate.
  { injection Hcall as <-. discriminate. }
  unfold generateGenesisBlock in Hcall.
  destruct (GetLocalPublicKey env) as [e1|pubKey];
    [injection Hcall as <-; discriminate|].
  destruct (GetLocalPrivateKey env) as [e1|privKey];
    [injection Hcall as <-; discriminate|].
  destruct (GetLocalNodeID env) as [e1|nodeID];
    [injection Hcall as <-; discriminate|].
  destruct (PackAndSignBlock env privKey _) as [e1|sig];
    [injection Hcall as <-; discriminate|].
  destruct (peersToNodes peers) as [nodes| |] eqn:Hnodes; try discriminate.
  apply peersToNodes_spec in Hnodes.
  unfold batchSendSvcReq, batchSendSingleSvcReq in Hcall.
  cbv beta zeta in Hcall.
  destruct (default None (head _)) as [e1|];
    [injection Hcall as <-; discriminate|].
  unfold ServiceMapSet in Hcall.
  destruct (ServiceMapSetErr env _) as [e1|];
    [injection Hcall as <-; discriminate|].
  injection Hcall as <-. cbn [wt.DatabaseID] in *.
  exists (wt.mkServiceInstance dbID peers (ResourceMeta req) None),
    (wt.mkBlock 0x01000000 nodeID "" "" (now env) pubKey (Some sig)), sig.
  cbn [InstanceMeta service calls wt.DatabaseID wt.Peers
                            wt.InstanceResourceMeta wt.GenesisBlock].
  split; [reflexivity|]. split.
  { rewrite Hmined. apply elem_of_app. right. apply elem_of_cons. left.
    reflexivity. }
  split; [exact Hfree|]. split; [reflexivity|]. split.
  { unfold GetDatabase, ServiceMapGet. cbn [ServiceMap].
    rewrite lookup_insert_eq. reflexivity. }
  split.
  { intros other Hother. unfold GetDatabase, ServiceMapGet. cbn [ServiceMap].
    rewrite lookup_insert_ne by (intros Heq; apply Hother; symmetry; exact Heq).
    destruct (ServiceMap s !! other); reflexivity. }
  split; [reflexivity|]. split; [reflexivity|]. split; [reflexivity|].
  rewrite Hnodes, <- list_fmap_compose. reflexivity.
Qed.

Lemma CreateDatabase_registers_witness :
  match CreateDatabase (scenarioEnv (λ _, 2 * GB) noReject) emptyService
          (mkCreateDatabaseRequest "client" (wt.mkResourceMeta 2 GB)) with
  | Returns r =>
    exists instance,
      InstanceMeta r = Some instance
      /\ GetDatabase (service r) (wt.DatabaseID instance)
         = mkReply (service r) [] (Some instance) None
      /\ wt.InstanceResourceMeta instance = wt.mkResourceMeta 2 GB
  | _ => False
  end.
Proof.
  destruct (CreateDatabase (scenarioEnv (λ _, 2 * GB) noReject) emptyService
              (mkCreateDatabaseRequest "client" (wt.mkResourceMeta 2 GB)))
    as [r| |] eqn:Hcall; try (vm_compute in Hcall; discriminate).
  assert (err r = None) as Herr.
  { vm_compute in Hcall. injection Hcall as <-. reflexivity. }
  destruct (CreateDatabase_registers _ _ _ r Hcall Herr)
    as (instance & genesis & signature & Hmeta & _ & _ & _ & Hget & _ & Hres & _).
  exists instance. split; [exact Hmeta|]. split; [exact Hget|exact Hres].
Defined.

(** X16: what DropDatabase does to the service map and to the workers.  For
    an id that the service map does not hold it returns the no-such-database
    error without calling any worker.  For a registered database (none of
    whose servers is nil) it sends the DropDB request to every server of the
    recorded peer set, in order.  When
    the batch reports an error, DropDatabase returns it and keeps the entry,
    and every server has then also been sent a second request that is nil
    (the rollback request of this batch).  When it returns no error the entry
    is gone, so that GetDatabase answers no-such-database, and every other
    entry is as before. *)
Theorem DropDatabase_bookkeeping (env : Env) (s : DBService)
    (databaseID : string) :
  (ServiceMap s !! databaseID = None ->
   DropDatabase env s databaseID
   = Returns (mkReply s [] None (Some ErrNoSuchDatabase)))
  /\ forall instance nodes,
       ServiceMap s !! databaseID = Some instance ->
       peersToNodes (wt.Peers instance) = Returns nodes ->
       exists r,
         DropDatabase env s databaseID = Returns r
         /\ InstanceMeta r = None
         /\ match (batchSendSingleSvcReq env
                     (Some (wt.mkUpdateService wt.DropDB
                              (wt.mkServiceInstance databaseID None
                                 zeroResourceMeta None))) nodes).1 with
            | Some e =>
              err r = Some e
              /\ service r = s
              /\ calls r
                 = ((λ node,
                       (node,
                        Some (wt.mkUpdateService wt.DropDB
                                (wt.mkServiceInstance databaseID None
                                   zeroResourceMeta None)))) <$> nodes)
                   ++ ((λ node, (node, None)) <$> nodes)
            | None =>
              calls r
              = (λ node,
                   (node,
                    Some (wt.mkUpdateService wt.DropDB
                            (wt.mkServiceInstance databaseID None
                               zeroResourceMeta None)))) <$> nodes
              /\ (err r = None ->
                  GetDatabase (service r) databaseID
                  = mkReply (service r) [] None (Some ErrNoSuchDatabase)
                  /\ forall other, other <> databaseID ->
                       ServiceMap (service r) !! other = ServiceMap s !! other)
            end.
Proof.
  split.
  - intros Hget. unfold DropDatabase, ServiceMapGet. rewrite Hget. reflexivity.
  - intros instance nodes Hget Hnodes.
    unfold DropDatabase, ServiceMapGet. rewrite Hget, Hnodes.
    unfold batchSendSvcReq.
    destruct (batchSendSingleSvcReq env _ nodes) as [err1 sent] eqn:Hbatch.
    assert (sent = (λ node,
                      (node,
                       Some (wt.mkUpdateService wt.DropDB
                               (wt.mkServiceInstance databaseID None
                                  zeroResourceMeta None)))) <$> nodes) as ->.
    { unfold batchSendSingleSvcReq in Hbatch. injection Hbatch as _ <-.
      reflexivity. }
    destruct err1 as [e|]; eexists; (split; [reflexivity|]);
      (split; [reflexivity|]); cbn [fst err service calls].
    + split; [reflexivity|]. split; reflexivity.
    + split; [reflexivity|]. intros _. split.
      * unfold GetDatabase, ServiceMapGet, ServiceMapDelete. cbn [ServiceMap].
        rewrite lookup_delete_eq. reflexivity.
      * intros other Hother. unfold ServiceMapDelete. cbn [ServiceMap].
        apply lookup_delete_ne. congruence.
Qed.

Lemma DropDatabase_bookkeeping_witness :
  match DropDatabase (scenarioEnv (λ _, 2 * GB) n1RejectsDrop) serviceWithDb1
          "db1" with
  | Returns r =>
    err r = Some (ErrExternal 9)
    /\ service r = serviceWithDb1
    /\ (λ call : Call, (call.1, wt.Op <$> call.2)) <$> calls r
       = [("n1", Some wt.DropDB); ("n2", Some wt.DropDB);
          ("n1", None); ("n2", None)]
  | _ => False
  end.
Proof.
  destruct (proj2 (DropDatabase_bookkeeping
                     (scenarioEnv (λ _, 2 * GB) n1RejectsDrop) serviceWithDb1
                     "db1") db1Instance ["n1"; "n2"] eq_refl eq_refl)
    as (r & -> & _ & Hbatch).
  change ((batchSendSingleSvcReq (scenarioEnv (λ _, 2 * GB) n1RejectsDrop)
             (Some (wt.mkUpdateService wt.DropDB
                      (wt.mkServiceInstance "db1" None zeroResourceMeta None)))
             ["n1"; "n2"]).1) with (Some (ErrExternal 9)) in Hbatch.
  destruct Hbatch as (Herr & Hservice & Hcalls).
  split; [exact Herr|]. split; [exact Hservice|].
  rewrite Hcalls. reflexivity.
Defined.

(** *** Rounds that cannot build a peer set *)

(** X17: a round that finds enough healthy nodes among more neighbours than
    replicas panics.  buildPeers makes room for as many servers as nodes were
    allocated (the requested number) and then writes one server for every
    neighbour the ring returned: when the local keys are there, at least N of
    the candidates pass the memory check and the ring returned more than N
    nodes, the write past the end panics, and with it the round, the
    allocation loop from that round on, and CreateDatabase when this is the
    first round. *)
Theorem surplus_neighbours_panic (env : Env) (i : nat) (lastTerm : Z)
    (dbID : string) (rm : wt.ResourceMeta) (curRange : Z)
    (exclude : gset string) (pubKey privKey : string) :
  GetLocalPublicKey env = inr pubKey ->
  GetLocalPrivateKey env = inr privKey ->
  1 <= wt.Node rm ->
  wt.Node rm
  <= Z.of_nat (length (roundCandidates env i dbID curRange exclude)) ->
  match checkNodes (wt.Memory rm) (roundMetrics env i dbID curRange exclude)
          ([], exclude) with
  | Returns (allocated, _) => wt.Node rm <= Z.of_nat (length allocated)
  | _ => False
  end ->
  wt.Node rm < Z.of_nat (length (GetNeighbors env i dbID curRange)) ->
  allocationRound env i lastTerm dbID rm curRange exclude = RoundPanic
  /\ (forall rounds,
        allocationLoop env (S rounds) i lastTerm dbID rm curRange exclude
        = Panics)
  /\ (forall s req,
        i = 0%nat -> exclude = ∅ -> curRange = wt.Node rm ->
        generateDatabaseID env s (GetNodeID req) = Returns (dbID, None) ->
        ResourceMeta req = rm -> (0 < AllocationRounds s)%nat ->
        CreateDatabase env s req = Panics).
Proof.
  intros Hpub Hpriv Hn Hcand Hcheck Hsurplus.
  assert (forall term,
            allocationRound env i term dbID rm curRange exclude = RoundPanic)
    as Hround.
  { intros term. unfold allocationRound. unfold roundCandidates in Hcand.
    unfold roundMetrics, roundCandidates in Hcheck.
    rewrite (proj2 (Z.ltb_ge _ _)) by exact Hcand.
    destruct (checkNodes _ _ _) as [[allocated exclude']| |]; try contradiction.
    rewrite (proj2 (Z.leb_le _ _)) by exact Hcheck.
    rewrite (buildPeers_surplus_panics env _ _ _ pubKey privKey Hpub Hpriv);
      [reflexivity|].
    rewrite length_take. lia. }
  split; [apply Hround|]. split.
  - intros rounds. simpl. rewrite Hround. reflexivity.
  - intros s req -> -> -> Hid Hreq Hrounds.
    unfold CreateDatabase. rewrite Hid. unfold allocateNodes. rewrite Hreq.
    rewrite (proj2 (Z.leb_gt _ _)) by lia.
    destruct (AllocationRounds s) as [|rounds]; [lia|].
    simpl. rewrite Hround. reflexivity.
Qed.

Lemma surplus_neighbours_panic_witness :
  allocationRound (scenarioEnv n1AtFloor noReject) 1 0 "db1"
    (wt.mkResourceMeta 2 GB) 4 {["n1"]} = RoundPanic
  /\ allocationLoop (scenarioEnv n1AtFloor noReject) 2 1 0 "db1"
       (wt.mkResourceMeta 2 GB) 4 {["n1"]} = Panics.
Proof.
  destruct (surplus_neighbours_panic (scenarioEnv n1AtFloor noReject) 1 0 "db1"
              (wt.mkResourceMeta 2 GB) 4 {["n1"]} "bp-public" "bp-private"
              eq_refl eq_refl) as (Hround & Hloop & _).
  - simpl. lia.
  - vm_compute. discriminate.
  - vm_compute. discriminate.
  - vm_compute. reflexivity.
  - split; [exact Hround | exact (Hloop 1%nat)].
Defined.

(** *** The memory check *)

(** X18: the memory check sorts every node of the collector's answer into
    one of two sides.  It panics exactly when it reaches a node whose
    free-memory family is a gauge or a counter without a sample.  Otherwise
    the nodes whose metric exceeds the floor are appended to the allocated
    nodes, in the order of the answer, and all the others (no such metric, a
    metric of another type, or a value at or under the floor) join the
    excluded nodes; no node is dropped and none that was excluded before is
    taken back. *)
Theorem checkNodes_partition (memory : Z) (metrics : list (string * MetricMap))
    (allocated0 : list string) (exclude0 : gset string) :
  match checkNodes memory metrics (allocated0, exclude0) with
  | Returns (allocated, exclude) =>
    allocated = allocated0 ++ (filter (λ entry, passesMemory memory entry = true) metrics).*1
    /\ exclude
       = exclude0
         ∪ list_to_set (filter (λ entry, passesMemory memory entry <> true) metrics).*1
    /\ forall entry, entry ∈ metrics ->
         getMetric entry.2 MetricFreeMemoryBytes <> Panics
  | Panics =>
    exists entry, entry ∈ metrics
                  /\ getMetric entry.2 MetricFreeMemoryBytes = Panics
  | Blocks => False
  end.
Proof.
  revert allocated0 exclude0.
  induction metrics as [|[nodeID nodeMetric] rest IH]; intros allocated0 exclude0.
  - simpl. rewrite app_nil_r. split; [reflexivity|]. split; [set_solver|].
    intros entry Hentry. apply elem_of_nil in Hentry. contradiction.
  - cbn [checkNodes]. unfold checkNode.
    assert (getMetric nodeMetric MetricFreeMemoryBytes <> Blocks) as Hnb.
    { unfold getMetric.
      destruct (nodeMetric !! MetricFreeMemoryBytes) as [[family|]|];
        try discriminate.
      destruct (Type_ family); try discriminate;
        destruct (Metric_ family); discriminate. }
    destruct (getMetric nodeMetric MetricFreeMemoryBytes)
      as [[metricValue [e|]]| |] eqn:Hmetric.
    + assert (passesMemory memory (nodeID, nodeMetric) = false) as Hfails
        by (unfold passesMemory; cbn [snd]; rewrite Hmetric; reflexivity).
      rewrite (filter_cons_False (λ entry, passesMemory memory entry = true))
        by (rewrite Hfails; discriminate).
      rewrite (filter_cons_True (λ entry, passesMemory memory entry <> true))
        by (rewrite Hfails; discriminate).
      specialize (IH allocated0 ({[nodeID]} ∪ exclude0)).
      destruct (checkNodes memory rest _) as [[allocated exclude]| |].
      * destruct IH as (-> & -> & Hnp). split; [reflexivity|].
        split; [set_solver|].
        intros entry Hentry. apply elem_of_cons in Hentry as [->|Hentry].
        -- simpl. rewrite Hmetric. discriminate.
        -- apply Hnp, Hentry.
      * destruct IH as (entry & Hentry & Hp). exists entry.
        split; [apply elem_of_cons; right; exact Hentry | exact Hp].
      * exact IH.
    + destruct (memory <? metricValue) eqn:Hcmp.
      * assert (passesMemory memory (nodeID, nodeMetric) = true) as Hpasses
          by (unfold passesMemory; cbn [snd]; rewrite Hmetric; exact Hcmp).
        rewrite (filter_cons_True (λ entry, passesMemory memory entry = true))
          by exact Hpasses.
        rewrite (filter_cons_False (λ entry, passesMemory memory entry <> true))
          by (intros Hne; apply Hne; exact Hpasses).
        specialize (IH (allocated0 ++ [nodeID]) exclude0).
        destruct (checkNodes memory rest _) as [[allocated exclude]| |].
        -- destruct IH as (-> & -> & Hnp).
           split; [rewrite <- app_assoc; reflexivity|]. split; [reflexivity|].
           intros entry Hentry. apply elem_of_cons in Hentry as [->|Hentry].
           ++ simpl. rewrite Hmetric. discriminate.
           ++ apply Hnp, Hentry.
        -- destruct IH as (entry & Hentry & Hp). exists entry.
           split; [apply elem_of_cons; right; exact Hentry | exact Hp].
        -- exact IH.
      * assert (passesMemory memory (nodeID, nodeMetric) = false) as Hfails
          by (unfold passesMemory; cbn [snd]; rewrite Hmetric; exact Hcmp).
        rewrite (filter_cons_False (λ entry, passesMemory memory entry = true))
          by (rewrite Hfails; discriminate).
        rewrite (filter_cons_True (λ entry, passesMemory memory entry <> true))
          by (rewrite Hfails; discriminate).
        specialize (IH allocated0 ({[nodeID]} ∪ exclude0)).
        destruct (checkNodes memory rest _) as [[allocated exclude]| |].
        -- destruct IH as (-> & -> & Hnp). split; [reflexivity|].
           split; [set_solver|].
           intros entry Hentry. apply elem_of_cons in Hentry as [->|Hentry].
           ++ simpl. rewrite Hmetric. discriminate.
           ++ apply Hnp, Hentry.
        -- destruct IH as (entry & Hentry & Hp). exists entry.
           split; [apply elem_of_cons; right; exact Hentry | exact Hp].
        -- exact IH.
    + exists (nodeID, nodeMetric). split; [apply elem_of_cons; left; reflexivity|].
      exact Hmetric.
    + contradiction Hnb. reflexivity.
Qed.

End BlockProducerFacts.

(** ** Worker DBMS *)

Module WorkerFacts.
Import Worker.

Lemma entryCalls_app (l k : list Event) :
  entryCalls (l ++ k) = entryCalls l ++ entryCalls k.
Proof. unfold entryCalls. apply filter_app. Qed.

(** A successful [writeMeta] leaves on disk the ids of the registry. *)
Lemma writeMeta_ok (env : Env) (st st' : DBMS) :
  writeMeta env st = (st', None) ->
  dbMap st' = dbMap st
  /\ metaFile st' = FileMeta (Some (registry st'))
  /\ entryCalls (log st') = entryCalls (log st).
Proof.
  unfold writeMeta, registry.
  destruct (EncodeMsgPack env (dom (dbMap st))); [discriminate|].
  destruct (WriteFile env (log st) (dom (dbMap st))) as [[e onDisk]|];
    [discriminate|].
  intros H. injection H as <-. simpl.
  rewrite entryCalls_app. simpl. rewrite app_nil_r. auto.
Qed.

(** A successful Create adds a database under an id that was not registered,
    and rewrites the meta file. *)
Lemma Create_ok (env : Env) (st st' : DBMS) (instance : wt.ServiceInstance) :
  Create env st instance false = (st', None) ->
  (wt.DatabaseID instance ∉ registry st)
  /\ registry st' = {[wt.DatabaseID instance]} ∪ registry st
  /\ metaFile st' = FileMeta (Some (registry st'))
  /\ entryCalls (log st')
     = entryCalls (log st) ++ [CallCreate (wt.DatabaseID instance)].
Proof.
  unfold Create, getMeta. cbn [record dbMap log metaFile].
  destruct (dbMap st !! wt.DatabaseID instance) eqn:Hfree; [discriminate|].
  destruct (NewDatabase env _ instance) as [[e db]|db]; [discriminate|].
  unfold addMeta. cbn [record dbMap log metaFile]. rewrite Hfree.
  destruct (writeMeta env _) as [st2 [e|]] eqn:Hwrite; [discriminate|].
  intros H. injection H as <-.
  apply writeMeta_ok in Hwrite as (Hmap & Hfile & Hlog).
  cbn [dbMap log] in Hmap, Hlog.
  split; [apply not_elem_of_dom; exact Hfree|].
  split; [unfold registry; rewrite Hmap, dom_insert_L; reflexivity|].
  split; [exact Hfile|].
  rewrite Hlog, !entryCalls_app. simpl. rewrite app_nil_r. reflexivity.
Qed.

(** A successful Drop removes a registered database and rewrites the meta
    file. *)
Lemma Drop_ok (env : Env) (st st' : DBMS) (id : string) :
  Drop env st id = (st', None) ->
  id ∈ registry st
  /\ registry st' = registry st ∖ {[id]}
  /\ metaFile st' = FileMeta (Some (registry st'))
  /\ entryCalls (log st') = entryCalls (log st) ++ [CallDrop id].
Proof.
  unfold Drop, getMeta. cbn [record dbMap log metaFile].
  destruct (dbMap st !! id) as [db|] eqn:Hdb; [|discriminate].
  destruct (Destroy env _ db); [discriminate|].
  unfold removeMeta. cbn [record dbMap log metaFile].
  intros Hwrite. apply writeMeta_ok in Hwrite as (Hmap & Hfile & Hlog).
  cbn [dbMap log] in Hmap, Hlog.
  split; [apply elem_of_dom; eauto|].
  split; [unfold registry; rewrite Hmap, dom_delete_L; reflexivity|].
  split; [exact Hfile|].
  rewrite Hlog, !entryCalls_app. simpl. rewrite app_nil_r. reflexivity.
Qed.

Lemma createAll_ok (env : Env) (conf : list wt.ServiceInstance) :
  forall st st',
    createAll env st conf = (st', None) ->
    registry st' = registry st ∪ currentInstance conf
    /\ (forall id, id ∈ currentInstance conf -> id ∉ registry st)
    /\ entryCalls (log st')
       = entryCalls (log st) ++ (CallCreate <$> (wt.DatabaseID <$> conf))
    /\ (st' = st \/ metaFile st' = FileMeta (Some (registry st'))).
Proof.
  unfold currentInstance.
  induction conf as [|instance rest IH]; intros st st' H; simpl in H.
  - injection H as <-. simpl. rewrite app_nil_r.
    split; [set_solver|]. split; [set_solver|]. auto.
  - destruct (Create env st instance false) as [st1 [e|]] eqn:Hcreate;
      [discriminate|].
    apply Create_ok in Hcreate as (Hfresh & Hreg & Hfile & Hlog).
    apply IH in H as (Hreg' & Hfresh' & Hlog' & Hfile').
    split; [rewrite Hreg', Hreg; set_solver|].
    split.
    { intros id Hid. simpl in Hid. apply elem_of_union in Hid as [Hid|Hid].
      - apply elem_of_singleton in Hid as ->. exact Hfresh.
      - specialize (Hfresh' id Hid). rewrite Hreg in Hfresh'. set_solver. }
    split; [rewrite Hlog', Hlog, <- app_assoc; reflexivity|].
    right. destruct Hfile' as [->|Hfile']; assumption.
Qed.

Lemma dropAll_ok (env : Env) (ids : list string) :
  forall st st',
    dropAll env st ids = (st', None) ->
    registry st' = registry st ∖ list_to_set ids
    /\ (forall id, id ∈ ids -> id ∈ registry st)
    /\ entryCalls (log st') = entryCalls (log st) ++ (CallDrop <$> ids)
    /\ (ids = [] /\ st' = st \/ metaFile st' = FileMeta (Some (registry st'))).
Proof.
  induction ids as [|id rest IH]; intros st st' H; simpl in H.
  - injection H as <-. simpl. rewrite app_nil_r.
    split; [set_solver|]. split; [intros ? Hin; inversion Hin|]. auto.
  - destruct (Drop env st id) as [st1 [e|]] eqn:Hdrop; [discriminate|].
    apply Drop_ok in Hdrop as (Hin & Hreg & Hfile & Hlog).
    apply IH in H as (Hreg' & Hin' & Hlog' & Hfile').
    split; [rewrite Hreg', Hreg; set_solver|].
    split.
    { intros x Hx. apply elem_of_cons in Hx as [->|Hx]; [exact Hin|].
      specialize (Hin' x Hx). rewrite Hreg in Hin'. set_solver. }
    split; [rewrite Hlog', Hlog, <- app_assoc; reflexivity|].
    right. destruct Hfile' as [[_ ->]|Hfile']; assumption.
Qed.

Lemma toDropInstance_difference (meta : gset string)
    (conf : list wt.ServiceInstance) :
  toDropInstance meta conf = meta ∖ currentInstance conf.
Proof.
  unfold toDropInstance. apply set_eq. intros id.
  rewrite elem_of_filter, elem_of_difference. tauto.
Qed.

(** C7: an Init run in which every Create and every Drop succeeds, started
    with a registry that holds no id outside the local meta set M, creates
    every instance of the coordinator's list C, in the order of the list,
    before it drops anything; it then drops the ids of M that are not in C,
    each once; afterwards the registry holds exactly the ids of C, and the
    meta file holds exactly the ids of the registry. *)
Theorem Init_reconciles (env : Env) (st st' : DBMS) (M : gset string)
    (C : list wt.ServiceInstance) :
  (forall X, rangeOrder env X ≡ₚ elements X) ->
  readMeta st = (M, None) ->
  getMappedInstances env = Returns (C, None) ->
  registry st ⊆ M ->
  Init env st = Returns (st', None) ->
  exists dropped,
    dropped ≡ₚ elements (M ∖ currentInstance C)
    /\ entryCalls (log st')
       = entryCalls (log st) ++ (CallCreate <$> (wt.DatabaseID <$> C))
         ++ (CallDrop <$> dropped)
    /\ registry st' = currentInstance C
    /\ readMeta st' = (registry st', None).
Proof.
  intros Horder Hmeta Hconf Hsub. unfold Init. rewrite Hmeta, Hconf.
  intros H. injection H as H. unfold initDatabases in H.
  destruct (createAll env st C) as [st1 [e|]] eqn:Hcreate; [discriminate|].
  apply createAll_ok in Hcreate as (Hreg1 & Hfresh & Hlog1 & Hfile1).
  apply dropAll_ok in H as (Hreg' & Hin & Hlog' & Hfile').
  rewrite toDropInstance_difference in *.
  set (dropped := rangeOrder env (M ∖ currentInstance C)) in *.
  assert (dropped ≡ₚ elements (M ∖ currentInstance C)) as Hperm
    by apply Horder.
  assert (list_to_set dropped = M ∖ currentInstance C) as Hset.
  { rewrite Hperm. apply list_to_set_elements_L. }
  assert (forall id, id ∈ M ∖ currentInstance C -> id ∈ registry st) as Hheld.
  { intros id Hid. assert (id ∈ dropped) as Hd.
    { rewrite Hperm. apply elem_of_elements. exact Hid. }
    specialize (Hin id Hd). rewrite Hreg1 in Hin. set_solver. }
  assert (registry st' = currentInstance C) as Hfinal.
  { rewrite Hreg', Hset, Hreg1. apply set_eq. intros id.
    specialize (Hfresh id). specialize (Hheld id). set_solver. }
  exists dropped. split; [exact Hperm|].
  split; [rewrite Hlog', Hlog1, <- app_assoc; reflexivity|].
  split; [exact Hfinal|].
  destruct Hfile' as [[Hnil ->]|Hfile'].
  - destruct Hfile1 as [->|Hfile1].
    + rewrite Hmeta. f_equal. rewrite Hfinal.
      assert (M ∖ currentInstance C = ∅) as Hempty.
      { rewrite <- Hset, Hnil. reflexivity. }
      rewrite Hreg1 in Hfinal. apply set_eq. intros id.
      specialize (Hfresh id). set_solver.
    + unfold readMeta. rewrite Hfile1. reflexivity.
  - unfold readMeta. rewrite Hfile'. reflexivity.
Qed.

Lemma hosting_A_B0 :
  registry (hosting ["A"; "B0"]) ⊆ {["A"; "B0"]}
  /\ readMeta (hosting ["A"; "B0"]) = ({["A"; "B0"]}, None).
Proof.
  assert (registry (hosting ["A"; "B0"]) = {["A"; "B0"]}) as ->
    by (vm_compute; reflexivity).
  split; [reflexivity | vm_compute; reflexivity].
Qed.

Lemma Init_reconciles_witness :
  match Init (scenarioEnv ["B"; "C"]) (hosting ["A"; "B0"]) with
  | Returns (st', None) =>
    exists dropped,
      dropped ≡ₚ elements ({["A"; "B0"]} ∖ currentInstance (instanceOf <$> ["B"; "C"]))
      /\ entryCalls (log st')
         = entryCalls (log (hosting ["A"; "B0"]))
           ++ (CallCreate <$> (wt.DatabaseID <$> (instanceOf <$> ["B"; "C"])))
           ++ (CallDrop <$> dropped)
      /\ registry st' = currentInstance (instanceOf <$> ["B"; "C"])
      /\ readMeta st' = (registry st', None)
  | _ => False
  end.
Proof.
  destruct (Init (scenarioEnv ["B"; "C"]) (hosting ["A"; "B0"]))
    as [[st' [e|]]| |] eqn:Hinit; try (vm_compute in Hinit; discriminate).
  exact (Init_reconciles (scenarioEnv ["B"; "C"]) (hosting ["A"; "B0"]) st'
           {["A"; "B0"]} (instanceOf <$> ["B"; "C"])
           (fun X => reflexivity _) (proj2 hosting_A_B0) eq_refl
           (proj1 hosting_A_B0) Hinit).
Defined.

(** On a worker that was just constructed, an Init in which every Create and
    Drop succeeds found nothing to drop: the meta set was within the
    coordinator's list. *)
Lemma Init_fresh_ok (env : Env) (file : MetaFile) (st' : DBMS)
    (M : gset string) (C : list wt.ServiceInstance) :
  (forall X, rangeOrder env X ≡ₚ elements X) ->
  readMeta (NewDBMS file) = (M, None) ->
  getMappedInstances env = Returns (C, None) ->
  Init env (NewDBMS file) = Returns (st', None) ->
  M ⊆ currentInstance C.
Proof.
  intros Horder Hmeta Hconf. unfold Init. rewrite Hmeta, Hconf.
  intros H. injection H as H. unfold initDatabases in H.
  destruct (createAll env (NewDBMS file) C) as [st1 [e|]] eqn:Hcreate;
    [discriminate|].
  apply createAll_ok in Hcreate as (Hreg1 & _ & _ & _).
  apply dropAll_ok in H as (_ & Hin & _ & _).
  rewrite toDropInstance_difference in Hin.
  intros id Hid. destruct (decide (id ∈ currentInstance C)) as [|Hnot];
    [assumption|].
  assert (id ∈ rangeOrder env (M ∖ currentInstance C)) as Hd.
  { rewrite (Horder _). apply elem_of_elements. set_solver. }
  specialize (Hin id Hd). rewrite Hreg1 in Hin.
  unfold registry, NewDBMS in Hin. simpl in Hin. set_solver.
Qed.

(** On a worker that was just constructed the registry is empty, so a Drop of
    an id that only the meta file lists finds nothing to drop: with the meta
    file listing A and B and the coordinator reporting B and C, Init creates B
    and C and then returns [ErrNotExists] from the Drop of A. *)
Lemma Init_fresh_stale_meta :
  match Init (scenarioEnv ["B"; "C"]) (NewDBMS (FileMeta (Some {["A"; "B"]}))) with
  | Returns (st', e) =>
    e = Some ErrNotExists
    /\ entryCalls (log st') = [CallCreate "B"; CallCreate "C"; CallDrop "A"]
    /\ registry st' = {["B"; "C"]}
  | _ => False
  end.
Proof. vm_compute. repeat split. Qed.

(** *** Create and Drop, whatever the collaborators answer *)

(** [writeMeta] never touches the registry; it appends at most the record of
    one write to the log. *)
Lemma writeMeta_any (env : Env) (st : DBMS) :
  dbMap (writeMeta env st).1 = dbMap st
  /\ exists evs,
       log (writeMeta env st).1 = log st ++ evs
       /\ Forall (λ ev, exists DBS res, ev = EvWriteFile DBS res) evs.
Proof.
  unfold writeMeta.
  destruct (EncodeMsgPack env (dom (dbMap st))).
  - split; [reflexivity|]. exists []. rewrite app_nil_r. auto.
  - destruct (WriteFile env (log st) (dom (dbMap st))) as [[e onDisk]|];
      (split; [reflexivity|]); eexists [_]; (split; [reflexivity|]);
      repeat constructor; eauto.
Qed.

Lemma entryCalls_writes (evs : list Event) :
  Forall (λ ev, exists DBS res, ev = EvWriteFile DBS res) evs ->
  entryCalls evs = [] /\ EvShutdown <$> [] = filter (λ ev, isDestroy ev = true) evs.
Proof.
  induction 1 as [|ev evs (DBS & res & ->) _ [IH1 IH2]]; [auto|].
  unfold entryCalls in *.
  rewrite filter_cons_False by (simpl; discriminate).
  rewrite filter_cons_False by (simpl; discriminate). auto.
Qed.

(** The deferred function of [Create] takes the id out of the registry,
    after it shut down the database if there is one, and writes the meta
    file. *)
Lemma closeOnFailed_spec (env : Env) (st1 : DBMS) (id : string)
    (db : option Database) (err : Error) :
  (closeOnFailed env st1 id db err).2 = Some err
  /\ dbMap (closeOnFailed env st1 id db err).1 = delete id (dbMap st1)
  /\ exists evs,
       log (closeOnFailed env st1 id db err).1
       = log st1 ++ match db with Some _ => [EvShutdown id] | None => [] end
           ++ evs
       /\ Forall (λ ev, exists DBS res, ev = EvWriteFile DBS res) evs.
Proof.
  unfold closeOnFailed, removeMeta. cbn [fst snd]. split; [reflexivity|].
  match goal with
  | |- context [writeMeta env ?s] =>
    destruct (writeMeta_any env s) as (Hm & evs & Hl & Hevs)
  end.
  cbn [dbMap log] in Hm, Hl. split.
  - rewrite Hm. destruct db; reflexivity.
  - exists evs. split; [|exact Hevs]. rewrite Hl.
    destruct db; cbn [record log]; rewrite <- ?app_assoc; reflexivity.
Qed.

(** What a failed [Create] leaves. *)
Lemma Create_failed (env : Env) (st st' : DBMS)
    (instance : wt.ServiceInstance) (cleanup : bool) (e : Error) :
  Create env st instance cleanup = (st', Some e) ->
  dbMap st' = dbMap st
  /\ (is_Some (dbMap st !! wt.DatabaseID instance) ->
      e = ErrAlreadyExists
      /\ st' = record st (CallCreate (wt.DatabaseID instance)))
  /\ exists evs,
       log st' = log st ++ CallCreate (wt.DatabaseID instance) :: evs
       /\ entryCalls evs = []
       /\ (EvNewDatabase (wt.DatabaseID instance) None ∈ evs ->
           EvShutdown (wt.DatabaseID instance) ∈ evs).
Proof.
  unfold Create, getMeta. cbn [record dbMap log metaFile].
  set (id := wt.DatabaseID instance).
  destruct (dbMap st !! id) as [held|] eqn:Hfree.
  { intros H. injection H as <- <-. split; [reflexivity|]. split; [auto|].
    exists []. split; [reflexivity|]. split; [reflexivity|].
    intros Hin. apply elem_of_nil in Hin. contradiction. }
  intros Hcreate.
  enough (dbMap st' = dbMap st
          /\ exists evs,
               log st' = log st ++ CallCreate id :: evs
               /\ entryCalls evs = []
               /\ (EvNewDatabase id None ∈ evs -> EvShutdown id ∈ evs))
    as [Hmap Hlog].
  { split; [exact Hmap|]. split; [intros [? ?]; discriminate|exact Hlog]. }
  assert (exists (sc : DBMS) (pre : list Event),
            dbMap sc = dbMap st
            /\ log sc = log st ++ CallCreate id :: pre
            /\ entryCalls pre = []
            /\ (forall ev, ev ∈ pre -> exists r, ev = EvRemoveAll id r)
            /\ ((sc, Some e) = (st', Some e)
                \/ match NewDatabase env (log sc) instance with
                   | inl (e2, db) =>
                     closeOnFailed env (record sc (EvNewDatabase id (Some e2)))
                       id db e2
                   | inr db =>
                     match addMeta env (record sc (EvNewDatabase id None)) id db with
                     | (st2, Some e3) => closeOnFailed env st2 id (Some db) e3
                     | (st2, None) => (st2, None)
                     end
                   end = (st', Some e)))
    as (sc & pre & Hsc & Hlsc & Hpre & Hrm & Hrest).
  { destruct cleanup.
    - destruct (RemoveAll env (log st ++ [CallCreate id]) id) as [e1|] eqn:Hr;
        cbn [record dbMap log metaFile] in Hcreate.
      + exists (mkDBMS (dbMap st) (metaFile st)
                  ((log st ++ [CallCreate id]) ++ [EvRemoveAll id (Some e1)])),
          [EvRemoveAll id (Some e1)].
        split; [reflexivity|].
        split; [cbn [log]; rewrite <- app_assoc; reflexivity|].
        split; [reflexivity|].
        split; [intros ev Hin; apply list_elem_of_singleton in Hin; eauto|].
        left. injection Hcreate as <- <-. reflexivity.
      + exists (mkDBMS (dbMap st) (metaFile st)
                  ((log st ++ [CallCreate id]) ++ [EvRemoveAll id None])),
          [EvRemoveAll id None].
        split; [reflexivity|].
        split; [cbn [log]; rewrite <- app_assoc; reflexivity|].
        split; [reflexivity|].
        split; [intros ev Hin; apply list_elem_of_singleton in Hin; eauto|].
        right. exact Hcreate.
    - exists (mkDBMS (dbMap st) (metaFile st) (log st ++ [CallCreate id])), [].
      split; [reflexivity|].
      split; [reflexivity|]. split; [reflexivity|].
      split; [intros ev Hin; apply elem_of_nil in Hin; contradiction|].
      right. exact Hcreate. }
  clear Hcreate.
  assert (EvNewDatabase id None ∉ pre) as Hnotpre.
  { intros Hin. destruct (Hrm _ Hin) as [r Hr]. discriminate. }
  destruct Hrest as [Heq|Hrest].
  { injection Heq as <-. split; [exact Hsc|]. exists pre.
    split; [exact Hlsc|]. split; [exact Hpre|]. intros Hin. contradiction. }
  destruct (NewDatabase env (log sc) instance) as [[e2 db]|db].
  - destruct (closeOnFailed_spec env (record sc (EvNewDatabase id (Some e2)))
                id db e2) as (_ & Hm & evs & Hl & Hevs).
    rewrite Hrest in Hm, Hl. cbn [fst record dbMap log] in Hm, Hl.
    split; [rewrite Hm, Hsc; apply delete_id, Hfree|].
    exists (pre ++ [EvNewDatabase id (Some e2)]
              ++ match db with Some _ => [EvShutdown id] | None => [] end ++ evs).
    split; [rewrite Hl, Hlsc; rewrite <- !app_assoc; reflexivity|].
    apply entryCalls_writes in Hevs as Hcalls. destruct Hcalls as [Hcalls _].
    split.
    { rewrite !entryCalls_app, Hpre, Hcalls. destruct db; reflexivity. }
    intros Hin. exfalso.
    apply elem_of_app in Hin as [Hin|Hin]; [contradiction|].
    apply elem_of_app in Hin as [Hin|Hin];
      [apply list_elem_of_singleton in Hin; discriminate|].
    apply elem_of_app in Hin as [Hin|Hin].
    + destruct db; [apply list_elem_of_singleton in Hin; discriminate|].
      apply elem_of_nil in Hin. contradiction.
    + rewrite Forall_forall in Hevs. destruct (Hevs _ Hin) as (? & ? & ?).
      discriminate.
  - unfold addMeta in Hrest. cbn [record dbMap log metaFile] in Hrest.
    rewrite Hsc, Hfree in Hrest.
    match type of Hrest with
    | context [writeMeta env ?s] =>
      destruct (writeMeta_any env s) as (Hm2 & evs2 & Hl2 & Hevs2);
      destruct (writeMeta env s) as [st2 [e3|]]
    end; [|discriminate].
    cbn [fst dbMap log] in Hm2, Hl2.
    destruct (closeOnFailed_spec env st2 id (Some db) e3)
      as (_ & Hm & evs & Hl & Hevs).
    rewrite Hrest in Hm, Hl. cbn [fst] in Hm, Hl.
    split; [rewrite Hm, Hm2; apply delete_insert_id, Hfree|].
    exists (pre ++ [EvNewDatabase id None] ++ evs2 ++ [EvShutdown id] ++ evs).
    split; [rewrite Hl, Hl2, Hlsc; rewrite <- !app_assoc; reflexivity|].
    apply entryCalls_writes in Hevs as [Hcalls _].
    apply entryCalls_writes in Hevs2 as [Hcalls2 _].
    split.
    { rewrite !entryCalls_app, Hpre, Hcalls, Hcalls2. reflexivity. }
    intros _. apply elem_of_app. right. apply elem_of_app. right.
    apply elem_of_app. right. apply elem_of_app. left.
    apply list_elem_of_singleton. reflexivity.
Qed.

(** X19: a Create that fails leaves the registry as it was.  Whatever the
    cleanup flag and whatever failed (the id is registered already, the data
    directory cannot be removed, the database cannot be built, or the meta
    file cannot be written), the registry afterwards maps the same ids to the
    same databases as before.  A Create for a registered id touches nothing:
    it returns the already-exists error before the data directory is removed
    or a database is built.  A database that was built and then could not be
    registered is shut down. *)
Theorem Create_failure_keeps_registry (env : Env) (st st' : DBMS)
    (instance : wt.ServiceInstance) (cleanup : bool) (e : Error) :
  Create env st instance cleanup = (st', Some e) ->
  dbMap st' = dbMap st
  /\ (is_Some (dbMap st !! wt.DatabaseID instance) ->
      e = ErrAlreadyExists
      /\ st' = record st (CallCreate (wt.DatabaseID instance)))
  /\ exists evs,
       log st' = log st ++ CallCreate (wt.DatabaseID instance) :: evs
       /\ entryCalls evs = []
       /\ (EvNewDatabase (wt.DatabaseID instance) None ∈ evs ->
           EvShutdown (wt.DatabaseID instance) ∈ evs).
Proof. apply Create_failed. Qed.

Lemma Create_failure_keeps_registry_witness :
  match Create diskFullEnv (NewDBMS FileAbsent) (instanceOf "A") true with
  | (st', Some e) =>
    dbMap st' = ∅
    /\ exists evs,
         log st' = CallCreate "A" :: evs
         /\ entryCalls evs = []
         /\ (EvNewDatabase "A" None ∈ evs -> EvShutdown "A" ∈ evs)
  | _ => False
  end.
Proof.
  destruct (Create diskFullEnv (NewDBMS FileAbsent) (instanceOf "A") true)
    as [st' [e|]] eqn:Hcreate; [|vm_compute in Hcreate; discriminate].
  destruct (Create_failure_keeps_registry _ _ _ _ _ _ Hcreate)
    as (Hmap & _ & Hlog).
  split; [exact Hmap | exact Hlog].
Defined.

(** What a successful [Create] leaves, whatever the cleanup flag. *)
Lemma Create_succeeded (env : Env) (st st' : DBMS)
    (instance : wt.ServiceInstance) (cleanup : bool) :
  Create env st instance cleanup = (st', None) ->
  dbMap st !! wt.DatabaseID instance = None
  /\ (exists db l,
        NewDatabase env l instance = inr db
        /\ dbMap st' = <[wt.DatabaseID instance := db]> (dbMap st))
  /\ metaFile st' = FileMeta (Some (registry st'))
  /\ exists evs,
       log st' = log st ++ CallCreate (wt.DatabaseID instance) :: evs
       /\ entryCalls evs = []
       /\ (cleanup = true ->
           exists evs', evs = EvRemoveAll (wt.DatabaseID instance) None :: evs').
Proof.
  unfold Create, getMeta. cbn [record dbMap log metaFile].
  set (id := wt.DatabaseID instance).
  destruct (dbMap st !! id) as [held|] eqn:Hfree; [discriminate|].
  intros Hcreate. split; [reflexivity|].
  assert (exists (sc : DBMS) (pre : list Event),
            dbMap sc = dbMap st
            /\ log sc = log st ++ CallCreate id :: pre
            /\ entryCalls pre = []
            /\ (cleanup = true -> pre = [EvRemoveAll id None])
            /\ match NewDatabase env (log sc) instance with
               | inl (e2, db) =>
                 closeOnFailed env (record sc (EvNewDatabase id (Some e2)))
                   id db e2
               | inr db =>
                 match addMeta env (record sc (EvNewDatabase id None)) id db with
                 | (st2, Some e3) => closeOnFailed env st2 id (Some db) e3
                 | (st2, None) => (st2, None)
                 end
               end = (st', None))
    as (sc & pre & Hsc & Hlsc & Hpre & Hrm & Hrest).
  { destruct cleanup.
    - destruct (RemoveAll env (log st ++ [CallCreate id]) id) as [e1|] eqn:Hr;
        cbn [record dbMap log metaFile] in Hcreate; [discriminate|].
      exists (mkDBMS (dbMap st) (metaFile st)
                ((log st ++ [CallCreate id]) ++ [EvRemoveAll id None])),
        [EvRemoveAll id None].
      split; [reflexivity|].
      split; [cbn [log]; rewrite <- app_assoc; reflexivity|].
      split; [reflexivity|]. split; [reflexivity|]. exact Hcreate.
    - exists (mkDBMS (dbMap st) (metaFile st) (log st ++ [CallCreate id])), [].
      split; [reflexivity|].
      split; [reflexivity|]. split; [reflexivity|].
      split; [discriminate|]. exact Hcreate. }
  clear Hcreate.
  destruct (NewDatabase env (log sc) instance) as [[e2 db]|db] eqn:Hnew.
  { destruct (closeOnFailed_spec env (record sc (EvNewDatabase id (Some e2)))
                id db e2) as (Herr & _).
    rewrite Hrest in Herr. discriminate. }
  unfold addMeta in Hrest. cbn [record dbMap log metaFile] in Hrest.
  rewrite Hsc, Hfree in Hrest.
  match type of Hrest with
  | context [writeMeta env ?s] =>
    destruct (writeMeta_any env s) as (_ & evs2 & Hl2 & Hevs2);
    destruct (writeMeta env s) as [st2 [e3|]] eqn:Hwrite
  end.
  { destruct (closeOnFailed_spec env st2 id (Some db) e3) as (Herr & _).
    rewrite Hrest in Herr. discriminate. }
  injection Hrest as ->. cbn [fst log] in Hl2.
  apply writeMeta_ok in Hwrite as (Hmap & Hfile & _). cbn [dbMap] in Hmap.
  split; [exists db, (log sc); split; [exact Hnew | exact Hmap]|].
  split; [exact Hfile|].
  exists (pre ++ [EvNewDatabase id None] ++ evs2).
  split; [rewrite Hl2, Hlsc; rewrite <- !app_assoc; reflexivity|].
  apply entryCalls_writes in Hevs2 as [Hcalls _].
  split; [rewrite !entryCalls_app, Hpre, Hcalls; reflexivity|].
  intros Hc. rewrite (Hrm Hc). eexists. reflexivity.
Qed.

(** What [Drop] leaves, whatever its result. *)
Lemma Drop_any (env : Env) (st st' : DBMS) (id : string) (r : option Error) :
  Drop env st id = (st', r) ->
  match dbMap st !! id with
  | None => r = Some ErrNotExists /\ st' = record st (CallDrop id)
  | Some db =>
    match Destroy env (log st ++ [CallDrop id]) db with
    | Some e =>
      r = Some e
      /\ st' = record (record st (CallDrop id)) (EvDestroy id (Some e))
    | None =>
      dbMap st' = delete id (dbMap st)
      /\ (r = None -> metaFile st' = FileMeta (Some (registry st')))
      /\ exists evs,
           log st' = log st ++ [CallDrop id; EvDestroy id None] ++ evs
           /\ Forall (λ ev, exists DBS res, ev = EvWriteFile DBS res) evs
    end
  end.
Proof.
  unfold Drop, getMeta. cbn [record dbMap log metaFile].
  destruct (dbMap st !! id) as [db|].
  - destruct (Destroy env (log st ++ [CallDrop id]) db) as [e|].
    + intros H. injection H as <- <-. split; reflexivity.
    + unfold removeMeta. cbn [record dbMap log metaFile]. intros Hwrite.
      match type of Hwrite with
      | writeMeta env ?s = _ =>
        destruct (writeMeta_any env s) as (Hm & evs & Hl & Hevs)
      end.
      rewrite Hwrite in Hm, Hl. cbn [fst dbMap log] in Hm, Hl.
      split; [exact Hm|]. split.
      * intros ->. apply writeMeta_ok in Hwrite as (_ & Hfile & _). exact Hfile.
      * exists evs. split; [|exact Hevs]. rewrite Hl, <- !app_assoc. reflexivity.
  - intros H. injection H as <- <-. split; reflexivity.
Qed.

(** X20: a database that was created can be dropped again, and the worker is
    then where it started.  When Create succeeds the id was not registered,
    the registry holds the database that NewDatabase built, and the meta file
    lists the registry; with the cleanup flag the data directory was removed
    first.  When the Drop of that id then succeeds, the database destroyed is
    the one that was built, the registry maps what it mapped before the
    Create, and the meta file lists exactly those ids again. *)
Theorem Create_then_Drop (env : Env) (st st1 st2 : DBMS)
    (instance : wt.ServiceInstance) (cleanup : bool) :
  Create env st instance cleanup = (st1, None) ->
  Drop env st1 (wt.DatabaseID instance) = (st2, None) ->
  wt.DatabaseID instance ∉ registry st
  /\ (exists db l1 l2,
        NewDatabase env l1 instance = inr db
        /\ getMeta st1 (wt.DatabaseID instance) = Some db
        /\ Destroy env l2 db = None)
  /\ metaFile st1 = FileMeta (Some ({[wt.DatabaseID instance]} ∪ registry st))
  /\ (cleanup = true ->
      exists evs,
        log st1
        = log st ++ CallCreate (wt.DatabaseID instance)
            :: EvRemoveAll (wt.DatabaseID instance) None :: evs)
  /\ dbMap st2 = dbMap st
  /\ metaFile st2 = FileMeta (Some (registry st))
  /\ entryCalls (log st2)
     = entryCalls (log st)
       ++ [CallCreate (wt.DatabaseID instance); CallDrop (wt.DatabaseID instance)].
Proof.
  intros Hcreate Hdrop.
  apply Create_succeeded in Hcreate
    as (Hfree & (db & l1 & Hnew & Hmap1) & Hfile1 & evs1 & Hlog1 & Hcalls1 & Hrm).
  apply Drop_any in Hdrop. rewrite Hmap1, lookup_insert_eq in Hdrop.
  destruct (Destroy env (log st1 ++ [CallDrop (wt.DatabaseID instance)]) db)
    as [e|] eqn:Hdestroy; [destruct Hdrop; discriminate|].
  destruct Hdrop as (Hmap2 & Hfile2 & evs2 & Hlog2 & Hevs2).
  rewrite delete_insert_id in Hmap2 by exact Hfree.
  split; [apply not_elem_of_dom; exact Hfree|].
  split.
  { exists db, l1, (log st1 ++ [CallDrop (wt.DatabaseID instance)]).
    split; [exact Hnew|]. split; [|exact Hdestroy].
    unfold getMeta. rewrite Hmap1. apply lookup_insert_eq. }
  split.
  { rewrite Hfile1. unfold registry. rewrite Hmap1, dom_insert_L. reflexivity. }
  split.
  { intros Hc. destruct (Hrm Hc) as [evs Hevs]. exists evs.
    rewrite Hlog1, Hevs. reflexivity. }
  split; [exact Hmap2|].
  split.
  { rewrite (Hfile2 eq_refl). unfold registry. rewrite Hmap2. reflexivity. }
  apply entryCalls_writes in Hevs2 as [Hcalls2 _].
  rewrite Hlog2, Hlog1.
  change (CallCreate (wt.DatabaseID instance) :: evs1)
    with ([CallCreate (wt.DatabaseID instance)] ++ evs1).
  rewrite !entryCalls_app, Hcalls1, Hcalls2, !app_nil_r, <- app_assoc.
  reflexivity.
Qed.

Lemma Create_then_Drop_witness :
  match Create (scenarioEnv []) (hosting ["A"]) (instanceOf "B") true with
  | (st1, None) =>
    match Drop (scenarioEnv []) st1 "B" with
    | (st2, None) =>
      dbMap st2 = dbMap (hosting ["A"])
      /\ metaFile st2 = FileMeta (Some (registry (hosting ["A"])))
    | _ => False
    end
  | _ => False
  end.
Proof.
  destruct (Create (scenarioEnv []) (hosting ["A"]) (instanceOf "B") true)
    as [st1 [e|]] eqn:Hcreate; [vm_compute in Hcreate; discriminate|].
  destruct (Drop (scenarioEnv []) st1 "B") as [st2 [e|]] eqn:Hdrop.
  - assert (st1 = (Create (scenarioEnv []) (hosting ["A"]) (instanceOf "B")
                     true).1) as Hst1 by (rewrite Hcreate; reflexivity).
    rewrite Hst1 in Hdrop. vm_compute in Hdrop. discriminate.
  - destruct (Create_then_Drop _ _ _ _ (instanceOf "B") true Hcreate Hdrop)
      as (_ & _ & _ & _ & Hmap & Hfile & _).
    split; [exact Hmap | exact Hfile].
Defined.

(** X21: Drop takes a database out of the registry exactly when its Destroy
    succeeded.  For an id that is not registered Drop returns the not-exists
    error and calls nothing.  For a registered database whose Destroy fails,
    Drop returns that error, the database stays registered and the meta file
    is not written.  Once Destroy succeeded the database is out of the
    registry, also when writing the meta file then fails and Drop returns
    that error; when Drop returns no error the meta file lists the
    registry. *)
Theorem Drop_removes_iff_destroyed (env : Env) (st st' : DBMS) (id : string)
    (r : option Error) :
  Drop env st id = (st', r) ->
  (dbMap st !! id = None ->
   r = Some ErrNotExists /\ st' = record st (CallDrop id))
  /\ (forall db,
        dbMap st !! id = Some db ->
        match Destroy env (log st ++ [CallDrop id]) db with
        | Some e =>
          r = Some e /\ dbMap st' = dbMap st /\ metaFile st' = metaFile st
          /\ log st' = log st ++ [CallDrop id; EvDestroy id (Some e)]
        | None =>
          dbMap st' = delete id (dbMap st)
          /\ (forall other, other <> id -> getMeta st' other = getMeta st other)
          /\ getMeta st' id = None
          /\ (r = None -> metaFile st' = FileMeta (Some (registry st')))
        end).
Proof.
  intros Hdrop. apply Drop_any in Hdrop. split.
  - intros Hfree. rewrite Hfree in Hdrop. exact Hdrop.
  - intros db Hdb. rewrite Hdb in Hdrop.
    destruct (Destroy env (log st ++ [CallDrop id]) db) as [e|].
    + destruct Hdrop as [-> ->]. cbn [record dbMap metaFile log].
      rewrite <- app_assoc. auto.
    + destruct Hdrop as (Hmap & Hfile & _).
      split; [exact Hmap|]. unfold getMeta. rewrite Hmap.
      split; [intros other Hother; apply lookup_delete_ne; congruence|].
      split; [apply lookup_delete_eq | exact Hfile].
Qed.

Lemma Drop_removes_iff_destroyed_witness :
  match Drop diskFullEnv (hosting ["A"]) "A" with
  | (st', r) => r = Some (ErrExternal 28) /\ getMeta st' "A" = None
  end
  /\ is_Some (getMeta (hosting ["A"]) "A").
Proof.
  split; [|vm_compute; eexists; reflexivity].
  destruct (Drop diskFullEnv (hosting ["A"]) "A") as [st' r] eqn:Hdrop.
  destruct (getMeta (hosting ["A"]) "A") as [db|] eqn:Hdb;
    [|vm_compute in Hdb; discriminate].
  pose proof (proj2 (Drop_removes_iff_destroyed _ _ _ _ _ Hdrop) db Hdb) as H.
  change (Destroy diskFullEnv (log (hosting ["A"]) ++ [CallDrop "A"]) db)
    with (@None Error) in H.
  destruct H as (_ & _ & Hgone & _). split; [|exact Hgone].
  assert (r = (Drop diskFullEnv (hosting ["A"]) "A").2) as ->
    by (rewrite Hdrop; reflexivity).
  vm_compute. reflexivity.
Defined.

(** *** The loops of initDatabases *)

(** [Create] and [Drop] each leave one entry in the log, whatever they
    return. *)
Lemma Create_calls (env : Env) (st : DBMS) (instance : wt.ServiceInstance)
    (cleanup : bool) :
  entryCalls (log (Create env st instance cleanup).1)
  = entryCalls (log st) ++ [CallCreate (wt.DatabaseID instance)].
Proof.
  destruct (Create env st instance cleanup) as [st' [e|]] eqn:Hcreate;
    cbn [fst].
  - apply Create_failed in Hcreate as (_ & _ & evs & -> & Hcalls & _).
    change (CallCreate (wt.DatabaseID instance) :: evs)
      with ([CallCreate (wt.DatabaseID instance)] ++ evs).
    rewrite !entryCalls_app, Hcalls, app_nil_r. reflexivity.
  - apply Create_succeeded in Hcreate as (_ & _ & _ & evs & -> & Hcalls & _).
    change (CallCreate (wt.DatabaseID instance) :: evs)
      with ([CallCreate (wt.DatabaseID instance)] ++ evs).
    rewrite !entryCalls_app, Hcalls, app_nil_r. reflexivity.
Qed.

Lemma Drop_calls (env : Env) (st : DBMS) (id : string) :
  entryCalls (log (Drop env st id).1) = entryCalls (log st) ++ [CallDrop id].
Proof.
  destruct (Drop env st id) as [st' r] eqn:Hdrop. apply Drop_any in Hdrop.
  cbn [fst]. destruct (dbMap st !! id) as [db|].
  - destruct (Destroy env (log st ++ [CallDrop id]) db) as [e|].
    + destruct Hdrop as [_ ->]. cbn [record log].
      rewrite !entryCalls_app, app_nil_r. reflexivity.
    + destruct Hdrop as (_ & _ & evs & -> & Hevs).
      apply entryCalls_writes in Hevs as [Hcalls _].
      rewrite !entryCalls_app, Hcalls, app_nil_r. reflexivity.
  - destruct Hdrop as [_ ->]. cbn [record log].
    rewrite entryCalls_app. reflexivity.
Qed.

Lemma createAll_failed (env : Env) (conf : list wt.ServiceInstance) :
  forall st st' e,
    createAll env st conf = (st', Some e) ->
    exists done failed rest,
      wt.DatabaseID <$> conf = done ++ failed :: rest
      /\ entryCalls (log st')
         = entryCalls (log st) ++ (CallCreate <$> done ++ [failed])
      /\ dom (dbMap st') = dom (dbMap st) ∪ list_to_set done.
Proof.
  induction conf as [|instance rest IH]; intros st st' e H; simpl in H;
    [discriminate|].
  pose proof (Create_calls env st instance false) as Hcalls.
  destruct (Create env st instance false) as [st1 [e1|]] eqn:Hcreate.
  - injection H as <- <-. exists [], (wt.DatabaseID instance), (wt.DatabaseID <$> rest).
    split; [reflexivity|]. split; [exact Hcalls|].
    apply Create_failed in Hcreate as (-> & _). set_solver.
  - apply Create_ok in Hcreate as (_ & Hreg & _ & _). unfold registry in Hreg.
    apply IH in H as (done & failed & rest' & Hids & Hlog & Hdom).
    exists (wt.DatabaseID instance :: done), failed, rest'.
    split; [rewrite fmap_cons, Hids; reflexivity|].
    split; [rewrite Hlog; cbn [fst] in Hcalls; rewrite Hcalls, <- app_assoc;
            reflexivity|].
    rewrite Hdom, Hreg. set_solver.
Qed.

Lemma dropAll_failed (env : Env) (ids : list string) :
  forall st st' e,
    dropAll env st ids = (st', Some e) ->
    exists done failed rest,
      ids = done ++ failed :: rest
      /\ entryCalls (log st')
         = entryCalls (log st) ++ (CallDrop <$> done ++ [failed])
      /\ dom (dbMap st) ∖ list_to_set (done ++ [failed]) ⊆ dom (dbMap st')
      /\ dom (dbMap st') ⊆ dom (dbMap st) ∖ list_to_set done.
Proof.
  induction ids as [|id rest IH]; intros st st' e H; simpl in H; [discriminate|].
  pose proof (Drop_calls env st id) as Hcalls.
  destruct (Drop env st id) as [st1 [e1|]] eqn:Hdrop.
  - injection H as <- <-. exists [], id, rest.
    split; [reflexivity|]. split; [exact Hcalls|].
    apply Drop_any in Hdrop. destruct (dbMap st !! id) as [db|].
    + destruct (Destroy env (log st ++ [CallDrop id]) db) as [e2|].
      * destruct Hdrop as [_ ->]. cbn [record dbMap]. set_solver.
      * destruct Hdrop as (-> & _). rewrite dom_delete_L. set_solver.
    + destruct Hdrop as [_ ->]. cbn [record dbMap]. set_solver.
  - apply Drop_ok in Hdrop as (_ & Hreg & _ & _). unfold registry in Hreg.
    apply IH in H as (done & failed & rest' & Hids & Hlog & Hlow & Hup).
    exists (id :: done), failed, rest'.
    split; [rewrite Hids; reflexivity|].
    split; [rewrite Hlog; cbn [fst] in Hcalls; rewrite Hcalls, <- app_assoc;
            reflexivity|].
    rewrite Hreg in Hlow, Hup. split; set_solver.
Qed.

(** X22: initDatabases stops at the first call that fails.  When it returns
    an error, either a Create failed: the instances before it in the
    coordinator's list were created and stay registered, the ones after it
    were never tried, and no Drop was attempted; or every instance of the
    list was created and a Drop failed: the ids before it in the visiting
    order were dropped and the ones after it were never tried. *)
Theorem initDatabases_first_error (env : Env) (st st' : DBMS)
    (meta : gset string) (conf : list wt.ServiceInstance) (e : Error) :
  initDatabases env st meta conf = (st', Some e) ->
  (exists done failed rest,
     wt.DatabaseID <$> conf = done ++ failed :: rest
     /\ entryCalls (log st')
        = entryCalls (log st) ++ (CallCreate <$> done ++ [failed])
     /\ registry st' = registry st ∪ list_to_set done)
  \/ (exists done failed rest,
        rangeOrder env (toDropInstance meta conf) = done ++ failed :: rest
        /\ entryCalls (log st')
           = entryCalls (log st) ++ (CallCreate <$> (wt.DatabaseID <$> conf))
             ++ (CallDrop <$> done ++ [failed])
        /\ (registry st ∪ currentInstance conf) ∖ list_to_set (done ++ [failed])
           ⊆ registry st'
        /\ registry st'
           ⊆ (registry st ∪ currentInstance conf) ∖ list_to_set done).
Proof.
  unfold initDatabases, registry. intros H.
  destruct (createAll env st conf) as [st1 [e1|]] eqn:Hcreate.
  - injection H as <- <-. left. apply createAll_failed in Hcreate. exact Hcreate.
  - right. apply createAll_ok in Hcreate as (Hreg & _ & Hlog1 & _).
    unfold registry in Hreg.
    apply dropAll_failed in H as (done & failed & rest & Hids & Hlog & Hlow & Hup).
    exists done, failed, rest. split; [exact Hids|].
    split; [rewrite Hlog, Hlog1, <- app_assoc; reflexivity|].
    rewrite Hreg in Hlow, Hup. split; assumption.
Qed.

Lemma initDatabases_first_error_witness :
  match initDatabases diskFullEnv (NewDBMS FileAbsent) ∅
          (instanceOf <$> ["A"; "B"]) with
  | (st', Some e) =>
    entryCalls (log st') = [CallCreate "A"] /\ registry st' = ∅
  | _ => False
  end.
Proof.
  destruct (initDatabases diskFullEnv (NewDBMS FileAbsent) ∅
              (instanceOf <$> ["A"; "B"])) as [st' [e|]] eqn:Hinit;
    [|vm_compute in Hinit; discriminate].
  assert (entryCalls (log st') = [CallCreate "A"]) as Hcalls.
  { assert (st' = (initDatabases diskFullEnv (NewDBMS FileAbsent) ∅
                     (instanceOf <$> ["A"; "B"])).1) as ->
      by (rewrite Hinit; reflexivity).
    vm_compute. reflexivity. }
  split; [exact Hcalls|].
  destruct (initDatabases_first_error _ _ _ _ _ _ Hinit)
    as [(done & failed & rest & Hids & Hlog & Hreg)
       |(done & failed & rest & _ & Hlog & _)].
  - rewrite Hcalls in Hlog. destruct done as [|d done].
    + exact Hreg.
    + simpl in Hlog. injection Hlog as _ Hlog.
      destruct done; discriminate.
  - rewrite Hcalls in Hlog. discriminate.
Defined.

(** *** Init on a worker that was just constructed *)

(** X23: after a restart the databases that the coordinator withdrew are
    never destroyed.  Init on a DBMS that was just constructed (its registry
    is empty), when every instance of the coordinator's list C could be
    created, ends with exactly the ids of C registered.  It returns no error
    exactly when the local meta set M lists no id outside C.  Otherwise it
    returns the not-exists error of the first Drop: the id is in the meta
    file but not in the registry, so that no database is destroyed and the
    meta file written by the last Create stands. *)
Theorem Init_fresh_worker (env : Env) (file : MetaFile) (st' : DBMS)
    (M : gset string) (C : list wt.ServiceInstance) (r : option Error) :
  (forall X, rangeOrder env X ≡ₚ elements X) ->
  readMeta (NewDBMS file) = (M, None) ->
  getMappedInstances env = Returns (C, None) ->
  (createAll env (NewDBMS file) C).2 = None ->
  Init env (NewDBMS file) = Returns (st', r) ->
  registry st' = currentInstance C
  /\ (M ⊆ currentInstance C ->
      r = None /\ st' = (createAll env (NewDBMS file) C).1)
  /\ (forall id, id ∈ M -> id ∉ currentInstance C ->
      r = Some ErrNotExists
      /\ exists stale,
           stale ∈ M /\ stale ∉ currentInstance C
           /\ st' = record (createAll env (NewDBMS file) C).1 (CallDrop stale)).
Proof.
  intros Horder Hmeta Hconf Hcreated. unfold Init. rewrite Hmeta, Hconf.
  intros H. injection H as H. unfold initDatabases in H.
  destruct (createAll env (NewDBMS file) C) as [st1 [e|]] eqn:Hcreate;
    [discriminate|].
  cbn [fst]. clear Hcreated.
  apply createAll_ok in Hcreate as (Hreg1 & _ & _ & _).
  assert (registry st1 = currentInstance C) as Hreg.
  { rewrite Hreg1. unfold registry, NewDBMS. cbn [dbMap].
    rewrite dom_empty_L. set_solver. }
  rewrite toDropInstance_difference in H.
  pose proof (Horder (M ∖ currentInstance C)) as Hperm.
  destruct (rangeOrder env (M ∖ currentInstance C)) as [|stale rest].
  - simpl in H. injection H as <- <-.
    split; [exact Hreg|]. split; [auto|].
    intros id Hid Hnot. exfalso.
    assert (id ∈ elements (M ∖ currentInstance C)) as Hin
      by (apply elem_of_elements; set_solver).
    rewrite <- Hperm in Hin. apply elem_of_nil in Hin. exact Hin.
  - assert (stale ∈ M ∖ currentInstance C) as Hstale.
    { apply elem_of_elements. rewrite <- Hperm. apply elem_of_cons. auto. }
    assert (dbMap st1 !! stale = None) as Hfree.
    { apply not_elem_of_dom. change (stale ∉ registry st1). rewrite Hreg.
      set_solver. }
    simpl in H. unfold Drop, getMeta in H. cbn [record dbMap] in H.
    rewrite Hfree in H. injection H as <- <-.
    split; [exact Hreg|]. split.
    + intros Hsub. exfalso. set_solver.
    + intros id Hid Hnot. split; [reflexivity|].
      exists stale. split; [set_solver|]. split; [set_solver|reflexivity].
Qed.

Lemma Init_fresh_worker_witness :
  match Init (scenarioEnv ["B"; "C"]) (NewDBMS (FileMeta (Some {["A"; "B"]}))) with
  | Returns (st', r) =>
    registry st' = currentInstance (instanceOf <$> ["B"; "C"])
    /\ r = Some ErrNotExists
  | _ => False
  end.
Proof.
  destruct (Init (scenarioEnv ["B"; "C"]) (NewDBMS (FileMeta (Some {["A"; "B"]}))))
    as [[st' r]| |] eqn:Hinit; try (vm_compute in Hinit; discriminate).
  destruct (Init_fresh_worker (scenarioEnv ["B"; "C"])
              (FileMeta (Some {["A"; "B"]})) st' {["A"; "B"]}
              (instanceOf <$> ["B"; "C"]) r
              (fun X => reflexivity _) eq_refl eq_refl) as (Hreg & _ & Hstale).
  - vm_compute. reflexivity.
  - exact Hinit.
  - split; [exact Hreg|].
    apply (Hstale "A"); [set_solver|].
    unfold currentInstance. simpl. set_solver.
Defined.

(** X24: the block producer that a worker asks.  With the nonce at hand,
    getMappedInstances panics exactly when no block producer is known (the
    index is a remainder by their number), and then so does Init on a
    readable meta file.  Otherwise it asks the block producer at position
    D mod n of the n known ones and returns its answer: the instances, or
    the error with no instance.  On such an error Init returns an error (the
    one of the meta file when that could not be read, else this one) and
    leaves the worker as it was. *)
Theorem getMappedInstances_asks_one (env : Env) (D : Z) :
  GetLocalNonce env = inr D ->
  (GetBPs env = [] ->
   getMappedInstances env = Panics
   /\ forall st M, readMeta st = (M, None) -> Init env st = Panics)
  /\ (GetBPs env <> [] ->
      exists bpID,
        GetBPs env !! Z.to_nat (D mod Z.of_nat (length (GetBPs env))) = Some bpID
        /\ getMappedInstances env
           = match GetNodeDatabases env bpID with
             | inl e => Returns ([], Some e)
             | inr instances => Returns (instances, None)
             end
        /\ forall st e,
             GetNodeDatabases env bpID = inl e ->
             Init env st = Returns (st, Some (default e (readMeta st).2))).
Proof.
  intros Hnonce. unfold getMappedInstances. rewrite Hnonce. split.
  - intros Hbps. rewrite Hbps. simpl. split; [reflexivity|].
    intros st M Hmeta. unfold Init, getMappedInstances.
    rewrite Hmeta, Hnonce, Hbps. reflexivity.
  - intros Hbps.
    assert (0 < Z.of_nat (length (GetBPs env))) as Hlen.
    { destruct (GetBPs env); [contradiction|]. simpl length. lia. }
    destruct (lookup_lt_is_Some_2 (GetBPs env)
                (Z.to_nat (D mod Z.of_nat (length (GetBPs env)))))
      as [bpID HbpID].
    { pose proof (Z.mod_pos_bound D _ Hlen). lia. }
    exists bpID. split; [exact HbpID|]. rewrite HbpID. split; [reflexivity|].
    intros st e He. unfold Init, getMappedInstances.
    rewrite Hnonce, HbpID, He.
    destruct (readMeta st) as [M [e1|]]; reflexivity.
Qed.

Lemma getMappedInstances_asks_one_witness :
  getMappedInstances (scenarioEnv ["B"; "C"])
  = Returns (instanceOf <$> ["B"; "C"], None).
Proof.
  destruct (proj2 (getMappedInstances_asks_one (scenarioEnv ["B"; "C"]) 0
                     eq_refl)) as (bpID & _ & Hasks & _).
  - discriminate.
  - rewrite Hasks. reflexivity.
Defined.

(** *** Shutdown *)

Lemma shutdownAll_spec (ids : list string) :
  forall st,
    dbMap (shutdownAll st ids) = dbMap st
    /\ metaFile (shutdownAll st ids) = metaFile st
    /\ log (shutdownAll st ids) = log st ++ (EvShutdown <$> ids).
Proof.
  unfold shutdownAll.
  induction ids as [|id rest IH]; intros st; simpl.
  - rewrite app_nil_r. auto.
  - destruct (IH (record st (EvShutdown id))) as (-> & -> & ->).
    cbn [record dbMap metaFile log]. rewrite <- app_assoc. auto.
Qed.

(** X25: Shutdown shuts down every registered database once and keeps the
    registry.  When a range visits every key once, the databases shut down
    are the registered ones, each exactly once, before the meta file is
    written; the registry still maps every id to its database afterwards, and
    when Shutdown returns no error the meta file lists the registered ids. *)
Theorem Shutdown_all (env : Env) (st st' : DBMS) (r : option Error) :
  (forall X, rangeOrder env X ≡ₚ elements X) ->
  Shutdown env st = (st', r) ->
  dbMap st' = dbMap st
  /\ (exists ids evs,
        ids ≡ₚ elements (registry st)
        /\ NoDup ids
        /\ log st' = log st ++ (EvShutdown <$> ids) ++ evs
        /\ Forall (λ ev, exists DBS res, ev = EvWriteFile DBS res) evs)
  /\ (r = None -> readMeta st' = (registry st, None)).
Proof.
  intros Horder. unfold Shutdown. intros Hwrite.
  destruct (shutdownAll_spec (rangeOrder env (dom (dbMap st))) st)
    as (Hmap & Hfile & Hlog).
  destruct (writeMeta_any env (shutdownAll st (rangeOrder env (dom (dbMap st)))))
    as (Hm & evs & Hl & Hevs).
  rewrite Hwrite in Hm, Hl. cbn [fst] in Hm, Hl.
  split; [rewrite Hm; exact Hmap|]. split.
  - exists (rangeOrder env (dom (dbMap st))), evs.
    split; [apply Horder|].
    split; [rewrite (Horder _); apply NoDup_elements|].
    split; [rewrite Hl, Hlog, <- app_assoc; reflexivity | exact Hevs].
  - intros ->. apply writeMeta_ok in Hwrite as (Hmap' & Hfile' & _).
    unfold readMeta. rewrite Hfile'. unfold registry. rewrite Hmap', Hmap.
    reflexivity.
Qed.

Lemma Shutdown_all_witness :
  match Shutdown (scenarioEnv []) (hosting ["A"; "B"]) with
  | (st', r) =>
    dbMap st' = dbMap (hosting ["A"; "B"])
    /\ exists ids evs,
         ids ≡ₚ elements (registry (hosting ["A"; "B"]))
         /\ NoDup ids
         /\ log st' = log (hosting ["A"; "B"]) ++ (EvShutdown <$> ids) ++ evs
         /\ Forall (λ ev, exists DBS res, ev = EvWriteFile DBS res) evs
  end.
Proof.
  destruct (Shutdown (scenarioEnv []) (hosting ["A"; "B"])) as [st' r] eqn:Hs.
  destruct (Shutdown_all (scenarioEnv []) (hosting ["A"; "B"]) st' r
              (fun X => reflexivity _) Hs) as (Hmap & Hlog & _).
  split; [exact Hmap | exact Hlog].
Defined.

(** *** Requests for a database *)

(** X26: Update, Query and Ack reach a database from its Create to its Drop.
    After a successful Create the three requests for the new id are handed
    to the database that NewDatabase built, and requests for any other id go
    where they went before.  After a Create that failed they all go where
    they went before.  After a successful Drop of the id the three requests
    for it return the not-exists error, without reaching a database. *)
Theorem requests_follow_registry (H : Handlers) (env : Env) (st st1 : DBMS)
    (instance : wt.ServiceInstance) (cleanup : bool) (r : option Error) :
  Create env st instance cleanup = (st1, r) ->
  (forall e, r = Some e ->
     (forall req, Query H st1 req = Query H st req)
     /\ (forall ack, Ack H st1 ack = Ack H st ack)
     /\ (forall update, Update H st1 update = Update H st update))
  /\ (r = None ->
      (exists db l,
         NewDatabase env l instance = inr db
         /\ (forall req, queryDatabaseID H req = wt.DatabaseID instance ->
               Query H st1 req = dbQuery H db req)
         /\ (forall ack, ackDatabaseID H ack = wt.DatabaseID instance ->
               Ack H st1 ack = dbAck H db ack)
         /\ (forall update, wt.DatabaseID update = wt.DatabaseID instance ->
               Update H st1 update = dbUpdatePeers H db (wt.Peers update)))
      /\ (forall req, queryDatabaseID H req <> wt.DatabaseID instance ->
            Query H st1 req = Query H st req)
      /\ (forall ack, ackDatabaseID H ack <> wt.DatabaseID instance ->
            Ack H st1 ack = Ack H st ack)
      /\ (forall update, wt.DatabaseID update <> wt.DatabaseID instance ->
            Update H st1 update = Update H st update)
      /\ forall st2,
           Drop env st1 (wt.DatabaseID instance) = (st2, None) ->
           (forall req, queryDatabaseID H req = wt.DatabaseID instance ->
              Query H st2 req = (None, Some ErrNotExists))
           /\ (forall ack, ackDatabaseID H ack = wt.DatabaseID instance ->
                 Ack H st2 ack = Some ErrNotExists)
           /\ (forall update, wt.DatabaseID update = wt.DatabaseID instance ->
                 Update H st2 update = Some ErrNotExists)).
Proof.
  intros Hcreate. split.
  - intros e ->. apply Create_failed in Hcreate as (Hmap & _).
    unfold Query, Ack, Update, getMeta. rewrite Hmap. auto.
  - intros ->.
    apply Create_succeeded in Hcreate as (Hfree & (db & l & Hnew & Hmap) & _).
    unfold Query, Ack, Update, getMeta. rewrite Hmap.
    split.
    { exists db, l. split; [exact Hnew|].
      split; [|split]; intros x ->; rewrite lookup_insert_eq; reflexivity. }
    split; [intros x Hx; rewrite lookup_insert_ne by congruence; reflexivity|].
    split; [intros x Hx; rewrite lookup_insert_ne by congruence; reflexivity|].
    split; [intros x Hx; rewrite lookup_insert_ne by congruence; reflexivity|].
    intros st2 Hdrop. apply Drop_any in Hdrop.
    rewrite Hmap, lookup_insert_eq in Hdrop.
    destruct (Destroy env _ db) as [e|]; [destruct Hdrop; discriminate|].
    destruct Hdrop as (Hmap2 & _). rewrite Hmap2.
    split; [|split]; intros x ->; rewrite lookup_delete_eq; reflexivity.
Qed.

Lemma requests_follow_registry_witness :
  match Create (scenarioEnv []) (hosting ["A"]) (instanceOf "B") false with
  | (st1, None) =>
    Query echoHandlers st1 "A" = Query echoHandlers (hosting ["A"]) "A"
    /\ match Drop (scenarioEnv []) st1 "B" with
       | (st2, None) => Query echoHandlers st2 "B" = (None, Some ErrNotExists)
       | _ => False
       end
  | _ => False
  end.
Proof.
  destruct (Create (scenarioEnv []) (hosting ["A"]) (instanceOf "B") false)
    as [st1 [e|]] eqn:Hcreate; [vm_compute in Hcreate; discriminate|].
  destruct (proj2 (requests_follow_registry echoHandlers _ _ _ _ _ _ Hcreate)
              eq_refl) as (_ & Hother & _ & _ & Hdropped).
  split; [apply Hother; discriminate|].
  destruct (Drop (scenarioEnv []) st1 "B") as [st2 [e|]] eqn:Hdrop.
  - assert (st1 = (Create (scenarioEnv []) (hosting ["A"]) (instanceOf "B")
                     false).1) as Hst1 by (rewrite Hcreate; reflexivity).
    rewrite Hst1 in Hdrop. vm_compute in Hdrop. discriminate.
  - apply (proj1 (Hdropped st2 Hdrop)). reflexivity.
Defined.

End WorkerFacts.

(** ** Private key store *)

Module KMSFacts.
Import KMS.

Lemma toy_contract : Contract toy.
Proof.
  split; simpl.
  - intros d v. reflexivity.
  - intros d m c H. injection H as <-. unfold toyDecrypt.
    rewrite take_app_length, drop_app_length.
    rewrite bool_decide_eq_true_2 by reflexivity. reflexivity.
  - intros d. unfold pad32. rewrite length_take, length_app, length_replicate. lia.
  - intros k. unfold pad32. rewrite length_take, length_app, length_replicate. lia.
  - intros b Hb. unfold pad32. rewrite take_app_length' by (symmetry; exact Hb). reflexivity.
Qed.

(** What a load that ends with a key has verified, and the errors a load can
    end with. *)
Lemma loadContent_cases (P : Primitives) (content masterKey : bytes) :
  match loadContent P content masterKey with
  | inr key =>
    exists encData decData,
      (CheckDecode P content = DecodeErrInvalidFormat /\ encData = content
       \/ exists version,
            CheckDecode P content = DecodeOk encData version
            /\ (version = Byte.x00 \/ version = PrivateKeyStoreVersion))
      /\ DecryptWithPassword P encData masterKey = inr decData
      /\ length decData = (HashBSize P + PrivateKeyBytesLen P)%nat
      /\ DoubleHashB P (drop (HashBSize P) decData) = take (HashBSize P) decData
      /\ key = PrivKeyFromBytes P (drop (HashBSize P) decData)
  | inl e =>
    e = ErrChecksum \/ e = ErrInvalidBase58Version \/ e = ErrNotKeyFile
    \/ e = ErrHashNotMatch
    \/ exists encData, DecryptWithPassword P encData masterKey = inl e
  end.
Proof.
  unfold loadContent.
  destruct (CheckDecode P content) as [payload version| |] eqn:Hdec;
    cbv beta iota zeta.
  - destruct (bool_decide (version ≠ Byte.x00)
              && bool_decide (version ≠ PrivateKeyStoreVersion)) eqn:Hver;
      [auto|].
    assert (version = Byte.x00 \/ version = PrivateKeyStoreVersion) as Hv.
    { apply andb_false_iff in Hver as [Hver|Hver];
        apply bool_decide_eq_false in Hver.
      - left. destruct (decide (version = Byte.x00)); tauto.
      - right. destruct (decide (version = PrivateKeyStoreVersion)); tauto. }
    clear Hver.
    destruct (DecryptWithPassword P payload masterKey) as [e|decData] eqn:Hd;
      [eauto 10|].
    case_bool_decide; [auto|]. case_bool_decide; [|auto].
    exists payload, decData. split; [right; eauto|]. auto.
  - auto.
  - rewrite (bool_decide_eq_false_2 (Byte.x00 ≠ Byte.x00))
      by (intros Hne; apply Hne; reflexivity).
    cbv beta iota zeta. simpl andb. cbv iota.
    destruct (DecryptWithPassword P content masterKey) as [e|decData] eqn:Hd;
      [eauto 10|].
    case_bool_decide; [auto|]. case_bool_decide; [|auto].
    exists content, decData. split; [left; auto|]. auto.
Qed.

(** A key that loads is the key of the decrypted payload: the payload (the
    base58-check payload of version 0 or 0x23, or the whole content in the
    original binary format) decrypts under the given master key to the double
    hash of the bytes of the returned key followed by those bytes. *)
Lemma loaded_key_verifies (P : Primitives) (content masterKey : bytes)
    (loadedKey : PrivateKey P) :
  Contract P ->
  loadContent P content masterKey = inr loadedKey ->
  exists encData,
    (CheckDecode P content = DecodeErrInvalidFormat /\ encData = content
     \/ exists version,
          CheckDecode P content = DecodeOk encData version
          /\ (version = Byte.x00 \/ version = PrivateKeyStoreVersion))
    /\ DecryptWithPassword P encData masterKey
       = inr (DoubleHashB P (Serialize P loadedKey) ++ Serialize P loadedKey).
Proof.
  intros HP Hload.
  pose proof (loadContent_cases P content masterKey) as Hcases.
  rewrite Hload in Hcases.
  destruct Hcases as (encData & decData & Hpayload & Hdec & Hlen & Hhash & ->).
  exists encData. split; [exact Hpayload|]. rewrite Hdec. f_equal.
  assert (length (drop (HashBSize P) decData) = PrivateKeyBytesLen P) as Hkey
    by (rewrite length_drop; lia).
  rewrite (key_bytes P HP _ Hkey), Hhash. symmetry. apply take_drop.
Qed.

(** What loading the saved content gives under any master key, by what the
    cipher answers for it. *)
Lemma load_saved_cases (P : Primitives) (encKey otherKey : bytes) :
  Contract P ->
  loadContent P (CheckEncode P encKey PrivateKeyStoreVersion) otherKey
  = match DecryptWithPassword P encKey otherKey with
    | inl e => inl e
    | inr decData =>
      if bool_decide (length decData ≠ (HashBSize P + PrivateKeyBytesLen P)%nat)
      then inl ErrNotKeyFile
      else if bool_decide (DoubleHashB P (drop (HashBSize P) decData)
                           = take (HashBSize P) decData)
           then inr (PrivKeyFromBytes P (drop (HashBSize P) decData))
           else inl ErrHashNotMatch
    end.
Proof.
  intros HP. unfold loadContent. rewrite (decode_encode P HP).
  rewrite (bool_decide_eq_false_2 (PrivateKeyStoreVersion ≠ PrivateKeyStoreVersion))
    by (intros Hne; apply Hne; reflexivity).
  rewrite andb_false_r. reflexivity.
Qed.

(** C8 (amended): loading the file that SavePrivateKey wrote, under the same
    master key, returns a key with the bytes of the saved key.  Under any
    other master key the load of that file fails with the error of the cipher
    when the cipher refuses the key, with the key-file error when the
    decrypted data has not the size of a hash and a key, and with the
    hash-mismatch error when the decrypted hash is not the double hash of the
    decrypted key bytes; it returns the bytes of the saved key only under a
    master key that decrypts the file to the very data that was encrypted.
    For any file and any master key (a tampered payload and a wrong key
    included), a key is returned only when the payload decrypts under that
    master key to the double hash of the returned key's bytes followed by
    those bytes. *)
Theorem Load_after_Save (P : Primitives) (fs fs' : Files) (path : string)
    (key : PrivateKey P) (masterKey : bytes) :
  Contract P ->
  SavePrivateKey P fs path key masterKey = (fs', None) ->
  loadedBytes (LoadPrivateKey P fs' path masterKey) = Some (Serialize P key)
  /\ (exists encKey,
        EncryptWithPassword P (DoubleHashB P (Serialize P key) ++ Serialize P key)
          masterKey = inr encKey
        /\ forall otherKey,
             (forall e, DecryptWithPassword P encKey otherKey = inl e ->
                LoadPrivateKey P fs' path otherKey = inl e)
             /\ (forall decData,
                   DecryptWithPassword P encKey otherKey = inr decData ->
                   length decData <> (HashBSize P + PrivateKeyBytesLen P)%nat ->
                   LoadPrivateKey P fs' path otherKey = inl ErrNotKeyFile)
             /\ (forall decData,
                   DecryptWithPassword P encKey otherKey = inr decData ->
                   length decData = (HashBSize P + PrivateKeyBytesLen P)%nat ->
                   DoubleHashB P (drop (HashBSize P) decData)
                   <> take (HashBSize P) decData ->
                   LoadPrivateKey P fs' path otherKey = inl ErrHashNotMatch)
             /\ (loadedBytes (LoadPrivateKey P fs' path otherKey)
                 = Some (Serialize P key) ->
                 DecryptWithPassword P encKey otherKey
                 = inr (DoubleHashB P (Serialize P key) ++ Serialize P key)))
  /\ forall (files : Files) (anyPath : string) (anyKey : bytes)
        (loadedKey : PrivateKey P),
       LoadPrivateKey P files anyPath anyKey = inr loadedKey ->
       exists content encData,
         files !! anyPath = Some content
         /\ (CheckDecode P content = DecodeErrInvalidFormat /\ encData = content
             \/ exists version,
                  CheckDecode P content = DecodeOk encData version
                  /\ (version = Byte.x00 \/ version = PrivateKeyStoreVersion))
         /\ DecryptWithPassword P encData anyKey
            = inr (DoubleHashB P (Serialize P loadedKey)
                   ++ Serialize P loadedKey).
Proof.
  intros HP Hsave.
  unfold SavePrivateKey in Hsave.
  destruct (savedContent P key masterKey) as [e|saved] eqn:Hsaved;
    [discriminate|].
  destruct (WriteFile P path saved) as [[e [onDisk|]]|]; try discriminate.
  injection Hsave as <-.
  unfold savedContent in Hsaved.
  destruct (EncryptWithPassword P _ masterKey) as [e|encKey] eqn:Henc;
    [discriminate|].
  injection Hsaved as <-.
  assert (forall otherKey,
            LoadPrivateKey P (<[path := CheckEncode P encKey PrivateKeyStoreVersion]> fs)
              path otherKey
            = loadContent P (CheckEncode P encKey PrivateKeyStoreVersion) otherKey)
    as Hfile.
  { intros otherKey. unfold LoadPrivateKey. rewrite lookup_insert_eq.
    reflexivity. }
  split; [|split].
  - rewrite Hfile, (load_saved_cases P encKey masterKey HP).
    rewrite (decrypt_encrypt P HP _ _ _ Henc).
    rewrite bool_decide_eq_false_2
      by (rewrite length_app, (hash_size P HP), (key_size P HP); tauto).
    assert (drop (HashBSize P) (DoubleHashB P (Serialize P key) ++ Serialize P key)
            = Serialize P key) as ->.
    { rewrite <- (hash_size P HP (Serialize P key)). apply drop_app_length. }
    assert (take (HashBSize P) (DoubleHashB P (Serialize P key) ++ Serialize P key)
            = DoubleHashB P (Serialize P key)) as ->.
    { rewrite <- (hash_size P HP (Serialize P key)). apply take_app_length. }
    rewrite bool_decide_eq_true_2 by reflexivity.
    simpl. rewrite (key_bytes P HP); [reflexivity | apply (key_size P HP)].
  - exists encKey. split; [reflexivity|]. intros otherKey.
    rewrite Hfile, (load_saved_cases P encKey otherKey HP).
    split; [intros e ->; reflexivity|].
    split.
    { intros decData -> Hlen. rewrite bool_decide_eq_true_2 by exact Hlen.
      reflexivity. }
    split.
    { intros decData -> Hlen Hhash.
      rewrite bool_decide_eq_false_2 by (intros Hne; apply Hne; exact Hlen).
      rewrite bool_decide_eq_false_2 by exact Hhash. reflexivity. }
    intros Hbytes.
    destruct (DecryptWithPassword P encKey otherKey) as [e|decData];
      [discriminate|].
    case_bool_decide as Hlen; [discriminate|].
    case_bool_decide as Hhash; [|discriminate].
    simpl in Hbytes. injection Hbytes as Hbytes.
    assert (length (drop (HashBSize P) decData) = PrivateKeyBytesLen P) as Hkey.
    { rewrite length_drop.
      destruct (decide (length decData
                        = (HashBSize P + PrivateKeyBytesLen P)%nat)); [lia|].
      contradiction. }
    rewrite (key_bytes P HP _ Hkey) in Hbytes.
    rewrite <- Hbytes, Hhash. f_equal. symmetry. apply take_drop.
  - intros files anyPath anyKey loadedKey. unfold LoadPrivateKey.
    destruct (files !! anyPath) as [content|]; [|discriminate].
    intros Hload.
    destruct (loaded_key_verifies P content anyKey loadedKey HP Hload)
      as (encData & Hpayload & Hdec).
    exists content, encData. auto.
Qed.

Lemma Load_after_Save_witness :
  match SavePrivateKey toy ∅ "private.key" key1 master with
  | (fs', None) =>
    loadedBytes (LoadPrivateKey toy fs' "private.key" master) = Some key1
    /\ LoadPrivateKey toy fs' "private.key" wrongMaster
       = inl (ErrSymmetric 1)
  | _ => False
  end.
Proof.
  destruct (SavePrivateKey toy ∅ "private.key" key1 master) as [fs' [e|]]
    eqn:Hsave; [vm_compute in Hsave; discriminate|].
  destruct (Load_after_Save toy ∅ fs' "private.key" key1 master
              toy_contract Hsave) as (Hround & (encKey & Henc & Hother) & _).
  split; [exact Hround|].
  apply (proj1 (Hother wrongMaster)).
  simpl in Henc. injection Henc as <-. vm_compute. reflexivity.
Defined.

(** C8, as stated, fails on both counts.  Under a wrong master key the load
    returns the error of the cipher, which is neither the hash-mismatch nor
    the key-file error: the decryption error is returned as it is.  And not
    every change of the stored payload makes the load fail: a payload
    replaced by the one SavePrivateKey writes for another key loads that
    other key, and a payload rewritten into the original binary format, which
    the loader accepts on purpose, loads the same key. *)
Lemma tampered_payload_loads :
  LoadPrivateKey toy (savedAs key1) "private.key" wrongMaster
  = inl (ErrSymmetric 1)
  /\ bool_decide (savedAs key2 !! "private.key" = savedAs key1 !! "private.key")
     = false
  /\ loadedBytes (LoadPrivateKey toy (savedAs key2) "private.key" master)
     = Some key2
  /\ bool_decide
       (Some (master ++ pad32 (reverse key1) ++ key1) = savedAs key1 !! "private.key")
     = false
  /\ loadedBytes
       (LoadPrivateKey toy
          {["private.key" := master ++ pad32 (reverse key1) ++ key1]}
          "private.key" master)
     = Some key1.
Proof. vm_compute. repeat split. Qed.

(** *** Formats of the key file *)

(** X9: the loader accepts the original binary format and refuses foreign
    base58 versions.  A file that holds the encrypted hash and key as they
    are, when it is not in base58-check format, loads the key; a base58-check
    file whose version byte is neither 0 nor 0x23 is refused with the version
    error under every master key, before anything is decrypted; and a payload
    that decrypts to a wrong number of bytes is refused as no key file. *)
Theorem Load_formats (P : Primitives) (fs : Files) (path : string)
    (key : PrivateKey P) (masterKey encKey : bytes) :
  Contract P ->
  EncryptWithPassword P (DoubleHashB P (Serialize P key) ++ Serialize P key)
    masterKey = inr encKey ->
  (CheckDecode P encKey = DecodeErrInvalidFormat ->
   loadedBytes (LoadPrivateKey P (<[path := encKey]> fs) path masterKey)
   = Some (Serialize P key))
  /\ (forall content payload version anyKey,
        CheckDecode P content = DecodeOk payload version ->
        version <> Byte.x00 -> version <> PrivateKeyStoreVersion ->
        LoadPrivateKey P (<[path := content]> fs) path anyKey
        = inl ErrInvalidBase58Version)
  /\ (forall content payload version anyKey decData,
        CheckDecode P content = DecodeOk payload version ->
        version = Byte.x00 \/ version = PrivateKeyStoreVersion ->
        DecryptWithPassword P payload anyKey = inr decData ->
        length decData <> (HashBSize P + PrivateKeyBytesLen P)%nat ->
        LoadPrivateKey P (<[path := content]> fs) path anyKey
        = inl ErrNotKeyFile).
Proof.
  intros HP Henc. split; [|split].
  - intros Hraw. unfold LoadPrivateKey. rewrite lookup_insert_eq.
    unfold loadContent. rewrite Hraw. cbv beta iota zeta.
    rewrite (bool_decide_eq_false_2 (Byte.x00 ≠ Byte.x00))
      by (intros Hne; apply Hne; reflexivity).
    simpl andb. cbv iota.
    rewrite (decrypt_encrypt P HP _ _ _ Henc).
    rewrite bool_decide_eq_false_2
      by (rewrite length_app, (hash_size P HP), (key_size P HP); tauto).
    assert (drop (HashBSize P) (DoubleHashB P (Serialize P key) ++ Serialize P key)
            = Serialize P key) as ->.
    { rewrite <- (hash_size P HP (Serialize P key)). apply drop_app_length. }
    assert (take (HashBSize P) (DoubleHashB P (Serialize P key) ++ Serialize P key)
            = DoubleHashB P (Serialize P key)) as ->.
    { rewrite <- (hash_size P HP (Serialize P key)). apply take_app_length. }
    rewrite bool_decide_eq_true_2 by reflexivity.
    simpl. rewrite (key_bytes P HP); [reflexivity | apply (key_size P HP)].
  - intros content payload version anyKey Hdec H0 H23.
    unfold LoadPrivateKey. rewrite lookup_insert_eq.
    unfold loadContent. rewrite Hdec. cbv beta iota zeta.
    rewrite !bool_decide_eq_true_2 by assumption. reflexivity.
  - intros content payload version anyKey decData Hdec Hv Hd Hlen.
    unfold LoadPrivateKey. rewrite lookup_insert_eq.
    unfold loadContent. rewrite Hdec. cbv beta iota zeta.
    assert (bool_decide (version ≠ Byte.x00)
            && bool_decide (version ≠ PrivateKeyStoreVersion) = false) as ->.
    { destruct Hv as [-> | ->].
      - rewrite (bool_decide_eq_false_2 (Byte.x00 ≠ Byte.x00)); [reflexivity|].
        intros Hne; apply Hne; reflexivity.
      - rewrite (bool_decide_eq_false_2
                   (PrivateKeyStoreVersion ≠ PrivateKeyStoreVersion));
          [apply andb_false_r|].
        intros Hne; apply Hne; reflexivity. }
    rewrite Hd. rewrite bool_decide_eq_true_2 by exact Hlen. reflexivity.
Qed.

Lemma Load_formats_witness :
  loadedBytes
    (LoadPrivateKey toy (<["private.key" := master ++ pad32 (reverse key1) ++ key1]> ∅)
       "private.key" master) = Some key1
  /\ LoadPrivateKey toy
       (<["private.key" := [Byte.x21; Byte.x24; Byte.x00]]> ∅) "private.key" master
     = inl ErrInvalidBase58Version.
Proof.
  destruct (Load_formats toy ∅ "private.key" key1 master
              (master ++ pad32 (reverse key1) ++ key1) toy_contract eq_refl)
    as (Hraw & Hversion & _).
  split; [exact (Hraw eq_refl)|].
  apply (Hversion [Byte.x21; Byte.x24; Byte.x00] [Byte.x00] Byte.x24 master
           eq_refl); discriminate.
Defined.

(** *** Initialising the local key pair *)

(** X10: InitLocalKeyPair never writes over a key file that can be read.
    When the read of the key file succeeds (and the decryption reports no
    path error, which is the error of a failed read), the files are left as
    they are whatever the outcome and whatever the generate flag, also when
    the content does not load (a wrong master key, a damaged file): no key is
    generated, the call succeeds exactly when the file loads, and the pair it
    sets is then the loaded key with its public key.  When the read fails and
    keys are not to be generated, it returns the read error, sets no pair and
    writes nothing.  A key file that is there and cannot be read is not
    kept: its read fails like that of a missing file, and with key
    generation on a new key is saved at its path. *)
Theorem InitLocalKeyPair_keeps_readable_key_file (P : Primitives) (G : KeyGen P)
    (generateKeyPair : bool) (fs : Files) (path : string) (masterKey : bytes) :
  (is_Some (fs !! path) ->
   (forall c m, DecryptWithPassword P c m <> inl ErrPath) ->
   initFiles (InitLocalKeyPair P G generateKeyPair fs path masterKey) = fs
   /\ match LoadPrivateKey P fs path masterKey with
      | inr key =>
        initErr (InitLocalKeyPair P G generateKeyPair fs path masterKey) = None
        /\ localKeyPair (InitLocalKeyPair P G generateKeyPair fs path masterKey)
           = Some (key, PubKey G key)
      | inl e =>
        initErr (InitLocalKeyPair P G generateKeyPair fs path masterKey) = Some e
        /\ localKeyPair (InitLocalKeyPair P G generateKeyPair fs path masterKey)
           = None
      end)
  /\ (fs !! path = None ->
      InitLocalKeyPair P G false fs path masterKey
      = mkInitResult P G fs (Some ErrPath) None)
  /\ (fs !! path = None ->
      forall privateKey publicKey fs',
        GenSecp256k1KeyPair G = inr (privateKey, publicKey) ->
        SavePrivateKey P fs path privateKey masterKey = (fs', None) ->
        InitLocalKeyPair P G true fs path masterKey
        = mkInitResult P G fs' None (Some (privateKey, publicKey))
        /\ exists saved,
             savedContent P privateKey masterKey = inr saved
             /\ fs' !! path = Some saved).
Proof.
  split; [|split].
  - intros [content Hfile] Hsym. unfold InitLocalKeyPair.
    assert (LoadPrivateKey P fs path masterKey <> inl ErrPath) as Hread.
    { unfold LoadPrivateKey. rewrite Hfile. unfold loadContent.
      destruct (CheckDecode P content) as [payload version| |];
        cbv beta iota zeta; try discriminate.
      - destruct (bool_decide (version ≠ Byte.x00)
                  && bool_decide (version ≠ PrivateKeyStoreVersion));
          [discriminate|].
        destruct (DecryptWithPassword P payload masterKey) as [e|d] eqn:Hd.
        + intros Heq. injection Heq as ->. exact (Hsym _ _ Hd).
        + repeat case_bool_decide; discriminate.
      - destruct (bool_decide (Byte.x00 ≠ Byte.x00)
                  && bool_decide (Byte.x00 ≠ PrivateKeyStoreVersion));
          [discriminate|].
        destruct (DecryptWithPassword P content masterKey) as [e|d] eqn:Hd.
        + intros Heq. injection Heq as ->. exact (Hsym _ _ Hd).
        + repeat case_bool_decide; discriminate. }
    destruct (LoadPrivateKey P fs path masterKey) as [e|key]; [|auto].
    destruct e; simpl; auto. contradiction Hread. reflexivity.
  - intros Hmissing. unfold InitLocalKeyPair, LoadPrivateKey.
    rewrite Hmissing. reflexivity.
  - intros Hmissing privateKey publicKey fs' Hgen Hsave.
    unfold InitLocalKeyPair, LoadPrivateKey.
    rewrite Hmissing, Hgen, Hsave. split; [reflexivity|].
    unfold SavePrivateKey in Hsave.
    destruct (savedContent P privateKey masterKey) as [e|saved];
      [discriminate|].
    destruct (WriteFile P path saved) as [[e [onDisk|]]|]; try discriminate.
    injection Hsave as <-. exists saved. split; [reflexivity|].
    apply lookup_insert_eq.
Qed.

Lemma toyDecrypt_no_path_error (c m : bytes) :
  DecryptWithPassword toy c m <> inl ErrPath.
Proof.
  simpl. unfold toyDecrypt. case_bool_decide; discriminate.
Qed.

Lemma InitLocalKeyPair_keeps_readable_key_file_witness :
  (initFiles
     (InitLocalKeyPair toy toyGen true (savedAs key1) "private.key" master)
   = savedAs key1
   /\ match LoadPrivateKey toy (savedAs key1) "private.key" master with
      | inr key =>
        localKeyPair
          (InitLocalKeyPair toy toyGen true (savedAs key1) "private.key" master)
        = Some (key, reverse key)
      | inl _ => False
      end)
  /\ initFiles
       (InitLocalKeyPair toy toyGen true (savedAs key1) "private.key" wrongMaster)
     = savedAs key1
  /\ match LoadPrivateKey toy (savedAs key1) "private.key" wrongMaster with
     | inl e =>
       initErr
         (InitLocalKeyPair toy toyGen true (savedAs key1) "private.key"
            wrongMaster) = Some e
       /\ localKeyPair
            (InitLocalKeyPair toy toyGen true (savedAs key1) "private.key"
               wrongMaster) = None
     | inr _ => False
     end.
Proof.
  split.
  - destruct (InitLocalKeyPair_keeps_readable_key_file toy toyGen true
                (savedAs key1) "private.key" master) as [Hkept _].
    destruct Hkept as [Hfiles Hpair].
    + vm_compute. eexists. reflexivity.
    + exact toyDecrypt_no_path_error.
    + split; [exact Hfiles|].
      destruct (LoadPrivateKey toy (savedAs key1) "private.key" master)
        as [e|key] eqn:Hload.
      * vm_compute in Hload. discriminate.
      * exact (proj2 Hpair).
  - destruct (InitLocalKeyPair_keeps_readable_key_file toy toyGen true
                (savedAs key1) "private.key" wrongMaster) as [Hkept _].
    destruct Hkept as [Hfiles Hpair].
    + vm_compute. eexists. reflexivity.
    + exact toyDecrypt_no_path_error.
    + split; [exact Hfiles|].
      destruct (LoadPrivateKey toy (savedAs key1) "private.key" wrongMaster)
        as [e|key] eqn:Hload.
      * exact Hpair.
      * vm_compute in Hload. discriminate.
Defined.

(** The content that [SavePrivateKey] writes loads, under the same master key,
    to a key with the bytes of the saved one. *)
Lemma loadContent_savedContent (P : Primitives) (key : PrivateKey P)
    (masterKey saved : bytes) :
  Contract P ->
  savedContent P key masterKey = inr saved ->
  exists loadedKey,
    loadContent P saved masterKey = inr loadedKey
    /\ Serialize P loadedKey = Serialize P key.
Proof.
  intros HP Hsaved. unfold savedContent in Hsaved.
  destruct (EncryptWithPassword P _ masterKey) as [e|encKey] eqn:Henc;
    [discriminate|].
  injection Hsaved as <-.
  unfold loadContent. rewrite (decode_encode P HP).
  rewrite (bool_decide_eq_false_2 (PrivateKeyStoreVersion ≠ PrivateKeyStoreVersion))
    by (intros Hne; apply Hne; reflexivity).
  rewrite andb_false_r.
  rewrite (decrypt_encrypt P HP _ _ _ Henc).
  rewrite bool_decide_eq_false_2
    by (rewrite length_app, (hash_size P HP), (key_size P HP); tauto).
  assert (drop (HashBSize P) (DoubleHashB P (Serialize P key) ++ Serialize P key)
          = Serialize P key) as ->.
  { rewrite <- (hash_size P HP (Serialize P key)). apply drop_app_length. }
  assert (take (HashBSize P) (DoubleHashB P (Serialize P key) ++ Serialize P key)
          = DoubleHashB P (Serialize P key)) as ->.
  { rewrite <- (hash_size P HP (Serialize P key)). apply take_app_length. }
  rewrite bool_decide_eq_true_2 by reflexivity.
  eexists. split; [reflexivity|].
  apply (key_bytes P HP), (key_size P HP).
Qed.

(** X11: the first start of a node.  With no key file and key generation
    switched on, InitLocalKeyPair generates a pair; when generating or saving
    fails it returns that error and sets no pair; when both succeed it sets
    exactly the generated pair and leaves the key file written, the other
    files untouched.  A later InitLocalKeyPair under the same master key, with
    or without key generation, then succeeds without generating or writing
    anything and sets a key with the bytes of the generated one. *)
Theorem InitLocalKeyPair_first_start (P : Primitives) (G : KeyGen P)
    (fs : Files) (path : string) (masterKey : bytes) :
  Contract P ->
  fs !! path = None ->
  match GenSecp256k1KeyPair G with
  | inl e =>
    InitLocalKeyPair P G true fs path masterKey = mkInitResult P G fs (Some e) None
  | inr (privateKey, publicKey) =>
    match SavePrivateKey P fs path privateKey masterKey with
    | (fs', Some e) =>
      InitLocalKeyPair P G true fs path masterKey
      = mkInitResult P G fs' (Some e) None
    | (fs', None) =>
      InitLocalKeyPair P G true fs path masterKey
      = mkInitResult P G fs' None (Some (privateKey, publicKey))
      /\ (forall other, other <> path -> fs' !! other = fs !! other)
      /\ forall again : bool,
           exists loadedKey,
             InitLocalKeyPair P G again fs' path masterKey
             = mkInitResult P G fs' None (Some (loadedKey, PubKey G loadedKey))
             /\ Serialize P loadedKey = Serialize P privateKey
    end
  end.
Proof.
  intros HP Hmissing.
  assert (LoadPrivateKey P fs path masterKey = inl ErrPath) as Hload
    by (unfold LoadPrivateKey; rewrite Hmissing; reflexivity).
  unfold InitLocalKeyPair at 1 2 3. rewrite Hload. cbv beta iota zeta.
  destruct (GenSecp256k1KeyPair G) as [e|[privateKey publicKey]]; [reflexivity|].
  destruct (SavePrivateKey P fs path privateKey masterKey) as [fs' [e|]] eqn:Hsave;
    [reflexivity|].
  split; [reflexivity|].
  unfold SavePrivateKey in Hsave.
  destruct (savedContent P privateKey masterKey) as [e|saved] eqn:Hsaved;
    [discriminate|].
  destruct (WriteFile P path saved) as [[e [onDisk|]]|]; try discriminate.
  injection Hsave as <-. split.
  - intros other Hother. apply lookup_insert_ne. congruence.
  - intros again.
    destruct (loadContent_savedContent P privateKey masterKey saved HP Hsaved)
      as (loadedKey & Hloaded & Hbytes).
    exists loadedKey. split; [|exact Hbytes].
    unfold InitLocalKeyPair, LoadPrivateKey.
    rewrite lookup_insert_eq, Hloaded. reflexivity.
Qed.

Lemma InitLocalKeyPair_first_start_witness :
  match SavePrivateKey toy ∅ "private.key" key2 master with
  | (fs', None) =>
    InitLocalKeyPair toy toyGen true ∅ "private.key" master
    = mkInitResult toy toyGen fs' None (Some (key2, reverse key2))
    /\ exists loadedKey : bytes,
         InitLocalKeyPair toy toyGen false fs' "private.key" master
         = mkInitResult toy toyGen fs' None (Some (loadedKey, reverse loadedKey))
         /\ pad32 loadedKey = pad32 key2
  | _ => False
  end.
Proof.
  pose proof (InitLocalKeyPair_first_start toy toyGen ∅ "private.key" master
                toy_contract (lookup_empty _)) as Hstart.
  cbn [GenSecp256k1KeyPair toyGen] in Hstart.
  destruct (SavePrivateKey toy ∅ "private.key" key2 master) as [fs' [e|]]
    eqn:Hsave; [vm_compute in Hsave; discriminate|].
  destruct Hstart as (Hfirst & _ & Hagain).
  split; [exact Hfirst|]. exact (Hagain false).
Defined.

End KMSFacts.
